(** * JobHunter.Ai front end: session, cache and callback handling

    A shallow embedding of the client-side session and data-synchronisation
    code of the React front end:

    - [services/api.js]: the remote client, in its token-aware revision
      (module [Api]) and in the older token-less revision kept under
      [Frontend/src/services/api.js] (module [LegacyApi]);
    - [App.js]: session restore, URL inspection, login, logout, the
      application cache handlers and the page switch (module [App]);
    - [components/auth/OAuthCallback.js]: the token exchange (module
      [OAuthCallback]);
    - [pages/applications.js]: filtering and the remote-then-local CRUD
      handlers (module [ApplicationsPage]).

    JavaScript values are a tree of JSON-like values, component state and the
    browser (storage, location, network outbox) form one [World] record, and
    handlers are computations in a state-and-exception monad, so that a
    [try]/[catch] keeps the writes made before the throw, as the source does.
    An asynchronous handler is split at its [await]: a [_start] part that
    runs up to the request, and a [_resume] part that receives the outcome
    of the request. *)

From Stdlib Require Import ZArith Ascii String.
From stdpp Require Import gmap strings list fin_maps pretty.

Set Warnings "-register-all".
Open Scope Z_scope.

(** ** JavaScript values *)

(** Numbers are integers here: the program only handles record ids,
    [Date.now()] and HTTP status codes.  Objects map property names to
    values; objects and arrays carry no reference identity. *)
Inductive jsval : Type :=
| JUndefined
| JNull
| JBool (b : bool)
| JNum (n : Z)
| JStr (s : string)
| JArr (l : list jsval)
| JObj (o : gmap string jsval).

(** ToBoolean. *)
Definition truthy (v : jsval) : bool :=
  match v with
  | JUndefined | JNull => false
  | JBool b => b
  | JNum n => negb (n =? 0)
  | JStr s => negb (String.eqb s "")
  | JArr _ | JObj _ => true
  end.

(** [a === b].  Values of different types are never equal; primitives are
    compared by value.  Objects and arrays are compared by reference in
    JavaScript: two separately built ones are never equal, which is the
    answer given here (record ids are numbers or strings). *)
Definition strict_eq (a b : jsval) : bool :=
  match a, b with
  | JUndefined, JUndefined => true
  | JNull, JNull => true
  | JBool x, JBool y => Bool.eqb x y
  | JNum x, JNum y => x =? y
  | JStr x, JStr y => String.eqb x y
  | _, _ => false
  end.

(** [a || b] on values. *)
Definition js_or (a b : jsval) : jsval := if truthy a then a else b.

(** The one-character strings of a string, as [...s] and [s[i]] see them. *)
Fixpoint chars (s : string) : list jsval :=
  match s with
  | EmptyString => []
  | String c s' => JStr (String c EmptyString) :: chars s'
  end.

Definition indexed (l : list jsval) : gmap string jsval :=
  list_to_map (imap (λ i x, (pretty i, x)) l).

(** The own enumerable properties copied by an object spread [{...v}]. *)
Definition own_props (v : jsval) : gmap string jsval :=
  match v with
  | JObj o => o
  | JArr l => indexed l
  | JStr s => indexed (chars s)
  | _ => ∅
  end.

(** [{...a, ...b}]: properties of [b] win. *)
Definition spread (a b : jsval) : gmap string jsval := own_props b ∪ own_props a.

(** Reading a property that is present or absent on a value that is not
    [null] or [undefined].  Only data properties are modelled (the program
    reads [id], [name], [email], [company], [role], [status], [error],
    [application], [authorization_url]). *)
Definition prop (v : jsval) (k : string) : jsval :=
  match v with
  | JArr l => if String.eqb k "length" then JNum (Z.of_nat (length l))
              else default JUndefined (indexed l !! k)
  | JStr s => if String.eqb k "length" then JNum (Z.of_nat (String.length s))
              else default JUndefined (indexed (chars s) !! k)
  | _ => default JUndefined (own_props v !! k)
  end.

(** [String(v)], as used by template literals and [new Error(v)]. *)
Fixpoint String_of (v : jsval) : string :=
  match v with
  | JUndefined => "undefined"
  | JNull => "null"
  | JBool true => "true"
  | JBool false => "false"
  | JNum n => pretty n
  | JStr s => s
  | JObj _ => "[object Object]"
  | JArr l =>
      (fix join (l : list jsval) : string :=
         match l with
         | [] => ""
         | x :: l' =>
             let sx := match x with JUndefined | JNull => "" | _ => String_of x end in
             match l' with [] => sx | _ => sx +:+ "," +:+ join l' end
         end) l
  end.

(** ** Strings *)

(** [toLowerCase].  Strings are byte strings here, and only the letters
    [A] to [Z] are lowered: this is [String.prototype.toLowerCase] on text
    whose characters are all below 128, and on such text only ([is_ascii]
    below); a property of the search over arbitrary text carries that
    condition. *)
Definition lower_ascii (c : ascii) : ascii :=
  let n := nat_of_ascii c in
  if (Nat.leb 65 n && Nat.leb n 90)%bool then ascii_of_nat (n + 32) else c.

Fixpoint toLowerCase (s : string) : string :=
  match s with
  | EmptyString => EmptyString
  | String c s' => String (lower_ascii c) (toLowerCase s')
  end.

Definition is_ascii (s : string) : bool :=
  forallb (λ c, Nat.ltb (nat_of_ascii c) 128) (list_ascii_of_string s).

(** [s.includes(t)]. *)
Fixpoint includes (s t : string) : bool :=
  String.prefix t s ||
  match s with
  | EmptyString => false
  | String _ s' => includes s' t
  end.

(** ** Exceptions and completions *)

Inductive exn : Type :=
| SyntaxError                (* JSON.parse, response.json() on a non-JSON body *)
| TypeError                  (* property of null/undefined, call of a non-function,
                                spread of a non-iterable, rejected fetch *)
| Error (message : string).  (* new Error(message) *)

Inductive completion (A : Type) : Type :=
| Normal (a : A)
| Abrupt (e : exn).
Arguments Normal {A} a.
Arguments Abrupt {A} e.

(** A user-visible error text: either a literal or [prefix + err.message],
    kept symbolic because the message of an engine-raised error is
    engine-defined. *)
Inductive text : Type :=
| Lit (s : string)
| Failed (prefix : string) (cause : exn).

(** ** The browser and the component state *)

Record Location : Type := mkLocation {
  pathname : string;
  search : list (string * string)   (* the query string, as URLSearchParams parses it *)
}.

(** [new URLSearchParams(search).get(k)]: the first value, or [null]. *)
Fixpoint searchParams_get (q : list (string * string)) (k : string) : option string :=
  match q with
  | [] => None
  | (k', v) :: q' => if String.eqb k' k then Some v else searchParams_get q' k
  end.

(** Truthiness of a value that is a string or [null]. *)
Definition present (o : option string) : bool :=
  match o with
  | Some s => negb (String.eqb s "")
  | None => false
  end.

Inductive method : Type := GET | POST | PATCH | DELETE.

Record Request : Type := mkRequest {
  req_method : method;
  req_url : string;
  req_headers : gmap string string;
  req_body : option jsval           (* the value that JSON.stringify serialises *)
}.

Record Response : Type := mkResponse {
  status : Z;
  body : option jsval               (* [None]: the body is not JSON *)
}.

(** [response.ok]. *)
Definition ok (r : Response) : bool := (200 <=? status r) && (status r <=? 299).

(** What awaiting [fetch] gives. *)
Inductive fetched : Type :=
| Rejected                          (* network failure: fetch rejects with a TypeError *)
| Responded (r : Response).

Record World : Type := mkWorld {
  (* App *)
  currentPage : string;
  isAuthenticated : bool;
  user : jsval;
  applications : jsval;
  isLoading : bool;
  error : string;
  (* the value of isAuthenticated the URL effect last ran with *)
  effectDeps : option bool;
  (* OAuthCallback *)
  callbackError : string;
  (* Applications page *)
  pageLoading : bool;
  pageError : text;
  (* browser *)
  localStorage : gmap string string;
  location : Location;
  reloads : nat;                    (* full navigations through location.href *)
  console : list string;
  outbox : list Request;            (* requests handed to fetch, oldest first *)
  renderError : option exn          (* an error raised while React renders *)
}.

Definition useState_initial (ls : gmap string string) (loc : Location) : World :=
  {| currentPage := "dashboard"; isAuthenticated := false; user := JNull;
     applications := JArr []; isLoading := false; error := "";
     effectDeps := None; callbackError := "";
     pageLoading := false; pageError := Lit "";
     localStorage := ls; location := loc; reloads := 0%nat;
     console := []; outbox := []; renderError := None |}.

Definition JS (A : Type) : Type := World → World * completion A.

#[global] Instance JS_ret : MRet JS := λ A a w, (w, Normal a).
#[global] Instance JS_bind : MBind JS := λ A B f m w,
  match m w with
  | (w', Normal a) => f a w'
  | (w', Abrupt e) => (w', Abrupt e)
  end.

Definition throw {A : Type} (e : exn) : JS A := λ w, (w, Abrupt e).

Definition lift {A : Type} (c : completion A) : JS A := λ w, (w, c).

(** [try { m } catch (e) { h e }]: the handler starts from the state the
    body had reached. *)
Definition try_catch {A : Type} (m : JS A) (h : exn → JS A) : JS A := λ w,
  match m w with
  | (w', Normal a) => (w', Normal a)
  | (w', Abrupt e) => h e w'
  end.

(** [try { m } finally { f }]. *)
Definition try_finally {A : Type} (m : JS A) (f : JS unit) : JS A := λ w,
  match m w with
  | (w', c) =>
      match f w' with
      | (w'', Normal _) => (w'', c)
      | (w'', Abrupt e) => (w'', Abrupt e)
      end
  end.

Definition modify (f : World → World) : JS unit := λ w, (f w, Normal tt).
Definition gets {A : Type} (f : World → A) : JS A := λ w, (w, Normal (f w)).


(** [v?.k]. *)
Definition member_opt (v : jsval) (k : string) : jsval :=
  match v with
  | JUndefined | JNull => JUndefined
  | _ => prop v k
  end.

(** The engine functions the program calls and does not define. *)
Class Engine : Type := mkEngine {
  JSON_parse : string → option jsval;   (* [None]: SyntaxError *)
  JSON_stringify : jsval → string
}.

#[global] Instance completion_ret : MRet completion := λ A a, Normal a.
#[global] Instance completion_bind : MBind completion := λ A B f c,
  match c with
  | Normal a => f a
  | Abrupt e => Abrupt e
  end.

(** [v.k], outside the state monad. *)
Definition get_member (v : jsval) (k : string) : completion jsval :=
  match v with
  | JUndefined | JNull => Abrupt TypeError
  | _ => Normal (prop v k)
  end.

(** [l.map(f)] and [l.filter(p)] stop at the first callback that throws. *)
Fixpoint array_map (f : jsval → completion jsval) (l : list jsval) : completion (list jsval) :=
  match l with
  | [] => Normal []
  | x :: l' =>
      match f x with
      | Abrupt e => Abrupt e
      | Normal y =>
          match array_map f l' with
          | Abrupt e => Abrupt e
          | Normal r => Normal (y :: r)
          end
      end
  end.

Fixpoint array_filter (p : jsval → completion bool) (l : list jsval) : completion (list jsval) :=
  match l with
  | [] => Normal []
  | x :: l' =>
      match p x with
      | Abrupt e => Abrupt e
      | Normal b =>
          match array_filter p l' with
          | Abrupt e => Abrupt e
          | Normal r => Normal (if b then x :: r else r)
          end
      end
  end.

(** The elements an array spread [[...v]] takes from [v]. *)
Definition iterate (v : jsval) : completion (list jsval) :=
  match v with
  | JArr l => Normal l
  | JStr s => Normal (chars s)
  | _ => Abrupt TypeError
  end.

(** ** State writes *)

Definition setCurrentPage (p : string) : JS unit := modify (λ w,
  {| currentPage := p; isAuthenticated := isAuthenticated w; user := user w;
     applications := applications w; isLoading := isLoading w; error := error w;
     effectDeps := effectDeps w; callbackError := callbackError w;
     pageLoading := pageLoading w; pageError := pageError w;
     localStorage := localStorage w; location := location w; reloads := reloads w;
     console := console w; outbox := outbox w; renderError := renderError w |}).

Definition setIsAuthenticated (b : bool) : JS unit := modify (λ w,
  {| currentPage := currentPage w; isAuthenticated := b; user := user w;
     applications := applications w; isLoading := isLoading w; error := error w;
     effectDeps := effectDeps w; callbackError := callbackError w;
     pageLoading := pageLoading w; pageError := pageError w;
     localStorage := localStorage w; location := location w; reloads := reloads w;
     console := console w; outbox := outbox w; renderError := renderError w |}).

Definition setUser (u : jsval) : JS unit := modify (λ w,
  {| currentPage := currentPage w; isAuthenticated := isAuthenticated w; user := u;
     applications := applications w; isLoading := isLoading w; error := error w;
     effectDeps := effectDeps w; callbackError := callbackError w;
     pageLoading := pageLoading w; pageError := pageError w;
     localStorage := localStorage w; location := location w; reloads := reloads w;
     console := console w; outbox := outbox w; renderError := renderError w |}).

Definition setApplications (a : jsval) : JS unit := modify (λ w,
  {| currentPage := currentPage w; isAuthenticated := isAuthenticated w; user := user w;
     applications := a; isLoading := isLoading w; error := error w;
     effectDeps := effectDeps w; callbackError := callbackError w;
     pageLoading := pageLoading w; pageError := pageError w;
     localStorage := localStorage w; location := location w; reloads := reloads w;
     console := console w; outbox := outbox w; renderError := renderError w |}).

Definition setIsLoading (b : bool) : JS unit := modify (λ w,
  {| currentPage := currentPage w; isAuthenticated := isAuthenticated w; user := user w;
     applications := applications w; isLoading := b; error := error w;
     effectDeps := effectDeps w; callbackError := callbackError w;
     pageLoading := pageLoading w; pageError := pageError w;
     localStorage := localStorage w; location := location w; reloads := reloads w;
     console := console w; outbox := outbox w; renderError := renderError w |}).

Definition setError (s : string) : JS unit := modify (λ w,
  {| currentPage := currentPage w; isAuthenticated := isAuthenticated w; user := user w;
     applications := applications w; isLoading := isLoading w; error := s;
     effectDeps := effectDeps w; callbackError := callbackError w;
     pageLoading := pageLoading w; pageError := pageError w;
     localStorage := localStorage w; location := location w; reloads := reloads w;
     console := console w; outbox := outbox w; renderError := renderError w |}).

Definition setEffectDeps (d : option bool) : JS unit := modify (λ w,
  {| currentPage := currentPage w; isAuthenticated := isAuthenticated w; user := user w;
     applications := applications w; isLoading := isLoading w; error := error w;
     effectDeps := d; callbackError := callbackError w;
     pageLoading := pageLoading w; pageError := pageError w;
     localStorage := localStorage w; location := location w; reloads := reloads w;
     console := console w; outbox := outbox w; renderError := renderError w |}).

Definition setCallbackError (s : string) : JS unit := modify (λ w,
  {| currentPage := currentPage w; isAuthenticated := isAuthenticated w; user := user w;
     applications := applications w; isLoading := isLoading w; error := error w;
     effectDeps := effectDeps w; callbackError := s;
     pageLoading := pageLoading w; pageError := pageError w;
     localStorage := localStorage w; location := location w; reloads := reloads w;
     console := console w; outbox := outbox w; renderError := renderError w |}).

Definition setPageLoading (b : bool) : JS unit := modify (λ w,
  {| currentPage := currentPage w; isAuthenticated := isAuthenticated w; user := user w;
     applications := applications w; isLoading := isLoading w; error := error w;
     effectDeps := effectDeps w; callbackError := callbackError w;
     pageLoading := b; pageError := pageError w;
     localStorage := localStorage w; location := location w; reloads := reloads w;
     console := console w; outbox := outbox w; renderError := renderError w |}).

Definition setPageError (t : text) : JS unit := modify (λ w,
  {| currentPage := currentPage w; isAuthenticated := isAuthenticated w; user := user w;
     applications := applications w; isLoading := isLoading w; error := error w;
     effectDeps := effectDeps w; callbackError := callbackError w;
     pageLoading := pageLoading w; pageError := t;
     localStorage := localStorage w; location := location w; reloads := reloads w;
     console := console w; outbox := outbox w; renderError := renderError w |}).

Definition setLocalStorage (f : gmap string string → gmap string string) : JS unit := modify (λ w,
  {| currentPage := currentPage w; isAuthenticated := isAuthenticated w; user := user w;
     applications := applications w; isLoading := isLoading w; error := error w;
     effectDeps := effectDeps w; callbackError := callbackError w;
     pageLoading := pageLoading w; pageError := pageError w;
     localStorage := f (localStorage w); location := location w; reloads := reloads w;
     console := console w; outbox := outbox w; renderError := renderError w |}).

(** [localStorage.getItem(k)], [setItem(k, v)], [removeItem(k)]. *)
Definition localStorage_getItem (k : string) : JS (option string) :=
  gets (λ w, localStorage w !! k).
Definition localStorage_setItem (k v : string) : JS unit := setLocalStorage (insert k v).
Definition localStorage_removeItem (k : string) : JS unit := setLocalStorage (delete k).

(** [window.location.href = url], for a path without a query string: the
    document is loaded anew from [url]. *)
Definition location_assign (url : string) : JS unit := modify (λ w,
  {| currentPage := currentPage w; isAuthenticated := isAuthenticated w; user := user w;
     applications := applications w; isLoading := isLoading w; error := error w;
     effectDeps := effectDeps w; callbackError := callbackError w;
     pageLoading := pageLoading w; pageError := pageError w;
     localStorage := localStorage w; location := mkLocation url []; reloads := S (reloads w);
     console := console w; outbox := outbox w; renderError := renderError w |}).

(** [window.history.replaceState({}, title, url)], for a path without a query
    string: the address changes, nothing is loaded. *)
Definition history_replaceState (url : string) : JS unit := modify (λ w,
  {| currentPage := currentPage w; isAuthenticated := isAuthenticated w; user := user w;
     applications := applications w; isLoading := isLoading w; error := error w;
     effectDeps := effectDeps w; callbackError := callbackError w;
     pageLoading := pageLoading w; pageError := pageError w;
     localStorage := localStorage w; location := mkLocation url []; reloads := reloads w;
     console := console w; outbox := outbox w; renderError := renderError w |}).

(** [console.error(text, err)]: a line is kept by the text it starts with,
    the error printed after it is not kept; [console.error(err)] starts with
    no text. *)
Definition console_error (label : string) : JS unit := modify (λ w,
  {| currentPage := currentPage w; isAuthenticated := isAuthenticated w; user := user w;
     applications := applications w; isLoading := isLoading w; error := error w;
     effectDeps := effectDeps w; callbackError := callbackError w;
     pageLoading := pageLoading w; pageError := pageError w;
     localStorage := localStorage w; location := location w; reloads := reloads w;
     console := console w ++ [label]; outbox := outbox w; renderError := renderError w |}).

(** [fetch(url, options)]: the request leaves; its outcome arrives later. *)
Definition fetch (r : Request) : JS unit := modify (λ w,
  {| currentPage := currentPage w; isAuthenticated := isAuthenticated w; user := user w;
     applications := applications w; isLoading := isLoading w; error := error w;
     effectDeps := effectDeps w; callbackError := callbackError w;
     pageLoading := pageLoading w; pageError := pageError w;
     localStorage := localStorage w; location := location w; reloads := reloads w;
     console := console w; outbox := outbox w ++ [r]; renderError := renderError w |}).

(** An error thrown while React applies a state updater surfaces in the next
    render, outside the handler that queued the updater. *)
Definition setRenderError (e : exn) : JS unit := modify (λ w,
  {| currentPage := currentPage w; isAuthenticated := isAuthenticated w; user := user w;
     applications := applications w; isLoading := isLoading w; error := error w;
     effectDeps := effectDeps w; callbackError := callbackError w;
     pageLoading := pageLoading w; pageError := pageError w;
     localStorage := localStorage w; location := location w; reloads := reloads w;
     console := console w; outbox := outbox w; renderError := Some e |}).

(** [setApplications(prev => f(prev))]. *)
Definition setApplications_with (f : jsval → completion jsval) : JS unit :=
  prev ← gets applications;
  match f prev with
  | Normal next => setApplications next
  | Abrupt e => setRenderError e
  end.

(** [await response.json()]. *)
Definition response_json (r : Response) : JS jsval :=
  match body r with
  | Some v => mret v
  | None => throw SyntaxError
  end.

(** The [applicationsAPI] object of [services/api], as the components that
    import it use it: each call is the part that sends the request and the
    part that handles its outcome. *)
Record ApplicationsAPI : Type := mkApplicationsAPI {
  getAll_send : jsval → JS unit;
  getAll_receive : fetched → JS jsval;
  add_send : jsval → JS unit;
  add_receive : fetched → JS jsval;
  update_send : jsval → jsval → JS unit;
  update_receive : fetched → JS jsval;
  delete_send : jsval → JS unit;
  delete_receive : fetched → JS jsval
}.

Definition API_BASE_URL : string := "http://localhost:5000".
Definition json_headers : gmap string string := {["Content-Type" := "application/json"]}.

(** [v.k]: a TypeError on [null] and [undefined]. *)
Definition member (v : jsval) (k : string) : JS jsval := lift (get_member v k).

(** ** The remote client, token-aware revision ([services/api.js]) *)

Module Api.

Definition getToken : JS (option string) := localStorage_getItem "auth_token".

(** [handleResponse]: an answer that is not ok raises [Error]; a 401 first
    clears the stored session and leaves for [/login]. *)
Definition handleResponse (response : Response) : JS jsval :=
  if negb (ok response) then
    (if status response =? 401 then
       localStorage_removeItem "auth_token" ;;
       localStorage_removeItem "user" ;;
       location_assign "/login"
     else mret tt) ;;
    error ← response_json response ;
    msg ← member error "error" ;
    throw (Error (String_of (js_or msg (JStr "Something went wrong"))))
  else response_json response.

(** [authenticatedFetch(url, options)]; no caller passes [options.headers]. *)
Definition authenticatedFetch (url : string) (m : method) (b : option jsval) : JS unit :=
  token ← getToken ;
  let headers := json_headers in
  let headers :=
    if present token then <["Authorization" := "Bearer " +:+ default "" token]> headers
    else headers in
  fetch (mkRequest m url headers b).

(** The functions exported by the module. *)
Inductive call : Type :=
| auth_register (userData : jsval)
| auth_login (credentials : jsval)
| auth_getGoogleAuthUrl
| auth_getMicrosoftAuthUrl
| applications_getAll (userId : jsval)
| applications_add (applicationData : jsval)
| applications_update (applicationId updateData : jsval)
| applications_delete (applicationId : jsval)
| user_getProfile (userId : jsval)
| user_updateProfile (userId userData : jsval)
| email_getAll
| email_connectGmail
| email_connectMicrosoft
| email_syncAccount (accountId : jsval)
| email_getStatus (accountId : jsval)
| email_disconnectAccount (accountId : jsval)
| health_check.

(** Up to the [await] of the request. *)
Definition send (c : call) : JS unit :=
  match c with
  | auth_register userData =>
      fetch (mkRequest POST (API_BASE_URL +:+ "/auth/register") json_headers (Some userData))
  | auth_login credentials =>
      fetch (mkRequest POST (API_BASE_URL +:+ "/auth/login") json_headers (Some credentials))
  | auth_getGoogleAuthUrl =>
      fetch (mkRequest GET (API_BASE_URL +:+ "/auth/google") ∅ None)
  | auth_getMicrosoftAuthUrl =>
      fetch (mkRequest GET (API_BASE_URL +:+ "/auth/microsoft") ∅ None)
  | applications_getAll userId =>
      authenticatedFetch (API_BASE_URL +:+ "/applications?user_id=" +:+ String_of userId) GET None
  | applications_add applicationData =>
      authenticatedFetch (API_BASE_URL +:+ "/applications") POST (Some applicationData)
  | applications_update applicationId updateData =>
      authenticatedFetch (API_BASE_URL +:+ "/applications/" +:+ String_of applicationId)
        PATCH (Some updateData)
  | applications_delete applicationId =>
      authenticatedFetch (API_BASE_URL +:+ "/applications/" +:+ String_of applicationId)
        DELETE None
  | user_getProfile userId =>
      authenticatedFetch (API_BASE_URL +:+ "/accounts/" +:+ String_of userId) GET None
  | user_updateProfile userId userData =>
      authenticatedFetch (API_BASE_URL +:+ "/accounts/" +:+ String_of userId)
        PATCH (Some userData)
  | email_getAll =>
      authenticatedFetch (API_BASE_URL +:+ "/gmail/accounts") GET None
  | email_connectGmail =>
      authenticatedFetch (API_BASE_URL +:+ "/gmail/connect?provider=gmail") GET None
  | email_connectMicrosoft =>
      authenticatedFetch (API_BASE_URL +:+ "/gmail/connect?provider=outlook") GET None
  | email_syncAccount accountId =>
      authenticatedFetch (API_BASE_URL +:+ "/gmail/sync/" +:+ String_of accountId) POST None
  | email_getStatus accountId =>
      authenticatedFetch (API_BASE_URL +:+ "/gmail/status/" +:+ String_of accountId) GET None
  | email_disconnectAccount accountId =>
      authenticatedFetch (API_BASE_URL +:+ "/gmail/accounts/" +:+ String_of accountId)
        DELETE None
  | health_check =>
      fetch (mkRequest GET (API_BASE_URL +:+ "/health") ∅ None)
  end.

(** The two connect calls follow the authorization URL of a good answer. *)
Definition follow_authorization_url (data : jsval) : JS jsval :=
  url ← member data "authorization_url" ;
  (if truthy url then location_assign (String_of url) else mret tt) ;;
  mret data.

(** From the outcome of the request to the value the call resolves to. *)
Definition receive (c : call) (f : fetched) : JS jsval :=
  match f with
  | Rejected => throw TypeError
  | Responded response =>
      match c with
      | email_connectGmail | email_connectMicrosoft =>
          data ← handleResponse response ;
          follow_authorization_url data
      | _ => handleResponse response
      end
  end.

Definition applicationsAPI : ApplicationsAPI :=
  {| getAll_send := λ userId, send (applications_getAll userId);
     getAll_receive := receive (applications_getAll JUndefined);
     add_send := λ d, send (applications_add d);
     add_receive := receive (applications_add JUndefined);
     update_send := λ i d, send (applications_update i d);
     update_receive := receive (applications_update JUndefined JUndefined);
     delete_send := λ i, send (applications_delete i);
     delete_receive := receive (applications_delete JUndefined) |}.

End Api.

(** ** The remote client, older revision ([Frontend/src/services/api.js]) *)

Module LegacyApi.

(** [handleResponse] of this revision: no case for 401. *)
Definition handleResponse (response : Response) : JS jsval :=
  if negb (ok response) then
    error ← response_json response ;
    msg ← member error "error" ;
    throw (Error (String_of (js_or msg (JStr "Something went wrong"))))
  else response_json response.

Inductive call : Type :=
| auth_register (userData : jsval)
| auth_login (credentials : jsval)
| applications_getAll (userId : jsval)
| applications_add (applicationData : jsval)
| applications_update (applicationId updateData : jsval)
| applications_delete (applicationId : jsval)
| user_getProfile (userId : jsval)
| user_updateProfile (userId userData : jsval)
| email_getAll (userId : jsval)
| email_add (emailAccountData : jsval)
| email_delete (emailAccountId : jsval)
| health_check.

Definition send (c : call) : JS unit :=
  match c with
  | auth_register userData =>
      fetch (mkRequest POST (API_BASE_URL +:+ "/auth/register") json_headers (Some userData))
  | auth_login credentials =>
      fetch (mkRequest POST (API_BASE_URL +:+ "/auth/login") json_headers (Some credentials))
  | applications_getAll userId =>
      fetch (mkRequest GET (API_BASE_URL +:+ "/applications?user_id=" +:+ String_of userId) ∅ None)
  | applications_add applicationData =>
      fetch (mkRequest POST (API_BASE_URL +:+ "/applications") json_headers (Some applicationData))
  | applications_update applicationId updateData =>
      fetch (mkRequest PATCH (API_BASE_URL +:+ "/applications/" +:+ String_of applicationId)
               json_headers (Some updateData))
  | applications_delete applicationId =>
      fetch (mkRequest DELETE (API_BASE_URL +:+ "/applications/" +:+ String_of applicationId)
               ∅ None)
  | user_getProfile userId =>
      fetch (mkRequest GET (API_BASE_URL +:+ "/accounts/" +:+ String_of userId) ∅ None)
  | user_updateProfile userId userData =>
      fetch (mkRequest PATCH (API_BASE_URL +:+ "/accounts/" +:+ String_of userId)
               json_headers (Some userData))
  | email_getAll userId =>
      fetch (mkRequest GET (API_BASE_URL +:+ "/email-accounts/" +:+ String_of userId) ∅ None)
  | email_add emailAccountData =>
      fetch (mkRequest POST (API_BASE_URL +:+ "/email-accounts") json_headers
               (Some emailAccountData))
  | email_delete emailAccountId =>
      fetch (mkRequest DELETE (API_BASE_URL +:+ "/email-accounts/" +:+ String_of emailAccountId)
               ∅ None)
  | health_check =>
      fetch (mkRequest GET (API_BASE_URL +:+ "/health") ∅ None)
  end.

Definition receive (c : call) (f : fetched) : JS jsval :=
  match f with
  | Rejected => throw TypeError
  | Responded response => handleResponse response
  end.

Definition applicationsAPI : ApplicationsAPI :=
  {| getAll_send := λ userId, send (applications_getAll userId);
     getAll_receive := receive (applications_getAll JUndefined);
     add_send := λ d, send (applications_add d);
     add_receive := receive (applications_add JUndefined);
     update_send := λ i d, send (applications_update i d);
     update_receive := receive (applications_update JUndefined JUndefined);
     delete_send := λ i, send (applications_delete i);
     delete_receive := receive (applications_delete JUndefined) |}.

End LegacyApi.

(** ** The root component ([App.js], the revision with a persisted session) *)

Module App.

Section WithEngine.
Context `{Engine}.

(** [loadApplications(userId)], up to the request... *)
Definition loadApplications_start (userId : jsval) : JS unit :=
  setIsLoading true ;;
  Api.send (Api.applications_getAll userId).

(** ... and from its outcome on. *)
Definition loadApplications_resume (f : fetched) : JS unit :=
  try_finally
    (try_catch
       (userApplications ← Api.receive (Api.applications_getAll JUndefined) f ;
        setApplications userApplications)
       (λ err, console_error "Failed to load applications:"))
    (setIsLoading false).

(** Is the address the one the email-connection callback comes back to? *)
Definition emailLinkResult (loc : Location) : bool :=
  String.eqb (pathname loc) "/profile"
  || bool_decide (searchParams_get (search loc) "success" = Some "email_connected")
  || present (searchParams_get (search loc) "error").

(** The first effect (dependencies [[]]): restore a persisted session. *)
Definition restoreEffect : JS unit :=
  token ← localStorage_getItem "auth_token" ;
  savedUser ← localStorage_getItem "user" ;
  if present token && present savedUser then
    try_catch
      (userData ← (match JSON_parse (default "" savedUser) with
                   | Some v => mret v
                   | None => throw SyntaxError
                   end) ;
       setUser userData ;;
       setIsAuthenticated true ;;
       loc ← gets location ;
       (if emailLinkResult loc then setCurrentPage "profile" else mret tt) ;;
       userId ← member userData "id" ;
       if truthy userId then loadApplications_start userId else mret tt)
      (λ err,
       console_error "Failed to load saved user:" ;;
       localStorage_removeItem "auth_token" ;;
       localStorage_removeItem "user")
  else mret tt.

(** The second effect (dependencies [[isAuthenticated]]).  It reads
    [isAuthenticated] from the render that scheduled it. *)
Definition urlEffect (isAuthenticated_seen : bool) : JS unit :=
  loc ← gets location ;
  if present (searchParams_get (search loc) "token")
     && present (searchParams_get (search loc) "user_id")
  then setCurrentPage "oauth-callback"
  else if emailLinkResult loc then
    (if isAuthenticated_seen then
       setCurrentPage "profile" ;;
       history_replaceState "/profile"
     else mret tt)
  else mret tt.

(** The effects React runs after a render: both on mount, the second again
    whenever [isAuthenticated] differs from the value it last ran with. *)
Definition commit : JS unit :=
  seen ← gets isAuthenticated ;
  deps ← gets effectDeps ;
  match deps with
  | None =>
      restoreEffect ;; urlEffect seen ;; setEffectDeps (Some seen)
  | Some d =>
      if Bool.eqb d seen then mret tt
      else urlEffect seen ;; setEffectDeps (Some seen)
  end.

Definition handleLogin (userData : jsval) : JS unit :=
  try_catch
    (setUser userData ;;
     setIsAuthenticated true ;;
     setCurrentPage "dashboard" ;;
     localStorage_setItem "user" (JSON_stringify userData) ;;
     userId ← member userData "id" ;
     if truthy userId then loadApplications_start userId else mret tt)
    (λ err, console_error "Login error:").

Definition handleLogout : JS unit :=
  setUser JNull ;;
  setIsAuthenticated false ;;
  setCurrentPage "login" ;;
  setApplications (JArr []) ;;
  setError "" ;;
  localStorage_removeItem "auth_token" ;;
  localStorage_removeItem "user".

Definition handlePageChange (page : string) : JS unit := setCurrentPage page.

(** The record [handleAddApplication] builds: [now] is [Date.now()],
    [created] and [updated] the two [new Date().toISOString()]. *)
Definition newApp (now : Z) (created updated : string) (appData : jsval) : jsval :=
  JObj (<["updated_at" := JStr updated]>
         (<["created_at" := JStr created]>
           (own_props appData ∪ {["id" := JNum now]}))).

(** [prev => [newApp, ...prev]]. *)
Definition addUpdater (now : Z) (created updated : string) (appData : jsval)
    (prev : jsval) : completion jsval :=
  items ← iterate prev ;
  mret (JArr (newApp now created updated appData :: items)).

Definition handleAddApplication (now : Z) (created updated : string) (appData : jsval) : JS unit :=
  setApplications_with (addUpdater now created updated appData).

(** [app => app.id === id ? { ...app, ...appData, updated_at } : app]. *)
Definition updateOne (id appData : jsval) (updated : string) (app : jsval) : completion jsval :=
  app_id ← get_member app "id" ;
  mret (if strict_eq app_id id
        then JObj (<["updated_at" := JStr updated]> (spread app appData))
        else app).

(** [prev => prev.map(...)]; only arrays have [map]. *)
Definition updateUpdater (id appData : jsval) (updated : string) (prev : jsval) : completion jsval :=
  match prev with
  | JArr l => l' ← array_map (updateOne id appData updated) l ; mret (JArr l')
  | _ => Abrupt TypeError
  end.

Definition handleUpdateApplication (id appData : jsval) (updated : string) : JS unit :=
  setApplications_with (updateUpdater id appData updated).

(** [prev => prev.filter(app => app.id !== id)]. *)
Definition deleteUpdater (id : jsval) (prev : jsval) : completion jsval :=
  match prev with
  | JArr l =>
      l' ← array_filter (λ app, app_id ← get_member app "id" ; mret (negb (strict_eq app_id id))) l ;
      mret (JArr l')
  | _ => Abrupt TypeError
  end.

Definition handleDeleteApplication (id : jsval) : JS unit :=
  setApplications_with (deleteUpdater id).

(** What is on screen. *)
Inductive view : Type :=
| LoginView | RegisterView | DashboardView | ApplicationsView | ProfileView | OAuthCallbackView.

Inductive screen : Type :=
| Bare (v : view)        (* the login or the registration form, alone *)
| InLayout (v : view).   (* a page inside the layout *)

Definition renderPage (currentPage : string) : view :=
  if String.eqb currentPage "dashboard" then DashboardView
  else if String.eqb currentPage "applications" then ApplicationsView
  else if String.eqb currentPage "profile" then ProfileView
  else if String.eqb currentPage "oauth-callback" then OAuthCallbackView
  else DashboardView.

Definition render (w : World) : screen :=
  if negb (isAuthenticated w) && negb (String.eqb (currentPage w) "oauth-callback") then
    Bare (if String.eqb (currentPage w) "login" then LoginView else RegisterView)
  else InLayout (renderPage (currentPage w)).

End WithEngine.

End App.

(** ** The token exchange ([components/auth/OAuthCallback.js]) *)

Module OAuthCallback.

Section WithEngine.
Context `{Engine}.

(** The effect, up to the profile request. *)
Definition effect_start : JS unit :=
  loc ← gets location ;
  let token := searchParams_get (search loc) "token" in
  let userId := searchParams_get (search loc) "user_id" in
  if present token && present userId then
    localStorage_setItem "auth_token" (default "" token) ;;
    Api.send (Api.user_getProfile (JStr (default "" userId)))
  else setCallbackError "Missing authentication token".

(** The [.then(...).catch(...)] chain on the profile request. *)
Definition effect_resume (onLogin : jsval → JS unit) (f : fetched) : JS unit :=
  try_catch
    (userData ← Api.receive (Api.user_getProfile JUndefined) f ;
     localStorage_setItem "user" (JSON_stringify userData) ;;
     user_id ← member userData "id" ;
     user_name ← member userData "name" ;
     user_email ← member userData "email" ;
     onLogin (JObj {["id" := user_id; "name" := user_name; "email" := user_email]}) ;;
     history_replaceState "/")
    (λ err,
     setCallbackError "Failed to load user profile" ;;
     console_error "").

End WithEngine.

End OAuthCallback.

(** ** The applications page ([pages/applications.js]) *)

Module ApplicationsPage.

(** [v.toLowerCase()]: only strings have the method. *)
Definition toLowerCase_of (v : jsval) : completion string :=
  match v with
  | JStr s => Normal (toLowerCase s)
  | _ => Abrupt TypeError
  end.

(** The callback of [filteredApplications]; [||] evaluates its right operand
    only when the left one is false. *)
Definition matches (filter searchTerm : string) (app : jsval) : completion bool :=
  matchesFilter ← (if String.eqb filter "all" then mret true
                   else app_status ← get_member app "status" ;
                        mret (strict_eq app_status (JStr filter))) ;
  company ← get_member app "company" ;
  company_lc ← toLowerCase_of company ;
  matchesSearch ← (if includes company_lc (toLowerCase searchTerm) then mret true
                   else role ← get_member app "role" ;
                        role_lc ← toLowerCase_of role ;
                        mret (includes role_lc (toLowerCase searchTerm))) ;
  mret (matchesFilter && matchesSearch).

(** [applications.filter(...)], with the default [applications = []] of the
    component. *)
Definition filteredApplications (applications : jsval) (filter searchTerm : string)
    : completion (list jsval) :=
  match applications with
  | JUndefined => Normal []
  | JArr l => array_filter (matches filter searchTerm) l
  | _ => Abrupt TypeError
  end.

Section WithApi.
Variable api : ApplicationsAPI.

(** The clock readings of the [i]-th record added: [Date.now()] and the two
    [toISOString()]. *)
Definition Clock : Type := nat → Z * string * string.

(** [applications.forEach(app => onAddApplication(app))]. *)
Fixpoint forEach_onAddApplication (clock : Clock) (i : nat) (l : list jsval) : JS unit :=
  match l with
  | [] => mret tt
  | app :: l' =>
      let '(now, created, updated) := clock i in
      App.handleAddApplication now created updated app ;;
      forEach_onAddApplication clock (S i) l'
  end.

Definition loadApplications_start (user : jsval) : JS unit :=
  if negb (truthy (member_opt user "id")) then mret tt
  else
    setPageLoading true ;;
    setPageError (Lit "") ;;
    getAll_send api (member_opt user "id").

Definition loadApplications_resume (clock : Clock) (f : fetched) : JS unit :=
  try_finally
    (try_catch
       (applications ← getAll_receive api f ;
        match applications with
        | JArr l => forEach_onAddApplication clock 0 l
        | _ => throw TypeError
        end)
       (λ err, setPageError (Failed "Failed to load applications: " err)))
    (setPageLoading false).

Definition handleAddApplication_start (user appData : jsval) : JS unit :=
  if negb (truthy (member_opt user "id")) then mret tt
  else
    setPageLoading true ;;
    add_send api (JObj (own_props appData ∪ {["user_id" := member_opt user "id"]})).

Definition handleAddApplication_resume (now : Z) (created updated : string) (f : fetched)
    : JS unit :=
  try_finally
    (try_catch
       (newApp ← add_receive api f ;
        application ← member newApp "application" ;
        App.handleAddApplication now created updated application)
       (λ err, setPageError (Failed "Failed to add application: " err)))
    (setPageLoading false).

(** [handleUpdateApplication(id, appData)]: the remote update is awaited
    first, [onUpdateApplication] comes after it. *)
Definition handleUpdateApplication_start (id appData : jsval) : JS unit :=
  setPageLoading true ;;
  update_send api id appData.

Definition handleUpdateApplication_resume (id appData : jsval) (updated : string) (f : fetched)
    : JS unit :=
  try_finally
    (try_catch
       (_ ← update_receive api f ;
        App.handleUpdateApplication id appData updated)
       (λ err, setPageError (Failed "Failed to update application: " err)))
    (setPageLoading false).

Definition handleDeleteApplication_start (id : jsval) : JS unit :=
  setPageLoading true ;;
  delete_send api id.

Definition handleDeleteApplication_resume (id : jsval) (f : fetched) : JS unit :=
  try_finally
    (try_catch
       (_ ← delete_receive api f ;
        App.handleDeleteApplication id)
       (λ err, setPageError (Failed "Failed to delete application: " err)))
    (setPageLoading false).

End WithApi.

(** [applications.filter(app => app.status === value).length]: the count
    shown on a status option of the page, and the statistics of the
    dashboard, which are computed by the same expression. *)
Definition status_count (applications : jsval) (value : string) : completion nat :=
  match applications with
  | JUndefined => Normal 0%nat
  | JArr l =>
      l' ← array_filter (λ app, app_status ← get_member app "status" ;
                                mret (strict_eq app_status (JStr value))) l ;
      mret (length l')
  | _ => Abrupt TypeError
  end.

(** [getStatusColor(status)], of the page and of the dashboard. *)
Definition getStatusColor (status : jsval) : completion string :=
  lc ← toLowerCase_of status ;
  mret (if String.eqb lc "applied" then "status-applied"
        else if String.eqb lc "interview" then "status-interview"
        else if String.eqb lc "offer" then "status-offer"
        else if String.eqb lc "rejected" then "status-rejected"
        else "status-applied").

End ApplicationsPage.

(** ** A reference engine

    An executable [JSON.parse] and [JSON.stringify] for the JSON this client
    exchanges: the literals, integers, strings without escapes, arrays and
    objects.  The theorems below hold for every engine; this one runs the
    model on concrete storage contents. *)

Module ReferenceEngine.

Definition quote : ascii := "034"%char.

Definition is_ws (c : ascii) : bool :=
  let n := nat_of_ascii c in
  (Nat.eqb n 32 || Nat.eqb n 9 || Nat.eqb n 10 || Nat.eqb n 13)%bool.

Fixpoint skip_ws (s : string) : string :=
  match s with
  | String c s' => if is_ws c then skip_ws s' else s
  | EmptyString => s
  end.

Definition digit_of (c : ascii) : option Z :=
  let n := nat_of_ascii c in
  if (Nat.leb 48 n && Nat.leb n 57)%bool then Some (Z.of_nat (n - 48)) else None.

Fixpoint read_digits (acc : Z) (s : string) : Z * string :=
  match s with
  | String c s' =>
      match digit_of c with
      | Some d => read_digits (10 * acc + d) s'
      | None => (acc, s)
      end
  | EmptyString => (acc, s)
  end.

(** An integer without leading zeros. *)
Definition read_int (s : string) : option (Z * string) :=
  match s with
  | String c s' =>
      match digit_of c with
      | Some 0 => match s' with
                  | String c' _ => match digit_of c' with Some _ => None | None => Some (0, s') end
                  | EmptyString => Some (0, s')
                  end
      | Some d => Some (read_digits d s')
      | None => None
      end
  | EmptyString => None
  end.

(** The characters up to the closing quote; escapes and control characters
    are refused. *)
Fixpoint read_string (s : string) : option (string * string) :=
  match s with
  | EmptyString => None
  | String c s' =>
      if Ascii.eqb c quote then Some (EmptyString, s')
      else if (Ascii.eqb c "\" || Nat.ltb (nat_of_ascii c) 32)%bool then None
      else match read_string s' with
           | Some (str, rest) => Some (String c str, rest)
           | None => None
           end
  end.

Inductive mode : Type :=
| MValue
| MElements (acc : list jsval)
| MMembers (acc : gmap string jsval).

Fixpoint parse (fuel : nat) (m : mode) (s : string) : option (jsval * string) :=
  match fuel with
  | O => None
  | S fuel' =>
      match m with
      | MValue =>
          match skip_ws s with
          | String "n" (String "u" (String "l" (String "l" r))) => Some (JNull, r)
          | String "t" (String "r" (String "u" (String "e" r))) => Some (JBool true, r)
          | String "f" (String "a" (String "l" (String "s" (String "e" r)))) => Some (JBool false, r)
          | String "[" r =>
              match skip_ws r with
              | String "]" r' => Some (JArr [], r')
              | _ => parse fuel' (MElements []) r
              end
          | String "{" r =>
              match skip_ws r with
              | String "}" r' => Some (JObj ∅, r')
              | _ => parse fuel' (MMembers ∅) r
              end
          | String "-" r =>
              match read_int r with
              | Some (n, r') => Some (JNum (- n), r')
              | None => None
              end
          | String c r =>
              if Ascii.eqb c quote then
                match read_string r with
                | Some (str, r') => Some (JStr str, r')
                | None => None
                end
              else
                match read_int (String c r) with
                | Some (n, r') => Some (JNum n, r')
                | None => None
                end
          | EmptyString => None
          end
      | MElements acc =>
          match parse fuel' MValue s with
          | Some (v, r) =>
              match skip_ws r with
              | String "," r' => parse fuel' (MElements (acc ++ [v])) r'
              | String "]" r' => Some (JArr (acc ++ [v]), r')
              | _ => None
              end
          | None => None
          end
      | MMembers acc =>
          match skip_ws s with
          | String c r =>
              if Ascii.eqb c quote then
                match read_string r with
                | Some (key, r1) =>
                    match skip_ws r1 with
                    | String ":" r2 =>
                        match parse fuel' MValue r2 with
                        | Some (v, r3) =>
                            match skip_ws r3 with
                            | String "," r4 => parse fuel' (MMembers (<[key := v]> acc)) r4
                            | String "}" r4 => Some (JObj (<[key := v]> acc), r4)
                            | _ => None
                            end
                        | None => None
                        end
                    | _ => None
                    end
                | None => None
                end
              else None
          | EmptyString => None
          end
      end
  end.

(** The whole text must be one value. *)
Definition parse_json (s : string) : option jsval :=
  match parse (2 * String.length s + 2) MValue s with
  | Some (v, r) => match skip_ws r with EmptyString => Some v | _ => None end
  | None => None
  end.

Definition quoted (s : string) : string := String quote (s +:+ String quote EmptyString).

(** Properties are printed in the order of the map, not in insertion order;
    properties whose value is [undefined] are left out. *)
Fixpoint stringify (v : jsval) : string :=
  match v with
  | JUndefined => "undefined"
  | JNull => "null"
  | JBool true => "true"
  | JBool false => "false"
  | JNum n => pretty n
  | JStr s => quoted s
  | JArr l =>
      "[" +:+
      (fix join (l : list jsval) : string :=
         match l with
         | [] => ""
         | x :: l' =>
             let sx := match x with JUndefined => "null" | _ => stringify x end in
             match l' with [] => sx | _ => sx +:+ "," +:+ join l' end
         end) l +:+ "]"
  | JObj o =>
      "{" +:+
      map_fold (λ k x acc,
        match x with
        | JUndefined => acc
        | _ => (if String.eqb acc "" then "" else acc +:+ ",") +:+ quoted k +:+ ":" +:+ stringify x
        end) "" o +:+ "}"
  end.

#[local] Instance engine : Engine :=
  {| JSON_parse := parse_json; JSON_stringify := stringify |}.

End ReferenceEngine.

(** ** Sequences of cache operations *)

Module Cache.

(** What the views can do to the cache: [add], [update] and [remove] through
    the handlers of [App], and a load of the applications page, which feeds
    every fetched record through [add]. *)
Inductive op : Type :=
| Add (now : Z) (created updated : string) (appData : jsval)
| Update (id patch : jsval) (updated : string)
| Remove (id : jsval)
| Load (clock : ApplicationsPage.Clock) (records : list jsval).

Definition step (o : op) : JS unit :=
  match o with
  | Add now created updated appData => App.handleAddApplication now created updated appData
  | Update id patch updated => App.handleUpdateApplication id patch updated
  | Remove id => App.handleDeleteApplication id
  | Load clock records => ApplicationsPage.forEach_onAddApplication clock 0 records
  end.

Fixpoint run (ops : list op) : JS unit :=
  match ops with
  | [] => mret tt
  | o :: ops' => step o ;; run ops'
  end.

(** The ids of the records of a cache. *)
Definition ids (l : list jsval) : list jsval := map (λ app, prop app "id") l.

(** The id the record built by [add] ends up with. *)
Definition added_id (now : Z) (appData : jsval) : jsval :=
  default (JNum now) (own_props appData !! "id").

(** The ids a load adds, in the order of the fetched records. *)
Fixpoint loaded_ids (clock : ApplicationsPage.Clock) (i : nat) (records : list jsval) : list jsval :=
  match records with
  | [] => []
  | r :: records' => added_id (clock i).1.1 r :: loaded_ids clock (S i) records'
  end.

(** The adds a load amounts to. *)
Fixpoint adds_of (clock : ApplicationsPage.Clock) (i : nat) (records : list jsval) : list op :=
  match records with
  | [] => []
  | r :: records' => Add (clock i).1.1 (clock i).1.2 (clock i).2 r :: adds_of clock (S i) records'
  end.

(** The ids in the cache of a world. *)
Definition ids_of (w : World) : list jsval :=
  match applications w with
  | JArr l => ids l
  | _ => []
  end.

(** An operation brings no id that is already there: an added record has a
    new id, a patch does not carry an id. *)
Definition admissible (o : op) (l : list jsval) : Prop :=
  match o with
  | Add now _ _ appData => added_id now appData ∉ ids l
  | Update _ patch _ => own_props patch !! "id" = None
  | Remove _ => True
  | Load clock records =>
      NoDup (loaded_ids clock 0 records) ∧ ∀ x, x ∈ loaded_ids clock 0 records → x ∉ ids l
  end.

(** Every operation of the sequence is admissible in the cache it meets. *)
Fixpoint all_admissible (ops : list op) (w : World) : Prop :=
  match ops with
  | [] => True
  | o :: ops' =>
      (∀ l, applications w = JArr l → admissible o l) ∧ all_admissible ops' (step o w).1
  end.

(** Operations that leave a record with the id [x] where it is: updates
    whose patch carries no id, and removals of other ids. *)
Definition keeps (x : jsval) (o : op) : Prop :=
  match o with
  | Update _ patch _ => own_props patch !! "id" = None
  | Remove id => strict_eq x id = false
  | Add _ _ _ _ | Load _ _ => False
  end.

End Cache.

(** ** Words of the specification *)

(** "[hay] contains [needle] case-insensitively", said without the
    functions of the program: some stretch of [hay] is [needle] letter by
    letter, where a capital letter and its small letter count as the same. *)
Definition capital_letters : string := "ABCDEFGHIJKLMNOPQRSTUVWXYZ".
Definition small_letters : string := "abcdefghijklmnopqrstuvwxyz".

Definition letter_pairs : list (ascii * ascii) :=
  combine (list_ascii_of_string capital_letters) (list_ascii_of_string small_letters).

Definition same_letter (c d : ascii) : bool :=
  Ascii.eqb c d
  || existsb (λ p, Ascii.eqb c p.1 && Ascii.eqb d p.2 || Ascii.eqb c p.2 && Ascii.eqb d p.1)
       letter_pairs.

Fixpoint same_text (s t : string) : bool :=
  match s, t with
  | EmptyString, EmptyString => true
  | String c s', String d t' => same_letter c d && same_text s' t'
  | _, _ => false
  end.

Definition contains_ci (hay needle : string) : Prop :=
  ∃ before stretch after,
    hay = before +:+ stretch +:+ after ∧ same_text stretch needle = true.

(** An application record as the data model has it: an object whose
    [company] and [role] are strings. *)
Definition application_record (app : jsval) : Prop :=
  ∃ o company role,
    app = JObj o ∧ o !! "company" = Some (JStr company) ∧ o !! "role" = Some (JStr role).

(** A record whose [company] and [role], where they are strings, are text
    below 128. *)
Definition ascii_record (app : jsval) : Prop :=
  ∀ s, prop app "company" = JStr s ∨ prop app "role" = JStr s → is_ascii s = true.

(** The two subsets the filter of the applications page combines. *)
Definition has_status (s : string) (app : jsval) : bool :=
  strict_eq (prop app "status") (JStr s).

Definition found (term : string) (app : jsval) : bool :=
  match prop app "company", prop app "role" with
  | JStr company, JStr role =>
      includes (toLowerCase company) (toLowerCase term)
      || includes (toLowerCase role) (toLowerCase term)
  | _, _ => false
  end.

(** Does the address carry the parameters of an identity-provider callback,
    or of an email-connection result? *)
Definition carries_token_exchange (loc : Location) : bool :=
  present (searchParams_get (search loc) "token")
  && present (searchParams_get (search loc) "user_id").

Definition carries_email_result (loc : Location) : bool :=
  bool_decide (searchParams_get (search loc) "success" = Some "email_connected")
  || present (searchParams_get (search loc) "error").

(** Does the record have the id [id], as [app.id === id] decides it? *)
Definition record_id_is (id app : jsval) : bool :=
  match get_member app "id" with
  | Normal v => strict_eq v id
  | Abrupt _ => false
  end.

(** [{ ...app, ...patch, updated_at: updated }]. *)
Definition merged (patch : jsval) (updated : string) (app : jsval) : jsval :=
  JObj (<["updated_at" := JStr updated]> (spread app patch)).

(** A remote call that does not resolve: the request is rejected, the answer
    is not ok, or its body is not JSON. *)
Definition remote_failed (f : fetched) : Prop :=
  match f with
  | Rejected => True
  | Responded r => ok r = false ∨ body r = None
  end.

(** The components a remote call leaves alone. *)
Definition same_components (w w' : World) : Prop :=
  applications w' = applications w ∧ pageLoading w' = pageLoading w
  ∧ pageError w' = pageError w ∧ outbox w' = outbox w.

(** The world after the session clearing of the token-aware wrapper. *)
Definition unauthorized (w : World) : World :=
  {| currentPage := currentPage w; isAuthenticated := isAuthenticated w; user := user w;
     applications := applications w; isLoading := isLoading w; error := error w;
     effectDeps := effectDeps w; callbackError := callbackError w;
     pageLoading := pageLoading w; pageError := pageError w;
     localStorage := delete "user" (delete "auth_token" (localStorage w));
     location := mkLocation "/login" []; reloads := S (reloads w);
     console := console w; outbox := outbox w; renderError := renderError w |}.

(** The identity [OAuthCallback] hands to [onLogin] for a fetched profile. *)
Definition identity_of (profile : gmap string jsval) : jsval :=
  JObj {["id" := default JUndefined (profile !! "id");
         "name" := default JUndefined (profile !! "name");
         "email" := default JUndefined (profile !! "email")]}.

(** ** Sample data *)

Module Sample.

Definition home : Location := mkLocation "/" [].

Definition stored_session : gmap string string :=
  {["auth_token" := "t0k3n"; "user" := "null"]}.

Definition answer_401 : Response :=
  mkResponse 401 (Some (JObj {["error" := JStr "Unauthorized"]})).

Definition identity_text : string :=
  "{" +:+ ReferenceEngine.quoted "id" +:+ ":7," +:+ ReferenceEngine.quoted "name" +:+ ":"
  +:+ ReferenceEngine.quoted "Ann" +:+ "}".

Definition restorable : World :=
  useState_initial {["auth_token" := "t0k3n"; "user" := identity_text]} home.

Definition unparsable : World :=
  useState_initial {["auth_token" := "t0k3n"; "user" := "{oops"]} home.

Definition stale_identity : World :=
  useState_initial {["user" := "{oops"]} home.

Definition acme : jsval :=
  JObj {["id" := JNum 1; "company" := JStr "Acme"; "role" := JStr "Engineer";
         "status" := JStr "Applied"]}.

Definition globex : jsval :=
  JObj {["id" := JNum 2; "company" := JStr "Globex"; "role" := JStr "Data Analyst";
         "status" := JStr "Interview"]}.

Definition to_interview : jsval := JObj {["status" := JStr "Interview"]}.

Definition form_data : jsval :=
  JObj {["company" := JStr "Initech"; "role" := JStr "Tester"; "status" := JStr "Applied";
         "source" := JStr "manual"]}.

Definition clock : ApplicationsPage.Clock :=
  λ _, (1700000000000, "2023-11-14T22:13:20.000Z", "2023-11-14T22:13:20.000Z").

Definition later : string := "2023-11-15T08:00:00.000Z".

(** A signed-in session that shows two records. *)
Definition signed_in : World :=
  {| currentPage := "applications"; isAuthenticated := true;
     user := JObj {["id" := JNum 7; "name" := JStr "Ann"; "email" := JStr "ann@example.org"]};
     applications := JArr [acme; globex]; isLoading := false; error := "";
     effectDeps := Some true; callbackError := "";
     pageLoading := false; pageError := Lit "";
     localStorage := {["auth_token" := "t0k3n"; "user" := identity_text]};
     location := home; reloads := 0%nat; console := []; outbox := []; renderError := None |}.

(** The address an identity provider comes back to, and the profile the
    service answers with. *)
Definition callback_address : Location :=
  mkLocation "/" [("token", "t0k3n"); ("user_id", "7")].

Definition profile : gmap string jsval :=
  {["id" := JNum 7; "name" := JStr "Ann"; "email" := JStr "ann@example.org";
    "created_at" := JStr "2023-01-01"]}.

Definition answer_profile : Response := mkResponse 200 (Some (JObj profile)).

(** The address the email connection comes back to. *)
Definition email_connected : Location :=
  mkLocation "/" [("success", "email_connected")].

Definition signed_in_at (loc : Location) : World :=
  {| currentPage := "dashboard"; isAuthenticated := true;
     user := JObj {["id" := JNum 7; "name" := JStr "Ann"; "email" := JStr "ann@example.org"]};
     applications := JArr []; isLoading := false; error := "";
     effectDeps := Some false; callbackError := "";
     pageLoading := false; pageError := Lit "";
     localStorage := {["auth_token" := "t0k3n"; "user" := identity_text]};
     location := loc; reloads := 0%nat; console := []; outbox := []; renderError := None |}.

End Sample.

(** ** Messages built from a caught error *)

(** [err.message || fallback].  The message of an [Error] raised by the
    wrapper is known; the message of an engine-raised error is engine-defined
    (and not empty), and is kept symbolic. *)
Definition message_or (err : exn) (fallback : string) : text :=
  match err with
  | Error m => Lit (if String.eqb m "" then fallback else m)
  | _ => Failed "" err
  end.

(** ** The registration form ([components/auth/register.js]) *)

Module Register.

Record State : Type := mkState {
  formData : jsval;
  error : text;
  isLoading : bool;
  isOAuthLoading : bool
}.

Definition initial : State :=
  {| formData := JObj {["name" := JStr ""; "email" := JStr ""; "password" := JStr ""]};
     error := Lit ""; isLoading := false; isOAuthLoading := false |}.

(** [setFormData({ ...formData, [e.target.name]: e.target.value })]. *)
Definition handleChange (name value : string) (st : State) : State :=
  {| formData := JObj (<[name := JStr value]> (own_props (formData st)));
     error := error st; isLoading := isLoading st; isOAuthLoading := isOAuthLoading st |}.

(** [handleSubmit], up to the request... *)
Definition handleSubmit_start (st : State) : JS State :=
  Api.send (Api.auth_register
              (JObj {["username" := prop (formData st) "name";
                      "email" := prop (formData st) "email";
                      "password" := prop (formData st) "password"]})) ;;
  mret {| formData := formData st; error := Lit ""; isLoading := true;
          isOAuthLoading := isOAuthLoading st |}.

(** ... and from its outcome on: the identity handed to [onRegister] is made
    of the form data and the id 1, the answer is not read. *)
Definition handleSubmit_resume (onRegister : jsval → JS unit) (st : State) (f : fetched)
    : JS State :=
  st' ← try_catch
          (_ ← Api.receive (Api.auth_register JUndefined) f ;
           onRegister (JObj {["id" := JNum 1;
                              "name" := prop (formData st) "name";
                              "email" := prop (formData st) "email"]}) ;;
           mret st)
          (λ err,
           mret {| formData := formData st;
                   error := message_or err "Registration failed. Please try again.";
                   isLoading := isLoading st; isOAuthLoading := isOAuthLoading st |}) ;
  mret {| formData := formData st'; error := error st'; isLoading := false;
          isOAuthLoading := isOAuthLoading st' |}.

(** [handleGoogleLogin] and [handleMicrosoftLogin] differ in the call and in
    the fallback text. *)
Definition handleOAuthLogin_start (c : Api.call) (st : State) : JS State :=
  Api.send c ;;
  mret {| formData := formData st; error := Lit ""; isLoading := isLoading st;
          isOAuthLoading := true |}.

Definition handleOAuthLogin_resume (c : Api.call) (fallback : string) (st : State)
    (f : fetched) : JS State :=
  try_catch
    (response ← Api.receive c f ;
     url ← member response "authorization_url" ;
     location_assign (String_of url) ;;
     mret st)
    (λ err,
     mret {| formData := formData st; error := message_or err fallback;
             isLoading := isLoading st; isOAuthLoading := false |}).

Definition handleGoogleLogin_start : State → JS State :=
  handleOAuthLogin_start Api.auth_getGoogleAuthUrl.
Definition handleGoogleLogin_resume : State → fetched → JS State :=
  handleOAuthLogin_resume Api.auth_getGoogleAuthUrl "Failed to initiate Google login".
Definition handleMicrosoftLogin_start : State → JS State :=
  handleOAuthLogin_start Api.auth_getMicrosoftAuthUrl.
Definition handleMicrosoftLogin_resume : State → fetched → JS State :=
  handleOAuthLogin_resume Api.auth_getMicrosoftAuthUrl "Failed to initiate Microsoft login".

End Register.

(** ** The list of connected email accounts
    ([components/profile/EmailAccountsList.js]) *)

Module EmailAccountsList.

(** A [Set] of account ids, in insertion order. *)
Definition Set_has (s : list jsval) (x : jsval) : bool := existsb (strict_eq x) s.
Definition Set_add (s : list jsval) (x : jsval) : list jsval :=
  if Set_has s x then s else s ++ [x].
Definition Set_delete (s : list jsval) (x : jsval) : list jsval :=
  List.filter (λ y, negb (strict_eq y x)) s.

Record State : Type := mkState {
  accounts : jsval;
  isLoading : bool;
  error : text;
  success : string;
  syncingAccounts : list jsval
}.

Definition initial : State :=
  {| accounts := JArr []; isLoading := false; error := Lit ""; success := "";
     syncingAccounts := [] |}.

Definition loadAccounts_start (st : State) : JS State :=
  Api.send Api.email_getAll ;;
  mret {| accounts := accounts st; isLoading := true; error := Lit "";
          success := success st; syncingAccounts := syncingAccounts st |}.

Definition loadAccounts_resume (st : State) (f : fetched) : JS State :=
  st' ← try_catch
          (response ← Api.receive Api.email_getAll f ;
           response_accounts ← member response "accounts" ;
           mret {| accounts := js_or response_accounts (JArr []); isLoading := isLoading st;
                   error := error st; success := success st;
                   syncingAccounts := syncingAccounts st |})
          (λ err,
           mret {| accounts := accounts st; isLoading := isLoading st;
                   error := Failed "Failed to load email accounts: " err;
                   success := success st; syncingAccounts := syncingAccounts st |}) ;
  mret {| accounts := accounts st'; isLoading := false; error := error st';
          success := success st'; syncingAccounts := syncingAccounts st' |}.

(** [handleSync(accountId)]: [seen] is the set of the render the handler
    belongs to; the writes are functional updates of the current set. *)
Definition handleSync_start (seen : list jsval) (accountId : jsval) (st : State) : JS State :=
  if Set_has seen accountId then mret st
  else
    Api.send (Api.email_syncAccount accountId) ;;
    mret {| accounts := accounts st; isLoading := isLoading st; error := Lit "";
            success := success st;
            syncingAccounts := Set_add (syncingAccounts st) accountId |}.

(** From the outcome of the request on; the boolean tells whether the timer
    of one second was set. *)
Definition handleSync_resume (accountId : jsval) (st : State) (f : fetched)
    : JS (State * bool) :=
  try_catch
    (_ ← Api.receive (Api.email_syncAccount accountId) f ;
     mret (st, true))
    (λ err,
     mret ({| accounts := accounts st; isLoading := isLoading st;
              error := Failed "Failed to sync account: " err; success := success st;
              syncingAccounts := Set_delete (syncingAccounts st) accountId |}, false)).

(** The callback of that timer. *)
Definition handleSync_timeout (accountId : jsval) (st : State) : JS State :=
  st' ← loadAccounts_start st ;
  mret {| accounts := accounts st'; isLoading := isLoading st'; error := error st';
          success := success st';
          syncingAccounts := Set_delete (syncingAccounts st') accountId |}.

(** [prev => prev.filter(account => account.id !== accountId)]; the updater
    is the one of [handleDeleteApplication]. *)
Definition handleDisconnect_start (confirmed : bool) (st : State) (accountId : jsval)
    : JS State :=
  if negb confirmed then mret st
  else
    Api.send (Api.email_disconnectAccount accountId) ;;
    mret {| accounts := accounts st; isLoading := isLoading st; error := Lit "";
            success := success st; syncingAccounts := syncingAccounts st |}.

Definition handleDisconnect_resume (accountId : jsval) (st : State) (f : fetched) : JS State :=
  try_catch
    (_ ← Api.receive (Api.email_disconnectAccount accountId) f ;
     match App.deleteUpdater accountId (accounts st) with
     | Normal next =>
         mret {| accounts := next; isLoading := isLoading st; error := error st;
                 success := success st; syncingAccounts := syncingAccounts st |}
     | Abrupt e => setRenderError e ;; mret st
     end)
    (λ err,
     mret {| accounts := accounts st; isLoading := isLoading st;
             error := Failed "Failed to disconnect account: " err; success := success st;
             syncingAccounts := syncingAccounts st |}).

(** [handleConnectGmail], [handleConnectMicrosoft]. *)
Definition handleConnect_resume (c : Api.call) (prefix : string) (st : State) (f : fetched)
    : JS State :=
  try_catch
    (_ ← Api.receive c f ; mret st)
    (λ err,
     mret {| accounts := accounts st; isLoading := isLoading st;
             error := Failed prefix err; success := success st;
             syncingAccounts := syncingAccounts st |}).

Definition handleConnectGmail_resume : State → fetched → JS State :=
  handleConnect_resume Api.email_connectGmail "Failed to initiate Gmail connection: ".
Definition handleConnectMicrosoft_resume : State → fetched → JS State :=
  handleConnect_resume Api.email_connectMicrosoft "Failed to initiate Microsoft connection: ".

(** [getStatusText(status)]. *)
Definition getStatusText (status : jsval) : jsval :=
  if strict_eq status (JStr "completed") then JStr "Synced"
  else if strict_eq status (JStr "syncing") then JStr "Syncing..."
  else if strict_eq status (JStr "error") then JStr "Error"
  else if strict_eq status (JStr "idle") then JStr "Idle"
  else status.

End EmailAccountsList.

(** ** More words for the properties *)

(** Is the call one of those made through [authenticatedFetch]? *)
Definition uses_authenticatedFetch (c : Api.call) : bool :=
  match c with
  | Api.auth_register _ | Api.auth_login _ | Api.auth_getGoogleAuthUrl
  | Api.auth_getMicrosoftAuthUrl | Api.health_check => false
  | _ => true
  end.

(** The method, the address and the body of the request of a call. *)
Definition request_line (c : Api.call) : method * string * option jsval :=
  match c with
  | Api.auth_register d => (POST, API_BASE_URL +:+ "/auth/register", Some d)
  | Api.auth_login d => (POST, API_BASE_URL +:+ "/auth/login", Some d)
  | Api.auth_getGoogleAuthUrl => (GET, API_BASE_URL +:+ "/auth/google", None)
  | Api.auth_getMicrosoftAuthUrl => (GET, API_BASE_URL +:+ "/auth/microsoft", None)
  | Api.applications_getAll u =>
      (GET, API_BASE_URL +:+ "/applications?user_id=" +:+ String_of u, None)
  | Api.applications_add d => (POST, API_BASE_URL +:+ "/applications", Some d)
  | Api.applications_update i d =>
      (PATCH, API_BASE_URL +:+ "/applications/" +:+ String_of i, Some d)
  | Api.applications_delete i =>
      (DELETE, API_BASE_URL +:+ "/applications/" +:+ String_of i, None)
  | Api.user_getProfile u => (GET, API_BASE_URL +:+ "/accounts/" +:+ String_of u, None)
  | Api.user_updateProfile u d =>
      (PATCH, API_BASE_URL +:+ "/accounts/" +:+ String_of u, Some d)
  | Api.email_getAll => (GET, API_BASE_URL +:+ "/gmail/accounts", None)
  | Api.email_connectGmail => (GET, API_BASE_URL +:+ "/gmail/connect?provider=gmail", None)
  | Api.email_connectMicrosoft =>
      (GET, API_BASE_URL +:+ "/gmail/connect?provider=outlook", None)
  | Api.email_syncAccount i => (POST, API_BASE_URL +:+ "/gmail/sync/" +:+ String_of i, None)
  | Api.email_getStatus i => (GET, API_BASE_URL +:+ "/gmail/status/" +:+ String_of i, None)
  | Api.email_disconnectAccount i =>
      (DELETE, API_BASE_URL +:+ "/gmail/accounts/" +:+ String_of i, None)
  | Api.health_check => (GET, API_BASE_URL +:+ "/health", None)
  end.

(** A world with one more request in the outbox, and nothing else changed. *)
Definition with_request (rq : Request) (w : World) : World :=
  {| currentPage := currentPage w; isAuthenticated := isAuthenticated w; user := user w;
     applications := applications w; isLoading := isLoading w; error := error w;
     effectDeps := effectDeps w; callbackError := callbackError w;
     pageLoading := pageLoading w; pageError := pageError w;
     localStorage := localStorage w; location := location w; reloads := reloads w;
     console := console w; outbox := outbox w ++ [rq]; renderError := renderError w |}.

(** The records a load of the applications page builds from the fetched
    ones, in the order of the fetched ones. *)
Fixpoint stamped (clock : ApplicationsPage.Clock) (i : nat) (records : list jsval) : list jsval :=
  match records with
  | [] => []
  | r :: records' =>
      App.newApp (clock i).1.1 (clock i).1.2 (clock i).2 r :: stamped clock (S i) records'
  end.

(** A value on which a property can be read. *)
Definition not_nullish (v : jsval) : Prop := v ≠ JNull ∧ v ≠ JUndefined.

(** The four status values of the form. *)
Definition known_status (v : jsval) : Prop :=
  v = JStr "Applied" ∨ v = JStr "Interview" ∨ v = JStr "Offer" ∨ v = JStr "Rejected".

(** * Properties *)

(** Run the state writes of a handler on a world. *)
Ltac world_simpl :=
  unfold mbind, mret, JS_bind, JS_ret;
  cbn [currentPage isAuthenticated user applications isLoading error effectDeps
       callbackError pageLoading pageError localStorage location reloads console outbox
       renderError fst snd
       setCurrentPage setIsAuthenticated setUser setApplications setIsLoading setError
       setEffectDeps setCallbackError setPageLoading setPageError setLocalStorage
       localStorage_getItem localStorage_setItem localStorage_removeItem
       location_assign history_replaceState console_error fetch setRenderError
       modify gets throw].

(** ** Storage *)

Lemma session_cleared_idemp (ls : gmap string string) :
  delete "user" (delete "auth_token" (delete "user" (delete "auth_token" ls)))
  = delete "user" (delete "auth_token" ls).
Proof.
  apply map_eq; intros k.
  rewrite !lookup_delete. repeat case_decide; reflexivity.
Qed.

Lemma session_cleared_lookup (ls : gmap string string) :
  delete "user" (delete "auth_token" ls) !! "auth_token" = None
  ∧ delete "user" (delete "auth_token" ls) !! "user" = None.
Proof.
  split.
  - rewrite lookup_delete_ne by discriminate. apply lookup_delete_eq.
  - apply lookup_delete_eq.
Qed.

(** ** Logout *)

Lemma handleLogout_unfold (w : World) :
  App.handleLogout w =
  ({| currentPage := "login"; isAuthenticated := false; user := JNull;
      applications := JArr []; isLoading := isLoading w; error := "";
      effectDeps := effectDeps w; callbackError := callbackError w;
      pageLoading := pageLoading w; pageError := pageError w;
      localStorage := delete "user" (delete "auth_token" (localStorage w));
      location := location w; reloads := reloads w;
      console := console w; outbox := outbox w; renderError := renderError w |},
   Normal tt).
Proof. reflexivity. Qed.

(** C9.  [logout()] clears the identity, the persisted identity and token
    and the cached application records, leaves the session unauthenticated
    on the login page, never throws, and a second call changes nothing. *)
Theorem logout_clears_and_is_idempotent (w : World) :
  let w' := (App.handleLogout w).1 in
  (App.handleLogout w).2 = Normal tt
  ∧ user w' = JNull
  ∧ isAuthenticated w' = false
  ∧ localStorage w' !! "auth_token" = None
  ∧ localStorage w' !! "user" = None
  ∧ applications w' = JArr []
  ∧ currentPage w' = "login"
  ∧ App.render w' = App.Bare App.LoginView
  ∧ App.handleLogout w' = (w', Normal tt).
Proof.
  rewrite handleLogout_unfold. cbn [fst snd].
  destruct (session_cleared_lookup (localStorage w)) as [Htok Husr].
  repeat split; try assumption.
  rewrite handleLogout_unfold. cbn.
  rewrite session_cleared_idemp. reflexivity.
Qed.

(** ** The page switch *)

(** C8.  While the session is unauthenticated the screen is the login form
    or the registration form whatever page is selected, except that the
    selection [oauth-callback] shows the callback view. *)
Theorem unauthenticated_view_forced (w : World) :
  isAuthenticated w = false →
  (currentPage w ≠ "oauth-callback" →
     App.render w = App.Bare App.LoginView ∨ App.render w = App.Bare App.RegisterView)
  ∧ (currentPage w = "oauth-callback" →
     App.render w = App.InLayout App.OAuthCallbackView).
Proof.
  intros Hauth. unfold App.render. rewrite Hauth. split.
  - intros Hpage.
    destruct (String.eqb_spec (currentPage w) "oauth-callback") as [Heq|_]; [contradiction|].
    cbn. destruct (String.eqb (currentPage w) "login"); auto.
  - intros ->. reflexivity.
Qed.

Lemma unauthenticated_view_forced_witness :
  (App.render (useState_initial ∅ Sample.home) = App.Bare App.LoginView
   ∨ App.render (useState_initial ∅ Sample.home) = App.Bare App.RegisterView).
Proof.
  apply (unauthenticated_view_forced (useState_initial ∅ Sample.home)).
  - reflexivity.
  - discriminate.
Defined.

(** ** The remote client *)

Lemma handleResponse_401 (r : Response) (w : World) :
  status r = 401 →
  ∃ e, Api.handleResponse r w = (unauthorized w, Abrupt e).
Proof.
  intros Hs. unfold Api.handleResponse, ok. rewrite Hs. cbn.
  unfold response_json.
  destruct (body r) as [v|]; cbn; [|eauto].
  destruct v; cbn; eauto.
Qed.

Lemma receive_401 (c : Api.call) (r : Response) (w : World) :
  status r = 401 →
  ∃ e, Api.receive c (Responded r) w = (unauthorized w, Abrupt e).
Proof.
  intros Hs. destruct (handleResponse_401 r w Hs) as [e He].
  exists e. destruct c; cbn; try exact He.
  all: unfold mbind, JS_bind; rewrite He; reflexivity.
Qed.

(** C2, as amended.  Through the token-aware wrapper, whichever exported
    function made the call, an answer with status 401 removes the persisted
    token and identity, which is the storage that [logout()] leaves, assigns
    [/login] to the location, and the call fails. *)
Theorem unauthorized_clears_session (c : Api.call) (r : Response) (w : World) :
  status r = 401 →
  let out := Api.receive c (Responded r) w in
  localStorage out.1 !! "auth_token" = None
  ∧ localStorage out.1 !! "user" = None
  ∧ localStorage out.1 = localStorage (App.handleLogout w).1
  ∧ location out.1 = mkLocation "/login" []
  ∧ reloads out.1 = S (reloads w)
  ∧ ∃ e, out.2 = Abrupt e.
Proof.
  intros Hs. destruct (receive_401 c r w Hs) as [e He].
  cbv zeta. rewrite He. cbn [fst snd unauthorized localStorage location reloads].
  destruct (session_cleared_lookup (localStorage w)) as [Htok Husr].
  repeat split; try assumption. eauto.
Qed.

Lemma unauthorized_clears_session_witness :
  let out := Api.receive (Api.applications_getAll (JNum 7)) (Responded Sample.answer_401)
               (useState_initial Sample.stored_session Sample.home) in
  localStorage out.1 !! "auth_token" = None
  ∧ localStorage out.1 !! "user" = None
  ∧ localStorage out.1
    = localStorage (App.handleLogout (useState_initial Sample.stored_session Sample.home)).1
  ∧ location out.1 = mkLocation "/login" []
  ∧ reloads out.1 = S (reloads (useState_initial Sample.stored_session Sample.home))
  ∧ ∃ e, out.2 = Abrupt e.
Proof.
  apply (unauthorized_clears_session (Api.applications_getAll (JNum 7)) Sample.answer_401
           (useState_initial Sample.stored_session Sample.home)).
  reflexivity.
Defined.

(** C2, as stated, fails for the older wrapper: its [handleResponse] has no
    case for 401, so the stored session and the location stay as they
    were. *)
Lemma legacy_unauthorized_keeps_session :
  let w := useState_initial Sample.stored_session Sample.home in
  let out := LegacyApi.receive (LegacyApi.applications_getAll (JNum 7))
               (Responded Sample.answer_401) w in
  status Sample.answer_401 = 401
  ∧ localStorage out.1 !! "auth_token" = Some "t0k3n"
  ∧ localStorage out.1 !! "user" = Some "null"
  ∧ location out.1 = Sample.home
  ∧ reloads out.1 = 0%nat
  ∧ ¬ (localStorage out.1 !! "auth_token" = None
       ∧ localStorage out.1 !! "user" = None
       ∧ location out.1 = mkLocation "/login" []).
Proof.
  cbv zeta. repeat split.
  intros (Htoken & _). vm_compute in Htoken. discriminate.
Qed.

(** ** Session restore *)

Section Restore.
Context `{Engine}.

Lemma restore_not_attempted (w : World) :
  present (localStorage w !! "auth_token") && present (localStorage w !! "user") = false →
  App.restoreEffect w = (w, Normal tt).
Proof.
  intros Hp. unfold App.restoreEffect, localStorage_getItem, gets, mbind, JS_bind.
  rewrite Hp. reflexivity.
Qed.

Lemma restore_malformed (w : World) (s : string) :
  present (localStorage w !! "auth_token") = true →
  localStorage w !! "user" = Some s → s ≠ "" →
  JSON_parse s = None →
  App.restoreEffect w =
  ({| currentPage := currentPage w; isAuthenticated := isAuthenticated w; user := user w;
      applications := applications w; isLoading := isLoading w; error := error w;
      effectDeps := effectDeps w; callbackError := callbackError w;
      pageLoading := pageLoading w; pageError := pageError w;
      localStorage := delete "user" (delete "auth_token" (localStorage w));
      location := location w; reloads := reloads w;
      console := console w ++ ["Failed to load saved user:"]; outbox := outbox w;
      renderError := renderError w |}, Normal tt).
Proof.
  intros Ht Hu Hne Hp.
  unfold App.restoreEffect, localStorage_getItem, gets, mbind, JS_bind.
  rewrite Ht, Hu. cbn [present].
  destruct (String.eqb_spec s "") as [->|_]; [contradiction|]. cbn [negb andb default from_option id].
  unfold try_catch. rewrite Hp. reflexivity.
Qed.

Lemma restore_parsed (w : World) (s : string) (v : jsval) :
  present (localStorage w !! "auth_token") = true →
  localStorage w !! "user" = Some s → s ≠ "" →
  JSON_parse s = Some v →
  (App.restoreEffect w).2 = Normal tt
  ∧ isAuthenticated (App.restoreEffect w).1 = true
  ∧ user (App.restoreEffect w).1 = v
  ∧ (v ≠ JNull → v ≠ JUndefined →
     localStorage (App.restoreEffect w).1 = localStorage w).
Proof.
  intros Ht Hu Hne Hp.
  unfold App.restoreEffect, localStorage_getItem, gets, mbind, JS_bind.
  rewrite Ht, Hu. cbn [present].
  destruct (String.eqb_spec s "") as [->|_]; [contradiction|].
  cbn [negb andb default from_option id].
  unfold try_catch. rewrite Hp. cbn.
  destruct (App.emailLinkResult (location w)); cbn.
  all: destruct v; cbn; try (repeat split; (reflexivity || congruence)).
  all: match goal with |- context [truthy ?x] => destruct (truthy x) end;
       cbn; repeat split; reflexivity.
Qed.

Lemma present_Some (o : option string) :
  present o = true → ∃ s, o = Some s ∧ s ≠ "".
Proof.
  destruct o as [s|]; [|discriminate]. cbn.
  destruct (String.eqb_spec s "") as [->|Hne]; [discriminate|]. eauto.
Qed.

(** C1, as amended.  Run at process start, the restore effect never throws.
    The session is authenticated afterwards only if a token and an identity
    are both stored (and not empty) and the identity parses, and the identity
    in the state is then the parsed one; it is authenticated, with storage
    untouched, whenever they are and the identity parses to a value other
    than [null].  Without a token the effect changes nothing, so the session
    stays unauthenticated and a stored identity stays where it is.  With a
    token and an identity that does not parse, both storage keys are removed
    and the session stays unauthenticated. *)
Theorem restore_session (w : World) :
  isAuthenticated w = false →
  let out := App.restoreEffect w in
  let token := localStorage w !! "auth_token" in
  let saved := localStorage w !! "user" in
  out.2 = Normal tt
  ∧ (isAuthenticated out.1 = true →
       present token = true ∧ present saved = true
       ∧ JSON_parse (default "" saved) = Some (user out.1))
  ∧ (∀ v, present token = true → present saved = true →
       JSON_parse (default "" saved) = Some v → v ≠ JNull → v ≠ JUndefined →
       isAuthenticated out.1 = true ∧ user out.1 = v
       ∧ localStorage out.1 = localStorage w)
  ∧ (present token = false → out.1 = w)
  ∧ (present token = true → present saved = true →
     JSON_parse (default "" saved) = None →
       localStorage out.1 !! "auth_token" = None
       ∧ localStorage out.1 !! "user" = None
       ∧ isAuthenticated out.1 = false).
Proof.
  intros Hstart. cbv zeta.
  destruct (present (localStorage w !! "auth_token")) eqn:Ht.
  - destruct (present (localStorage w !! "user")) eqn:Hu.
    + destruct (present_Some _ Hu) as (s & Hs & Hne). rewrite Hs.
      cbn [default from_option id].
      destruct (JSON_parse s) as [v|] eqn:Hp.
      * destruct (restore_parsed w s v Ht Hs Hne Hp) as (Hc & Ha & Hv & Hkeep).
        rewrite Hc, Ha, Hv.
        split; [reflexivity|]. split; [auto|].
        split; [|split; discriminate].
        intros v' _ _ [= <-] Hnull Hundef. auto.
      * rewrite (restore_malformed w s Ht Hs Hne Hp).
        cbn [fst snd isAuthenticated localStorage]. rewrite Hstart.
        destruct (session_cleared_lookup (localStorage w)) as [Htok Husr].
        split; [reflexivity|]. split; [discriminate|].
        split; [discriminate|]. split; [discriminate|]. auto.
    + rewrite restore_not_attempted by (rewrite Ht, Hu; reflexivity).
      cbn [fst snd]. rewrite Hstart.
      split; [reflexivity|]. split; [discriminate|].
      split; [discriminate|]. split; discriminate.
  - rewrite restore_not_attempted by (rewrite Ht; reflexivity).
    cbn [fst snd]. rewrite Hstart.
    split; [reflexivity|]. split; [discriminate|].
    split; [discriminate|]. split; [reflexivity|]. discriminate.
Qed.

End Restore.

Lemma restore_session_witness :
  (isAuthenticated (@App.restoreEffect ReferenceEngine.engine Sample.restorable).1 = true
   ∧ user (@App.restoreEffect ReferenceEngine.engine Sample.restorable).1
     = JObj {["id" := JNum 7; "name" := JStr "Ann"]}
   ∧ localStorage (@App.restoreEffect ReferenceEngine.engine Sample.restorable).1
     = localStorage Sample.restorable)
  ∧ localStorage (@App.restoreEffect ReferenceEngine.engine Sample.unparsable).1 !! "user"
    = None.
Proof.
  split.
  - apply (@restore_session ReferenceEngine.engine Sample.restorable eq_refl);
      (reflexivity || discriminate).
  - apply (@restore_session ReferenceEngine.engine Sample.unparsable eq_refl); reflexivity.
Defined.

Lemma restore_keeps_stale_identity :
  let out := @App.restoreEffect ReferenceEngine.engine Sample.stale_identity in
  @JSON_parse ReferenceEngine.engine "{oops" = None
  ∧ localStorage Sample.stale_identity !! "user" = Some "{oops"
  ∧ ¬ (localStorage out.1 !! "auth_token" = None ∧ localStorage out.1 !! "user" = None).
Proof.
  split; [reflexivity|]. split; [reflexivity|].
  intros [_ Hu]. vm_compute in Hu. discriminate.
Qed.

(** A stored identity that reads [null] parses, so the state is set to
    authenticated with the identity [null]; reading its [id] then throws, and
    the handler of the effect removes the stored token and identity. *)
Lemma restore_null_identity :
  let out := @App.restoreEffect ReferenceEngine.engine
               (useState_initial Sample.stored_session Sample.home) in
  out.2 = Normal tt
  ∧ isAuthenticated out.1 = true
  ∧ user out.1 = JNull
  ∧ localStorage out.1 !! "auth_token" = None
  ∧ localStorage out.1 !! "user" = None.
Proof. cbv zeta. repeat split. Qed.

(** ** The cache updaters *)

Lemma updateOne_Normal (id patch : jsval) (updated : string) (app app' : jsval) :
  App.updateOne id patch updated app = Normal app' →
  app' = if record_id_is id app then merged patch updated app else app.
Proof.
  unfold App.updateOne, record_id_is, merged.
  destruct (get_member app "id") as [v|e]; cbn; [|discriminate].
  intros [= <-]. reflexivity.
Qed.

Lemma array_map_Normal (f : jsval → completion jsval) (l l' : list jsval) :
  array_map f l = Normal l' →
  length l' = length l
  ∧ ∀ i app, l !! i = Some app → ∃ app', l' !! i = Some app' ∧ f app = Normal app'.
Proof.
  revert l'. induction l as [|x l IH]; intros l'; cbn.
  - intros [= <-]. split; [reflexivity|]. intros i app Hi. destruct i; discriminate.
  - destruct (f x) as [y|e] eqn:Hx; [|discriminate].
    destruct (array_map f l) as [r|e]; [|discriminate].
    intros [= <-]. destruct (IH r eq_refl) as [Hlen Hpos].
    split; [cbn; congruence|].
    intros [|i] app Hi; cbn in *.
    + injection Hi as <-. eauto.
    + eauto.
Qed.

Lemma array_filter_Normal (p : jsval → completion bool) (l l' : list jsval) :
  array_filter p l = Normal l' → sublist l' l.
Proof.
  revert l'. induction l as [|x l IH]; intros l'; cbn.
  - intros [= <-]. constructor.
  - destruct (p x) as [b|e]; [|discriminate].
    destruct (array_filter p l) as [r|e]; [|discriminate].
    intros [= <-]. destruct b; [apply sublist_skip|apply sublist_cons]; auto.
Qed.

Lemma setApplications_with_applications (f : jsval → completion jsval) (w : World) :
  applications (setApplications_with f w).1 =
  match f (applications w) with
  | Normal next => next
  | Abrupt _ => applications w
  end.
Proof.
  unfold setApplications_with, gets, mbind, JS_bind.
  destruct (f (applications w)); reflexivity.
Qed.

Lemma handleUpdateApplication_positions (w : World) (l : list jsval) (id patch : jsval)
    (updated : string) :
  applications w = JArr l →
  ∃ l', applications (App.handleUpdateApplication id patch updated w).1 = JArr l'
    ∧ length l' = length l
    ∧ ((∀ i app, l !! i = Some app →
          l' !! i = Some (if record_id_is id app then merged patch updated app else app))
       ∨ l' = l).
Proof.
  intros Hw. unfold App.handleUpdateApplication.
  rewrite setApplications_with_applications, Hw. cbn.
  destruct (array_map (App.updateOne id patch updated) l) as [l'|e] eqn:Hmap; cbn.
  - exists l'. destruct (array_map_Normal _ _ _ Hmap) as [Hlen Hpos].
    split; [reflexivity|]. split; [exact Hlen|]. left.
    intros i app Hi. destruct (Hpos i app Hi) as (app' & Hi' & Hf).
    rewrite Hi'. f_equal. apply updateOne_Normal, Hf.
  - exists l. auto.
Qed.

(** C10.  [update(id, patch)] keeps the length of the list, leaves every
    record whose id differs from [id] as it is and where it is, puts at
    each position either the record that was there or its patched version,
    and leaves the list unchanged when no record has the id. *)
Theorem update_preserves_other_records (w : World) (l : list jsval) (id patch : jsval)
    (updated : string) :
  applications w = JArr l →
  ∃ l', applications (App.handleUpdateApplication id patch updated w).1 = JArr l'
    ∧ length l' = length l
    ∧ (∀ i app, l !! i = Some app → record_id_is id app = false → l' !! i = Some app)
    ∧ (∀ i app, l !! i = Some app →
         l' !! i = Some app ∨ l' !! i = Some (merged patch updated app))
    ∧ ((∀ app, app ∈ l → record_id_is id app = false) → l' = l).
Proof.
  intros Hw.
  destruct (handleUpdateApplication_positions w l id patch updated Hw)
    as (l' & Hl' & Hlen & [Hat | ->]).
  - exists l'. split; [exact Hl'|]. split; [exact Hlen|]. split; [|split].
    + intros i app Hi Hid. rewrite (Hat i app Hi), Hid. reflexivity.
    + intros i app Hi. rewrite (Hat i app Hi). destruct (record_id_is id app); auto.
    + intros Hnone. apply list_eq. intros i.
      destruct (l !! i) as [app|] eqn:Hi.
      * rewrite (Hat i app Hi), (Hnone app); [reflexivity|].
        apply list_elem_of_lookup. eauto.
      * apply lookup_ge_None in Hi. apply lookup_ge_None. lia.
  - exists l. repeat split; auto.
Qed.

Lemma update_preserves_other_records_witness :
  ∃ l', applications (App.handleUpdateApplication (JNum 1) Sample.to_interview Sample.later
                        Sample.signed_in).1 = JArr l'
    ∧ length l' = 2%nat
    ∧ l' !! 1%nat = Some Sample.globex.
Proof.
  destruct (update_preserves_other_records Sample.signed_in [Sample.acme; Sample.globex]
              (JNum 1) Sample.to_interview Sample.later eq_refl)
    as (l' & Hl' & Hlen & Hother & _).
  exists l'. split; [exact Hl'|]. split; [exact Hlen|].
  apply (Hother 1%nat Sample.globex); reflexivity.
Defined.

(** ** Sequences of cache operations *)

Lemma prop_id_own_props (app : jsval) :
  prop app "id" = default JUndefined (own_props app !! "id").
Proof. destruct app; reflexivity. Qed.

Lemma newApp_id (now : Z) (created updated : string) (appData : jsval) :
  prop (App.newApp now created updated appData) "id" = Cache.added_id now appData.
Proof.
  unfold App.newApp, Cache.added_id, prop. cbn [own_props].
  rewrite !lookup_insert_ne by discriminate.
  rewrite lookup_union.
  destruct (own_props appData !! "id") as [v|]; cbn.
  - rewrite lookup_singleton_eq. reflexivity.
  - rewrite lookup_singleton_eq. reflexivity.
Qed.

Lemma merged_id (patch : jsval) (updated : string) (app : jsval) :
  own_props patch !! "id" = None →
  prop (merged patch updated app) "id" = prop app "id".
Proof.
  intros Hp. rewrite (prop_id_own_props app).
  unfold merged, spread, prop. cbn [own_props].
  rewrite lookup_insert_ne by discriminate.
  rewrite lookup_union, Hp.
  destruct (own_props app !! "id"); reflexivity.
Qed.

Lemma step_Add (now : Z) (created updated : string) (appData : jsval) (w : World)
    (l : list jsval) :
  applications w = JArr l →
  applications (Cache.step (Cache.Add now created updated appData) w).1
  = JArr (App.newApp now created updated appData :: l).
Proof.
  intros Hw. cbn [Cache.step]. unfold App.handleAddApplication.
  rewrite setApplications_with_applications, Hw. reflexivity.
Qed.

Lemma step_Update_ids (id patch : jsval) (updated : string) (w : World) (l : list jsval) :
  applications w = JArr l →
  own_props patch !! "id" = None →
  ∃ l', applications (Cache.step (Cache.Update id patch updated) w).1 = JArr l'
        ∧ length l' = length l
        ∧ Cache.ids l' = Cache.ids l
        ∧ ∀ first, head l = Some first →
            head l' = Some first ∨ head l' = Some (merged patch updated first).
Proof.
  intros Hw Hp.
  destruct (handleUpdateApplication_positions w l id patch updated Hw)
    as (l' & Hl' & Hlen & [Hat | ->]).
  - exists l'. split; [exact Hl'|]. split; [exact Hlen|]. split.
    + apply list_eq. intros i. unfold Cache.ids. rewrite !list_lookup_fmap.
      destruct (l !! i) as [app|] eqn:Hi.
      * rewrite (Hat i app Hi). cbn [fmap option_fmap option_map].
        destruct (record_id_is id app); [|reflexivity].
        rewrite merged_id by exact Hp. reflexivity.
      * apply lookup_ge_None in Hi.
        rewrite (proj2 (lookup_ge_None l' i)) by lia. reflexivity.
    + intros first Hh. rewrite head_lookup in Hh. rewrite !head_lookup.
      rewrite (Hat 0%nat first Hh). destruct (record_id_is id first); auto.
  - exists l. repeat split; auto.
Qed.

Lemma step_Remove (id : jsval) (w : World) (l : list jsval) :
  applications w = JArr l →
  ∃ l', applications (Cache.step (Cache.Remove id) w).1 = JArr l'
        ∧ sublist l' l
        ∧ ∀ o rest, l = JObj o :: rest →
            strict_eq (default JUndefined (o !! "id")) id = false →
            ∃ rest', l' = JObj o :: rest'.
Proof.
  intros Hw. cbn [Cache.step]. unfold App.handleDeleteApplication.
  rewrite setApplications_with_applications, Hw. cbn [App.deleteUpdater mbind completion_bind].
  match goal with |- context [array_filter ?p l] => set (keep := p) end.
  destruct (array_filter keep l) as [l'|e] eqn:Hf; cbn.
  - exists l'. split; [reflexivity|]. split; [exact (array_filter_Normal _ _ _ Hf)|].
    intros o rest -> Hne. cbn in Hf. rewrite Hne in Hf. cbn in Hf.
    destruct (array_filter keep rest) as [r|e]; [|discriminate].
    injection Hf as <-. eauto.
  - exists l. split; [reflexivity|]. split; [reflexivity|]. eauto.
Qed.

Lemma step_Normal (o : Cache.op) (w : World) : (Cache.step o w).2 = Normal tt.
Proof.
  destruct o as [now created updated appData | id patch updated | id | clock records];
    cbn [Cache.step].
  1-3: unfold App.handleAddApplication, App.handleUpdateApplication,
         App.handleDeleteApplication, setApplications_with, gets, mbind, JS_bind;
       match goal with |- context [match ?c with Normal _ => _ | Abrupt _ => _ end] =>
         destruct c end; reflexivity.
  generalize 0%nat. revert w.
  induction records as [|r records IH]; intros w i; cbn; [reflexivity|].
  destruct (clock i) as [[now created] updated].
  unfold mbind, JS_bind.
  destruct (App.handleAddApplication now created updated r w) as [w' c] eqn:Hadd.
  assert (Hc : c = Normal tt).
  { change c with (w', c).2. rewrite <- Hadd.
    unfold App.handleAddApplication, setApplications_with, gets, mbind, JS_bind.
    destruct (App.addUpdater now created updated r (applications w)); reflexivity. }
  rewrite Hc. apply IH.
Qed.

Lemma run_cons (o : Cache.op) (ops : list Cache.op) (w : World) :
  Cache.run (o :: ops) w = Cache.run ops (Cache.step o w).1.
Proof.
  cbn [Cache.run]. unfold mbind, JS_bind.
  pose proof (step_Normal o w) as Hn.
  destruct (Cache.step o w) as [w' c]. cbn in Hn. rewrite Hn. reflexivity.
Qed.

Lemma run_app (ops ops' : list Cache.op) (w : World) :
  Cache.run (ops ++ ops') w = Cache.run ops' (Cache.run ops w).1.
Proof.
  revert w. induction ops as [|o ops IH]; intros w; [reflexivity|].
  rewrite <- app_comm_cons, !run_cons. apply IH.
Qed.

(** A load is the sequence of the adds of its records. *)
Lemma step_Load (clock : ApplicationsPage.Clock) (records : list jsval) (w : World) :
  Cache.step (Cache.Load clock records) w = Cache.run (Cache.adds_of clock 0 records) w.
Proof.
  cbn [Cache.step]. generalize 0%nat. revert w.
  induction records as [|r records IH]; intros w i; [reflexivity|].
  cbn [ApplicationsPage.forEach_onAddApplication Cache.adds_of Cache.run Cache.step].
  destruct (clock i) as [[now created] updated]. cbn [fst snd].
  unfold mbind, JS_bind.
  destruct (App.handleAddApplication now created updated r w) as [w' [[]|e]]; [|reflexivity].
  apply IH.
Qed.

Lemma ids_sublist (l' l : list jsval) : sublist l' l → sublist (Cache.ids l') (Cache.ids l).
Proof. intros Hs. unfold Cache.ids. apply (fmap_sublist (λ app, prop app "id")), Hs. Qed.

Lemma adds_unique (clock : ApplicationsPage.Clock) (records : list jsval) :
  ∀ (i : nat) (w : World) (l : list jsval),
    applications w = JArr l → NoDup (Cache.ids l) →
    NoDup (Cache.loaded_ids clock i records) →
    (∀ x, x ∈ Cache.loaded_ids clock i records → x ∉ Cache.ids l) →
    ∃ l', applications (Cache.run (Cache.adds_of clock i records) w).1 = JArr l'
          ∧ NoDup (Cache.ids l').
Proof.
  induction records as [|r records IH]; intros i w l Hw Hl Hnew Hfresh.
  - exists l. auto.
  - cbn [Cache.adds_of]. rewrite run_cons.
    cbn [Cache.loaded_ids] in Hnew, Hfresh.
    apply NoDup_cons in Hnew as [Hx Hnew].
    pose proof (step_Add (clock i).1.1 (clock i).1.2 (clock i).2 r w l Hw) as Hadd.
    eapply IH; [exact Hadd| | exact Hnew | ].
    + cbn [Cache.ids map]. rewrite newApp_id. apply NoDup_cons. split; [|exact Hl].
      apply Hfresh. left.
    + intros x Hin. cbn [Cache.ids map]. rewrite newApp_id.
      intros [->|Hold]%elem_of_cons.
      * contradiction.
      * apply (Hfresh x); [right; exact Hin | exact Hold].
Qed.

Lemma run_unique (ops : list Cache.op) :
  ∀ (w : World) (l : list jsval),
    applications w = JArr l → NoDup (Cache.ids l) → Cache.all_admissible ops w →
    ∃ l', applications (Cache.run ops w).1 = JArr l' ∧ NoDup (Cache.ids l').
Proof.
  induction ops as [|o ops IH]; intros w l Hw Hl Hadm.
  - exists l. auto.
  - destruct Hadm as [Ho Hadm]. specialize (Ho l Hw). rewrite run_cons.
    destruct o as [now created updated appData | id patch updated | id | clock records];
      cbn [Cache.admissible] in Ho.
    + eapply IH; [apply step_Add, Hw | | exact Hadm].
      cbn [Cache.ids map]. rewrite newApp_id. apply NoDup_cons. auto.
    + destruct (step_Update_ids id patch updated w l Hw Ho) as (l' & Hl' & _ & Hids & _).
      eapply IH; [exact Hl' | | exact Hadm]. rewrite Hids. exact Hl.
    + destruct (step_Remove id w l Hw) as (l' & Hl' & Hsub & _).
      eapply IH; [exact Hl' | | exact Hadm].
      eapply sublist_NoDup; [exact Hl | apply ids_sublist, Hsub].
    + destruct Ho as [Hnew Hfresh].
      destruct (adds_unique clock records 0%nat w l Hw Hl Hnew Hfresh) as (l' & Hl' & Hnd).
      rewrite <- step_Load in Hl'.
      eapply IH; [exact Hl' | exact Hnd | exact Hadm].
Qed.

Lemma run_array (ops : list Cache.op) :
  ∀ (w : World) (l : list jsval),
    applications w = JArr l → ∃ l', applications (Cache.run ops w).1 = JArr l'.
Proof.
  induction ops as [|o ops IH]; intros w l Hw; [eauto|].
  rewrite run_cons.
  assert (∃ l1, applications (Cache.step o w).1 = JArr l1) as [l1 Hl1].
  { destruct o as [now created updated appData | id patch updated | id | clock records].
    - eexists. apply step_Add, Hw.
    - destruct (handleUpdateApplication_positions w l id patch updated Hw) as (l' & Hl' & _).
      eauto.
    - destruct (step_Remove id w l Hw) as (l' & Hl' & _). eauto.
    - rewrite step_Load. generalize 0%nat. revert w l Hw.
      induction records as [|r records IHr]; intros w l Hw i; [eauto|].
      cbn [Cache.adds_of]. rewrite run_cons. eapply IHr. apply step_Add, Hw. }
  eapply IH, Hl1.
Qed.

Lemma run_keeps_first (x : jsval) (post : list Cache.op) :
  ∀ (w : World) (o : gmap string jsval) (rest : list jsval),
    Forall (Cache.keeps x) post →
    applications w = JArr (JObj o :: rest) → default JUndefined (o !! "id") = x →
    ∃ o' rest', applications (Cache.run post w).1 = JArr (JObj o' :: rest')
                ∧ default JUndefined (o' !! "id") = x.
Proof.
  induction post as [|op post IH]; intros w o rest Hk Hw Hid; [eauto|].
  apply Forall_cons in Hk as [Hop Hk]. rewrite run_cons.
  destruct op as [now created updated appData | id patch updated | id | clock records];
    cbn [Cache.keeps] in Hop; try contradiction.
  - destruct (step_Update_ids id patch updated w _ Hw Hop) as (l' & Hl' & _ & _ & Hhead).
    destruct l' as [|first' rest'].
    { destruct (Hhead (JObj o) eq_refl); discriminate. }
    destruct (Hhead (JObj o) eq_refl) as [[= ->] | [= ->]].
    + eapply IH; eauto.
    + eapply IH; [exact Hk | exact Hl' |].
      pose proof (merged_id patch updated (JObj o) Hop) as Hm.
      unfold merged in Hm |- *. cbn [prop own_props] in Hm. rewrite Hm. exact Hid.
  - destruct (step_Remove id w _ Hw) as (l' & Hl' & _ & Hhead).
    destruct (Hhead o rest eq_refl) as [rest' ->]; [rewrite Hid; exact Hop|].
    eapply IH; eauto.
Qed.

(** A successful load of the applications page is a [Load] step, with
    either wrapper. *)
Lemma loadApplications_resume_feeds (api : ApplicationsAPI) (clock : ApplicationsPage.Clock)
    (r : Response) (records : list jsval) (w : World) :
  api = Api.applicationsAPI ∨ api = LegacyApi.applicationsAPI →
  ok r = true → body r = Some (JArr records) →
  applications (ApplicationsPage.loadApplications_resume api clock (Responded r) w).1
  = applications (Cache.step (Cache.Load clock records) w).1.
Proof.
  intros Hapi Hok Hb.
  assert (Hrecv : getAll_receive api (Responded r) w = (w, Normal (JArr records))).
  { unfold Api.applicationsAPI, LegacyApi.applicationsAPI in Hapi.
    destruct Hapi as [-> | ->]; cbn;
      unfold Api.handleResponse, LegacyApi.handleResponse, response_json;
      rewrite Hok, Hb; reflexivity. }
  unfold ApplicationsPage.loadApplications_resume, try_finally, try_catch, mbind, JS_bind.
  rewrite Hrecv. cbn [Cache.step].
  pose proof (step_Normal (Cache.Load clock records) w) as Hn. cbn [Cache.step] in Hn.
  destruct (ApplicationsPage.forEach_onAddApplication clock 0 records w) as [w' c].
  cbn in Hn. subst c. reflexivity.
Qed.

(** C3, as amended.  From a cache that is a list: along every sequence of
    adds, updates, removals and loads in which each added or loaded record
    brings an id that is not yet in the cache and no patch carries an id, no
    two records share an id; after every sequence, the record added last is
    first in the list, and it stays first through updates whose patch
    carries no id and removals of other ids; a load is the sequence of the
    adds of the fetched records, so the record fetched last comes first. *)
Theorem cache_ids_unique_and_last_added_first (w : World) (l : list jsval) :
  applications w = JArr l →
  (∀ ops, NoDup (Cache.ids l) → Cache.all_admissible ops w →
     ∃ l', applications (Cache.run ops w).1 = JArr l' ∧ NoDup (Cache.ids l'))
  ∧ (∀ pre now created updated appData post,
       Forall (Cache.keeps (Cache.added_id now appData)) post →
       ∃ first rest,
         applications (Cache.run (pre ++ Cache.Add now created updated appData :: post) w).1
         = JArr (first :: rest)
         ∧ prop first "id" = Cache.added_id now appData
         ∧ (post = [] → first = App.newApp now created updated appData))
  ∧ (∀ clock records,
       Cache.step (Cache.Load clock records) w = Cache.run (Cache.adds_of clock 0 records) w).
Proof.
  intros Hw. split; [|split].
  - intros ops Hl Hadm. exact (run_unique ops w l Hw Hl Hadm).
  - intros pre now created updated appData post Hkeeps.
    rewrite run_app, run_cons.
    destruct (run_array pre w l Hw) as [l1 Hl1].
    pose proof (step_Add now created updated appData _ l1 Hl1) as Hadd.
    destruct post as [|p post].
    + exists (App.newApp now created updated appData), l1.
      split; [exact Hadd|]. split; [apply newApp_id|]. reflexivity.
    + pose proof (newApp_id now created updated appData) as Hid.
      unfold App.newApp in Hadd, Hid. cbn [prop own_props] in Hid.
      destruct (run_keeps_first _ (p :: post) _ _ _ Hkeeps Hadd Hid) as (o' & rest' & Hrun & Ho').
      exists (JObj o'), rest'. split; [exact Hrun|]. split; [exact Ho'|]. discriminate.
  - intros clock records. apply step_Load.
Qed.

Lemma cache_ids_unique_and_last_added_first_witness :
  ∃ l', applications
          (Cache.run [Cache.Add 1700000000000 Sample.later Sample.later Sample.form_data;
                      Cache.Remove (JNum 2)] Sample.signed_in).1 = JArr l'
        ∧ NoDup (Cache.ids l').
Proof.
  apply (cache_ids_unique_and_last_added_first Sample.signed_in [Sample.acme; Sample.globex]
           eq_refl).
  - vm_compute. apply NoDup_cons. split.
    + intros [Heq | Hin]%elem_of_cons; [discriminate|].
      apply elem_of_nil in Hin. exact Hin.
    + apply NoDup_singleton.
  - split.
    + intros l' [= <-]. vm_compute.
      intros [Heq | Hin]%elem_of_cons; [discriminate|].
      apply elem_of_cons in Hin as [Heq | Hin]; [discriminate|].
      apply elem_of_nil in Hin. exact Hin.
    + split; [intros; exact I | exact I].
Defined.

(** C3, as stated, fails: opening the applications page twice feeds the
    same fetched record through [add] twice, and the cache then holds two
    records with the id 1. *)
Lemma second_load_duplicates_ids :
  let ops := [Cache.Load Sample.clock [Sample.acme]; Cache.Load Sample.clock [Sample.acme]] in
  let w := (Cache.run ops (useState_initial ∅ Sample.home)).1 in
  Cache.ids_of w = [JNum 1; JNum 1]
  ∧ ¬ NoDup (Cache.ids_of w).
Proof.
  cbv zeta.
  assert (Hids : Cache.ids_of
            (Cache.run [Cache.Load Sample.clock [Sample.acme];
                        Cache.Load Sample.clock [Sample.acme]]
               (useState_initial ∅ Sample.home)).1 = [JNum 1; JNum 1])
    by (vm_compute; reflexivity).
  split; [exact Hids|].
  rewrite Hids. intros [Hnotin _]%NoDup_cons. apply Hnotin. left.
Qed.

(** ** Filtering *)

Lemma prefix_spec (t s : string) :
  String.prefix t s = true ↔ ∃ after, s = t +:+ after.
Proof.
  revert s. induction t as [|c t IH]; intros s.
  - split; [eauto|]. intros _. destruct s; reflexivity.
  - destruct s as [|d s]; cbn.
    + split; [discriminate|]. intros [after Ha]. discriminate.
    + destruct (Ascii.ascii_dec c d) as [->|Hne].
      * rewrite IH. split; intros [after Ha]; exists after.
        -- cbn. rewrite Ha. reflexivity.
        -- cbn in Ha. injection Ha as ->. reflexivity.
      * split; [discriminate|]. intros [after Ha]. cbn in Ha. injection Ha as -> _.
        contradiction.
Qed.

Lemma includes_spec (s t : string) :
  includes s t = true ↔ ∃ before after, s = before +:+ t +:+ after.
Proof.
  induction s as [|c s IH]; cbn [includes].
  - rewrite orb_false_r, prefix_spec. split.
    + intros [after Ha]. exists "", after. exact Ha.
    + intros (before & after & Ha). destruct before; [eauto|discriminate].
  - rewrite orb_true_iff, prefix_spec, IH. split.
    + intros [[after Ha] | (before & after & Ha)].
      * exists "", after. exact Ha.
      * exists (String c before), after. cbn. rewrite Ha. reflexivity.
    + intros (before & after & Ha). destruct before as [|d before]; cbn in Ha.
      * left. eauto.
      * right. injection Ha as _ ->. eauto.
Qed.

Lemma includes_empty (s : string) : includes s "" = true.
Proof. destruct s; reflexivity. Qed.

Lemma strict_eq_JStr (v : jsval) (s : string) : strict_eq v (JStr s) = true ↔ v = JStr s.
Proof.
  destruct v; cbn; try (split; [discriminate|discriminate]).
  rewrite String.eqb_eq. split; congruence.
Qed.

Lemma array_filter_pure (p : jsval → completion bool) (q : jsval → bool) (l : list jsval) :
  (∀ x, x ∈ l → p x = Normal (q x)) →
  array_filter p l = Normal (List.filter q l).
Proof.
  induction l as [|x l IH]; intros Hp; [reflexivity|].
  cbn. rewrite (Hp x) by left. rewrite IH by (intros y Hy; apply Hp; right; exact Hy).
  destruct (q x); reflexivity.
Qed.

Lemma matches_record (filter term : string) (app : jsval) :
  application_record app →
  ApplicationsPage.matches filter term app
  = Normal ((String.eqb filter "all" || has_status filter app) && found term app).
Proof.
  intros (o & company & role & -> & Hc & Hr).
  unfold ApplicationsPage.matches, has_status, found, get_member, prop. cbn [own_props].
  rewrite Hc, Hr. cbn.
  destruct (String.eqb filter "all"); cbn;
    destruct (includes (toLowerCase company) (toLowerCase term)); reflexivity.
Qed.

Lemma filteredApplications_records (l : list jsval) (filter term : string) :
  (∀ app, app ∈ l → application_record app) →
  ApplicationsPage.filteredApplications (JArr l) filter term
  = Normal (List.filter
              (λ app, (String.eqb filter "all" || has_status filter app) && found term app) l).
Proof.
  intros Hl. cbn. apply array_filter_pure.
  intros app Hin. apply matches_record, Hl, Hin.
Qed.

Lemma filter_ext_records (p q : jsval → bool) (l : list jsval) :
  (∀ app, app ∈ l → p app = q app) → List.filter p l = List.filter q l.
Proof.
  induction l as [|x l IH]; intros Hpq; [reflexivity|].
  cbn. rewrite (Hpq x) by left. rewrite IH by (intros y Hy; apply Hpq; right; exact Hy).
  reflexivity.
Qed.

Lemma found_empty (app : jsval) : application_record app → found "" app = true.
Proof.
  intros (o & company & role & -> & Hc & Hr). unfold found, prop. cbn [own_props].
  rewrite Hc, Hr. cbn. rewrite includes_empty. reflexivity.
Qed.

Lemma letter_pairs_lower (p : ascii * ascii) :
  In p letter_pairs → lower_ascii p.1 = p.2 ∧ lower_ascii p.2 = p.2.
Proof.
  assert (Htable : forallb (λ p, Ascii.eqb (lower_ascii p.1) p.2
                                 && Ascii.eqb (lower_ascii p.2) p.2) letter_pairs = true)
    by (vm_compute; reflexivity).
  rewrite forallb_forall in Htable. intros Hin.
  specialize (Htable p Hin). apply andb_true_iff in Htable as [H1 H2].
  apply Ascii.eqb_eq in H1, H2. split; assumption.
Qed.

Lemma letter_pairs_injective (p q : ascii * ascii) :
  In p letter_pairs → In q letter_pairs → p.2 = q.2 → p.1 = q.1.
Proof.
  assert (Htable : forallb (λ p, forallb (λ q, implb (Ascii.eqb p.2 q.2) (Ascii.eqb p.1 q.1))
                                   letter_pairs) letter_pairs = true)
    by (vm_compute; reflexivity).
  rewrite forallb_forall in Htable. intros Hp Hq Heq.
  specialize (Htable p Hp). rewrite forallb_forall in Htable. specialize (Htable q Hq).
  apply Ascii.eqb_eq in Heq. rewrite Heq in Htable. apply Ascii.eqb_eq. exact Htable.
Qed.

Lemma lower_ascii_cases (c : ascii) :
  lower_ascii c = c ∨ In (c, lower_ascii c) letter_pairs.
Proof.
  assert (Htable : forallb (λ n, let c := ascii_of_nat n in
                                 Ascii.eqb (lower_ascii c) c
                                 || existsb (λ p, Ascii.eqb c p.1
                                                  && Ascii.eqb (lower_ascii c) p.2)
                                      letter_pairs) (seq 0 256) = true)
    by (vm_compute; reflexivity).
  rewrite forallb_forall in Htable.
  assert (Hin : In (nat_of_ascii c) (seq 0 256)).
  { apply in_seq. pose proof (nat_ascii_bounded c). lia. }
  specialize (Htable (nat_of_ascii c) Hin). cbv zeta in Htable.
  rewrite ascii_nat_embedding in Htable.
  apply orb_true_iff in Htable as [Hsame | Hpair].
  - left. apply Ascii.eqb_eq, Hsame.
  - right. apply existsb_exists in Hpair as ([p1 p2] & Hp & Heq).
    apply andb_true_iff in Heq as [H1 H2]. apply Ascii.eqb_eq in H1, H2.
    cbn in H1, H2. subst p1 p2. exact Hp.
Qed.

Lemma same_letter_lower (c d : ascii) :
  same_letter c d = true ↔ lower_ascii c = lower_ascii d.
Proof.
  unfold same_letter. rewrite orb_true_iff, existsb_exists. split.
  - intros [Heq | (p & Hp & Hcd)].
    + apply Ascii.eqb_eq in Heq. subst d. reflexivity.
    + destruct (letter_pairs_lower p Hp) as [H1 H2].
      apply orb_true_iff in Hcd as [Hcd | Hcd];
        apply andb_true_iff in Hcd as [Hc Hd]; apply Ascii.eqb_eq in Hc, Hd; subst c d;
        congruence.
  - intros Hlower.
    destruct (lower_ascii_cases c) as [Hc | Hc], (lower_ascii_cases d) as [Hd | Hd].
    + left. apply Ascii.eqb_eq. congruence.
    + right. exists (d, lower_ascii d). split; [exact Hd|].
      apply orb_true_iff. right. cbn [fst snd].
      apply andb_true_iff. split; apply Ascii.eqb_eq; congruence.
    + right. exists (c, lower_ascii c). split; [exact Hc|].
      apply orb_true_iff. left. cbn [fst snd].
      apply andb_true_iff. split; apply Ascii.eqb_eq; congruence.
    + left. apply Ascii.eqb_eq.
      exact (letter_pairs_injective (c, lower_ascii c) (d, lower_ascii d) Hc Hd Hlower).
Qed.

Lemma same_text_lower (s t : string) :
  same_text s t = true ↔ toLowerCase s = toLowerCase t.
Proof.
  revert t. induction s as [|c s IH]; intros [|d t]; cbn [same_text toLowerCase].
  - split; reflexivity.
  - split; discriminate.
  - split; discriminate.
  - rewrite andb_true_iff, same_letter_lower, IH. split.
    + intros [-> ->]. reflexivity.
    + intros [= Hc Hs]. split; assumption.
Qed.

Lemma toLowerCase_app (a b : string) :
  toLowerCase (a +:+ b) = toLowerCase a +:+ toLowerCase b.
Proof.
  induction a as [|c a IH]; [reflexivity|].
  change (String (lower_ascii c) (toLowerCase (a +:+ b))
          = String (lower_ascii c) (toLowerCase a +:+ toLowerCase b)).
  rewrite IH. reflexivity.
Qed.

Lemma toLowerCase_split (s x y : string) :
  toLowerCase s = x +:+ y →
  ∃ a b, s = a +:+ b ∧ toLowerCase a = x ∧ toLowerCase b = y.
Proof.
  revert s. induction x as [|c x IH]; intros s Hs.
  - exists "", s. auto.
  - destruct s as [|d s]; cbn in Hs; [discriminate|]. injection Hs as Hc Hs.
    destruct (IH s Hs) as (a & b & -> & Ha & Hb).
    exists (String d a), b. cbn. rewrite Ha, Hc. auto.
Qed.

Lemma includes_lower_contains_ci (hay needle : string) :
  includes (toLowerCase hay) (toLowerCase needle) = true ↔ contains_ci hay needle.
Proof.
  rewrite includes_spec. unfold contains_ci. split.
  - intros (before & after & Hlc).
    destruct (toLowerCase_split hay _ _ Hlc) as (a & rest & -> & _ & Hrest).
    destruct (toLowerCase_split rest _ _ Hrest) as (stretch & c & -> & Hstretch & _).
    exists a, stretch, c. split; [reflexivity|]. apply same_text_lower, Hstretch.
  - intros (before & stretch & after & -> & Hsame).
    exists (toLowerCase before), (toLowerCase after).
    rewrite !toLowerCase_app. apply same_text_lower in Hsame. rewrite Hsame. reflexivity.
Qed.

(** C5.  The filter of the applications page is a function of the cache
    and the two criteria, and what it shows is a sublist of the cache, the
    records as they are and in their order.  On a cache of application
    records, with names, roles and a search term in text below 128, it
    computes: for a status value, exactly the records with that status; for
    a search term, exactly the records whose company or role contains the
    term case-insensitively; for both, exactly the records in both
    subsets. *)
Theorem filter_selects_exact_subsets (l : list jsval) (s term : string) :
  (∀ app, app ∈ l → application_record app) →
  (∀ app, app ∈ l → ascii_record app) →
  is_ascii term = true →
  s ≠ "all" →
  ApplicationsPage.filteredApplications (JArr l) s "" = Normal (List.filter (has_status s) l)
  ∧ (∀ app, has_status s app = true ↔ prop app "status" = JStr s)
  ∧ ApplicationsPage.filteredApplications (JArr l) "all" term
    = Normal (List.filter (found term) l)
  ∧ (∀ app, app ∈ l →
       (found term app = true ↔
        ∃ company role, prop app "company" = JStr company ∧ prop app "role" = JStr role
                        ∧ (contains_ci company term ∨ contains_ci role term)))
  ∧ ApplicationsPage.filteredApplications (JArr l) s term
    = Normal (List.filter (λ app, has_status s app && found term app) l)
  ∧ (∀ app, In app (List.filter (λ app, has_status s app && found term app) l)
            ↔ In app (List.filter (has_status s) l) ∧ In app (List.filter (found term) l))
  ∧ (∀ visible,
       ApplicationsPage.filteredApplications (JArr l) s term = Normal visible →
       ∀ app, In app visible ↔
         In app l ∧ prop app "status" = JStr s
         ∧ ∃ company role, prop app "company" = JStr company ∧ prop app "role" = JStr role
                           ∧ (contains_ci company term ∨ contains_ci role term))
  ∧ (∀ filter term' visible,
       ApplicationsPage.filteredApplications (JArr l) filter term' = Normal visible →
       sublist visible l).
Proof.
  intros Hl _ _ Hs.
  assert (Hall : String.eqb s "all" = false) by (apply String.eqb_neq; exact Hs).
  assert (Hfound : ∀ app, app ∈ l →
            (found term app = true ↔
             ∃ company role, prop app "company" = JStr company ∧ prop app "role" = JStr role
                             ∧ (contains_ci company term ∨ contains_ci role term))).
  { intros app Hin. destruct (Hl app Hin) as (o & company & role & -> & Hc & Hr).
    unfold found, prop. cbn [own_props]. rewrite Hc, Hr. cbn [default from_option id].
    rewrite orb_true_iff, !includes_lower_contains_ci. split.
    - intros Hor. exists company, role. auto.
    - intros (company' & role' & [= <-] & [= <-] & Hor). exact Hor. }
  split; [|split; [|split; [|split; [|split; [|split; [|split]]]]]];
    rewrite ?filteredApplications_records by exact Hl;
    rewrite ?Hall; cbn [orb String.eqb Ascii.eqb Bool.eqb].
  - f_equal. apply filter_ext_records. intros app Hin.
    rewrite (found_empty app) by (apply Hl, Hin). apply andb_true_r.
  - intros app. apply strict_eq_JStr.
  - reflexivity.
  - exact Hfound.
  - reflexivity.
  - intros app. rewrite !filter_In, andb_true_iff. tauto.
  - intros visible [= <-] app. rewrite filter_In, andb_true_iff.
    unfold has_status at 1. rewrite strict_eq_JStr. split.
    + intros (Hin & Hst & Hf). split; [exact Hin|]. split; [exact Hst|].
      apply Hfound; [apply list_elem_of_In, Hin|exact Hf].
    + intros (Hin & Hst & Hf). split; [exact Hin|]. split; [exact Hst|].
      apply Hfound; [apply list_elem_of_In, Hin|exact Hf].
  - intros filter term' visible Hv. exact (array_filter_Normal _ _ _ Hv).
Qed.

Lemma filter_selects_exact_subsets_witness :
  ApplicationsPage.filteredApplications (JArr [Sample.acme; Sample.globex]) "Applied" "ENGINE"
  = Normal [Sample.acme].
Proof.
  assert (Hrec : ∀ app, app ∈ [Sample.acme; Sample.globex] → application_record app).
  { intros app [-> | Hin]%elem_of_cons.
    - eexists _, "Acme", "Engineer". split; [reflexivity|]. split; reflexivity.
    - apply elem_of_cons in Hin as [-> | Hin].
      + eexists _, "Globex", "Data Analyst". split; [reflexivity|]. split; reflexivity.
      + apply elem_of_nil in Hin. destruct Hin. }
  assert (Hascii : ∀ app, app ∈ [Sample.acme; Sample.globex] → ascii_record app).
  { intros app [-> | Hin]%elem_of_cons.
    - intros s [Hs | Hs]; vm_compute in Hs; injection Hs as <-; reflexivity.
    - apply elem_of_cons in Hin as [-> | Hin].
      + intros s [Hs | Hs]; vm_compute in Hs; injection Hs as <-; reflexivity.
      + apply elem_of_nil in Hin. destruct Hin. }
  assert (Hterm : is_ascii "ENGINE" = true) by reflexivity.
  assert (Hstatus : "Applied" ≠ "all") by discriminate.
  destruct (filter_selects_exact_subsets [Sample.acme; Sample.globex] "Applied" "ENGINE"
              Hrec Hascii Hterm Hstatus) as (_ & _ & _ & _ & Hboth & _).
  rewrite Hboth. vm_compute. reflexivity.
Defined.

(** ** Updating through the applications page *)

Lemma Api_handleResponse_frame (r : Response) (w : World) :
  same_components w (Api.handleResponse r w).1.
Proof.
  unfold Api.handleResponse, response_json, same_components.
  destruct (ok r); cbn; [destruct (body r); cbn; auto|].
  destruct (status r =? 401); cbn; destruct (body r) as [[]|]; cbn; auto.
Qed.

Lemma Legacy_handleResponse_frame (r : Response) (w : World) :
  same_components w (LegacyApi.handleResponse r w).1.
Proof.
  unfold LegacyApi.handleResponse, response_json, same_components.
  destruct (ok r); cbn; destruct (body r) as [[]|]; cbn; auto.
Qed.

Lemma Api_handleResponse_failed (r : Response) (w : World) :
  ok r = false ∨ body r = None → ∃ e, (Api.handleResponse r w).2 = Abrupt e.
Proof.
  unfold Api.handleResponse, response_json.
  intros [Hok | Hb].
  - rewrite Hok. cbn. destruct (status r =? 401); cbn; destruct (body r) as [[]|]; cbn; eauto.
  - rewrite Hb. destruct (ok r); cbn; [eauto|].
    destruct (status r =? 401); cbn; eauto.
Qed.

Lemma Legacy_handleResponse_failed (r : Response) (w : World) :
  ok r = false ∨ body r = None → ∃ e, (LegacyApi.handleResponse r w).2 = Abrupt e.
Proof.
  unfold LegacyApi.handleResponse, response_json.
  intros [Hok | Hb].
  - rewrite Hok. cbn. destruct (body r) as [[]|]; cbn; eauto.
  - rewrite Hb. destruct (ok r); cbn; eauto.
Qed.

Lemma handleResponse_ok (r : Response) (v : jsval) (w : World) :
  ok r = true → body r = Some v →
  Api.handleResponse r w = (w, Normal v) ∧ LegacyApi.handleResponse r w = (w, Normal v).
Proof.
  intros Hok Hb. unfold Api.handleResponse, LegacyApi.handleResponse, response_json.
  rewrite Hok, Hb. split; reflexivity.
Qed.

Section UpdateFlow.
Variable api : ApplicationsAPI.
Hypothesis api_revision : api = Api.applicationsAPI ∨ api = LegacyApi.applicationsAPI.

Lemma update_send_frame (id patch : jsval) (w : World) :
  let w' := (update_send api id patch w).1 in
  applications w' = applications w ∧ pageLoading w' = pageLoading w
  ∧ pageError w' = pageError w
  ∧ ∃ rq, outbox w' = outbox w ++ [rq] ∧ req_method rq = PATCH ∧ req_body rq = Some patch.
Proof.
  destruct api_revision as [-> | ->]; cbn.
  - unfold Api.authenticatedFetch, Api.getToken, localStorage_getItem, gets, mbind, JS_bind.
    cbn. repeat split; eauto.
  - repeat split; eauto.
Qed.

Lemma update_receive_frame (f : fetched) (w : World) :
  same_components w (update_receive api f w).1.
Proof.
  destruct api_revision as [-> | ->]; destruct f as [|r]; cbn;
    try (unfold same_components; auto; fail).
  - apply Api_handleResponse_frame.
  - apply Legacy_handleResponse_frame.
Qed.

Lemma update_receive_ok (r : Response) (v : jsval) (w : World) :
  ok r = true → body r = Some v → update_receive api (Responded r) w = (w, Normal v).
Proof.
  intros Hok Hb. destruct (handleResponse_ok r v w Hok Hb) as [Ha Hl].
  destruct api_revision as [-> | ->]; assumption.
Qed.

Lemma update_receive_failed (f : fetched) (w : World) :
  remote_failed f → ∃ e, (update_receive api f w).2 = Abrupt e.
Proof.
  intros Hf. destruct api_revision as [-> | ->]; destruct f as [|r]; cbn; eauto.
  - apply Api_handleResponse_failed, Hf.
  - apply Legacy_handleResponse_failed, Hf.
Qed.

Lemma update_resume_ok (id patch : jsval) (updated : string) (r : Response) (v : jsval)
    (w : World) :
  ok r = true → body r = Some v →
  let done := (ApplicationsPage.handleUpdateApplication_resume api id patch updated
                 (Responded r) w).1 in
  applications done = applications (App.handleUpdateApplication id patch updated w).1
  ∧ pageLoading done = false ∧ pageError done = pageError w.
Proof.
  intros Hok Hb. unfold ApplicationsPage.handleUpdateApplication_resume.
  unfold try_finally, try_catch, mbind, JS_bind.
  rewrite (update_receive_ok r v w Hok Hb).
  unfold App.handleUpdateApplication, setApplications_with, gets, mbind, JS_bind.
  destruct (App.updateUpdater id patch updated (applications w)); cbn; auto.
Qed.

Lemma update_resume_failed (id patch : jsval) (updated : string) (f : fetched) (w : World) :
  remote_failed f →
  let done := (ApplicationsPage.handleUpdateApplication_resume api id patch updated f w).1 in
  applications done = applications w ∧ pageLoading done = false
  ∧ ∃ e, pageError done = Failed "Failed to update application: " e.
Proof.
  intros Hf. unfold ApplicationsPage.handleUpdateApplication_resume.
  unfold try_finally, try_catch, mbind, JS_bind.
  destruct (update_receive_failed f w Hf) as [e He].
  destruct (update_receive_frame f w) as (Happs & _).
  destruct (update_receive api f w) as [w1 c]. cbn in He, Happs. subst c. cbn.
  split; [exact Happs|]. split; [reflexivity|]. eauto.
Qed.

End UpdateFlow.

Lemma merged_lookup (patch : jsval) (updated : string) (app : jsval) (k : string) :
  own_props (merged patch updated app) !! k =
  if decide (k = "updated_at") then Some (JStr updated)
  else match own_props patch !! k with
       | Some v => Some v
       | None => own_props app !! k
       end.
Proof.
  unfold merged, spread. cbn [own_props].
  rewrite lookup_insert. repeat case_decide; try congruence.
  rewrite lookup_union.
  destruct (own_props patch !! k), (own_props app !! k); reflexivity.
Qed.

Lemma array_map_pure (f : jsval → completion jsval) (g : jsval → jsval) (l : list jsval) :
  (∀ x, x ∈ l → f x = Normal (g x)) → array_map f l = Normal (List.map g l).
Proof.
  induction l as [|x l IH]; intros Hf; [reflexivity|].
  cbn. rewrite (Hf x) by left. rewrite IH by (intros y Hy; apply Hf; right; exact Hy).
  reflexivity.
Qed.

Lemma updateOne_record (id patch : jsval) (updated : string) (app : jsval) :
  not_nullish app →
  App.updateOne id patch updated app
  = Normal (if record_id_is id app then merged patch updated app else app).
Proof.
  intros [Hn Hu]. unfold App.updateOne, record_id_is, merged.
  destruct app; try contradiction; reflexivity.
Qed.

Lemma handleUpdateApplication_records (w : World) (l : list jsval) (id patch : jsval)
    (updated : string) :
  applications w = JArr l → Forall not_nullish l →
  applications (App.handleUpdateApplication id patch updated w).1
  = JArr (List.map (λ app, if record_id_is id app then merged patch updated app else app) l).
Proof.
  intros Hw Hl. unfold App.handleUpdateApplication.
  rewrite setApplications_with_applications, Hw. cbn [App.updateUpdater].
  rewrite (array_map_pure _
             (λ app, if record_id_is id app then merged patch updated app else app)).
  - reflexivity.
  - intros app Hin. rewrite Forall_forall in Hl.
    apply updateOne_record, Hl, Hin.
Qed.

(** C4, as amended.  [update(id, patch)] on the applications page, with
    either wrapper, on a cache that is a list of records: the call only
    sends the PATCH request and marks the page as loading, the cache is not
    touched; when the request resolves (an ok answer with a JSON body) every
    record with the id is replaced, where it is, by the record merged with
    the patch and stamped with the new [updated_at], and the other records
    stay; when the request fails the cache is the one from before the call,
    and an error text is set. *)
Theorem update_is_applied_after_remote_success (api : ApplicationsAPI) (id patch : jsval)
    (updated : string) (w : World) (l : list jsval) :
  api = Api.applicationsAPI ∨ api = LegacyApi.applicationsAPI →
  applications w = JArr l →
  Forall not_nullish l →
  let started := (ApplicationsPage.handleUpdateApplication_start api id patch w).1 in
  (applications started = JArr l
   ∧ pageLoading started = true
   ∧ ∃ rq, outbox started = outbox w ++ [rq] ∧ req_method rq = PATCH ∧ req_body rq = Some patch)
  ∧ (∀ r v, ok r = true → body r = Some v →
       let done := (ApplicationsPage.handleUpdateApplication_resume api id patch updated
                      (Responded r) started).1 in
       applications done
       = JArr (List.map (λ app, if record_id_is id app then merged patch updated app
                                else app) l)
       ∧ applications done = applications (App.handleUpdateApplication id patch updated w).1
       ∧ pageLoading done = false
       ∧ pageError done = pageError w)
  ∧ (∀ app k,
       own_props (merged patch updated app) !! k =
       if decide (k = "updated_at") then Some (JStr updated)
       else match own_props patch !! k with
            | Some v => Some v
            | None => own_props app !! k
            end)
  ∧ (∀ f, remote_failed f →
       let done := (ApplicationsPage.handleUpdateApplication_resume api id patch updated
                      f started).1 in
       applications done = JArr l
       ∧ pageLoading done = false
       ∧ ∃ e, pageError done = Failed "Failed to update application: " e).
Proof.
  intros Hapi Hw Hrecords. cbv zeta.
  assert (Hstart :
    let started := (ApplicationsPage.handleUpdateApplication_start api id patch w).1 in
    applications started = applications w ∧ pageLoading started = true
    ∧ pageError started = pageError w
    ∧ ∃ rq, outbox started = outbox w ++ [rq] ∧ req_method rq = PATCH
            ∧ req_body rq = Some patch).
  { unfold ApplicationsPage.handleUpdateApplication_start, mbind, JS_bind. cbn [setPageLoading modify].
    match goal with |- context [update_send api id patch ?w1] =>
      destruct (update_send_frame api Hapi id patch w1) as (Ha & Hl & He & Hrq) end.
    cbv zeta. repeat split; assumption. }
  cbv zeta in Hstart.
  set (started := (ApplicationsPage.handleUpdateApplication_start api id patch w).1) in *.
  destruct Hstart as (Happs & Hload & Herr & Hrq).
  split; [split; [congruence|auto]|]. split; [|split].
  - intros r v Hok Hb.
    destruct (update_resume_ok api Hapi id patch updated r v started Hok Hb) as (Hd & Hl & He).
    assert (Hsame : applications (App.handleUpdateApplication id patch updated started).1
                    = applications (App.handleUpdateApplication id patch updated w).1).
    { unfold App.handleUpdateApplication.
      rewrite !setApplications_with_applications, Happs. reflexivity. }
    split; [|split; [|split; [exact Hl | congruence]]].
    + rewrite Hd, Hsame. apply handleUpdateApplication_records; assumption.
    + rewrite Hd. exact Hsame.
  - intros app k. apply merged_lookup.
  - intros f Hf.
    destruct (update_resume_failed api Hapi id patch updated f started Hf) as (Hd & Hl & He).
    split; [congruence|]. split; assumption.
Qed.

Lemma update_is_applied_after_remote_success_witness :
  applications
    (ApplicationsPage.handleUpdateApplication_resume Api.applicationsAPI (JNum 1)
       Sample.to_interview Sample.later (Responded (mkResponse 200 (Some (JObj ∅))))
       (ApplicationsPage.handleUpdateApplication_start Api.applicationsAPI (JNum 1)
          Sample.to_interview Sample.signed_in).1).1
  = JArr [JObj {["id" := JNum 1; "company" := JStr "Acme"; "role" := JStr "Engineer";
                 "status" := JStr "Interview"; "updated_at" := JStr Sample.later]};
          Sample.globex].
Proof.
  assert (Hrecords : Forall not_nullish [Sample.acme; Sample.globex])
    by (repeat constructor; discriminate).
  destruct (update_is_applied_after_remote_success Api.applicationsAPI (JNum 1)
              Sample.to_interview Sample.later Sample.signed_in
              [Sample.acme; Sample.globex] (or_introl eq_refl) eq_refl Hrecords)
    as (_ & Hgood & _).
  destruct (Hgood (mkResponse 200 (Some (JObj ∅))) (JObj ∅) eq_refl eq_refl) as (Hmerged & _).
  rewrite Hmerged. vm_compute. reflexivity.
Defined.

(** C4, as stated, fails: when [update] has been called and the remote
    update has not resolved, the cached record is not patched, whatever the
    time stamp; and after a failed remote update it still is the record from
    before, so there was nothing to keep or to revert. *)
Lemma update_is_not_applied_before_remote_resolves :
  let started := (ApplicationsPage.handleUpdateApplication_start Api.applicationsAPI (JNum 1)
                    Sample.to_interview Sample.signed_in).1 in
  let failed := (ApplicationsPage.handleUpdateApplication_resume Api.applicationsAPI (JNum 1)
                   Sample.to_interview Sample.later Rejected started).1 in
  applications started = JArr [Sample.acme; Sample.globex]
  ∧ (∀ updated,
       applications started
       ≠ applications (App.handleUpdateApplication (JNum 1) Sample.to_interview updated
                         Sample.signed_in).1)
  ∧ applications failed = JArr [Sample.acme; Sample.globex]
  ∧ prop Sample.acme "status" = JStr "Applied".
Proof.
  cbv zeta. split; [reflexivity|]. split; [|split; reflexivity].
  intros updated Heq.
  apply (f_equal (λ a, match a with
                       | JArr (first :: _) => prop first "status"
                       | _ => JNull
                       end)) in Heq.
  vm_compute in Heq. discriminate.
Qed.

(** ** Callback addresses *)

Lemma carries_token_exchange_params (loc : Location) (T U : string) :
  searchParams_get (search loc) "token" = Some T → T ≠ "" →
  searchParams_get (search loc) "user_id" = Some U → U ≠ "" →
  carries_token_exchange loc = true.
Proof.
  intros HT HTne HU HUne. unfold carries_token_exchange. rewrite HT, HU. cbn.
  destruct (String.eqb_spec T "") as [->|_]; [contradiction|].
  destruct (String.eqb_spec U "") as [->|_]; [contradiction|]. reflexivity.
Qed.

Lemma emailLinkResult_carries (loc : Location) :
  carries_email_result loc = true → App.emailLinkResult loc = true.
Proof.
  unfold carries_email_result, App.emailLinkResult.
  intros Hc. rewrite <- orb_assoc, Hc. apply orb_true_r.
Qed.

Lemma urlEffect_token_exchange (seen : bool) (w : World) :
  carries_token_exchange (location w) = true →
  App.urlEffect seen w = setCurrentPage "oauth-callback" w.
Proof.
  intros Hc. unfold App.urlEffect, gets, mbind, JS_bind.
  unfold carries_token_exchange in Hc. rewrite Hc. reflexivity.
Qed.

Lemma urlEffect_email_result (w : World) :
  carries_token_exchange (location w) = false →
  App.emailLinkResult (location w) = true →
  App.urlEffect true w =
  ({| currentPage := "profile"; isAuthenticated := isAuthenticated w; user := user w;
      applications := applications w; isLoading := isLoading w; error := error w;
      effectDeps := effectDeps w; callbackError := callbackError w;
      pageLoading := pageLoading w; pageError := pageError w;
      localStorage := localStorage w; location := mkLocation "/profile" [];
      reloads := reloads w; console := console w; outbox := outbox w;
      renderError := renderError w |}, Normal tt).
Proof.
  intros Hc He. unfold App.urlEffect, gets, mbind, JS_bind.
  unfold carries_token_exchange in Hc. rewrite Hc, He. reflexivity.
Qed.

Lemma urlEffect_unauthenticated (w : World) :
  carries_token_exchange (location w) = false →
  App.urlEffect false w = (w, Normal tt).
Proof.
  intros Hc. unfold App.urlEffect, gets, mbind, JS_bind.
  unfold carries_token_exchange in Hc. rewrite Hc.
  destruct (App.emailLinkResult (location w)); reflexivity.
Qed.

Lemma urlEffect_Normal (seen : bool) (w : World) : (App.urlEffect seen w).2 = Normal tt.
Proof.
  unfold App.urlEffect, gets, mbind, JS_bind.
  destruct (present _ && present _); [reflexivity|].
  destruct (App.emailLinkResult (location w)); [|reflexivity].
  destruct seen; reflexivity.
Qed.

Lemma urlEffect_profile_only_if (seen : bool) (w : World) :
  currentPage (App.urlEffect seen w).1 = "profile" →
  currentPage w = "profile" ∨ seen = true.
Proof.
  unfold App.urlEffect, gets, mbind, JS_bind.
  destruct (present _ && present _); [discriminate|].
  destruct (App.emailLinkResult (location w)); [|auto].
  destruct seen; auto.
Qed.

Section EmailResult.
Context `{Engine}.

(** C7.  For an address that carries [success=email_connected] or an
    [error] parameter, the URL effect selects the profile page only when the
    render it belongs to is authenticated; when it is (and the address is
    not an identity-provider callback) it selects the profile page and
    replaces the address by [/profile] without loading anything, so that the
    query string has no [success] or [error] left, and running the effect
    again, or committing a later render, changes nothing. *)
Theorem email_result_goes_to_profile (seen : bool) (w : World) :
  carries_email_result (location w) = true →
  let out := App.urlEffect seen w in
  out.2 = Normal tt
  ∧ (currentPage out.1 = "profile" → currentPage w = "profile" ∨ seen = true)
  ∧ (seen = false → carries_token_exchange (location w) = false → out.1 = w)
  ∧ (seen = true → carries_token_exchange (location w) = false →
       currentPage out.1 = "profile"
       ∧ location out.1 = mkLocation "/profile" []
       ∧ reloads out.1 = reloads w
       ∧ searchParams_get (search (location out.1)) "success" = None
       ∧ carries_email_result (location out.1) = false
       ∧ App.urlEffect seen out.1 = (out.1, Normal tt)
       ∧ (effectDeps out.1 = Some (isAuthenticated out.1) →
          App.commit out.1 = (out.1, Normal tt))).
Proof.
  intros Hc. cbv zeta.
  split; [apply urlEffect_Normal|].
  split; [apply urlEffect_profile_only_if|].
  split.
  - intros -> Ht. rewrite urlEffect_unauthenticated by exact Ht. reflexivity.
  - intros -> Ht.
    rewrite (urlEffect_email_result w Ht (emailLinkResult_carries _ Hc)).
    cbn [fst snd currentPage location reloads search effectDeps isAuthenticated].
    repeat split.
    intros Hdeps. unfold App.commit, gets, mbind, JS_bind.
    cbn [effectDeps isAuthenticated]. rewrite Hdeps, eqb_reflx. reflexivity.
Qed.

End EmailResult.

Lemma email_result_goes_to_profile_witness :
  let out := @App.urlEffect true (Sample.signed_in_at Sample.email_connected) in
  currentPage out.1 = "profile"
  ∧ location out.1 = mkLocation "/profile" []
  ∧ reloads out.1 = reloads (Sample.signed_in_at Sample.email_connected)
  ∧ searchParams_get (search (location out.1)) "success" = None
  ∧ carries_email_result (location out.1) = false
  ∧ App.urlEffect true out.1 = (out.1, Normal tt)
  ∧ (effectDeps out.1 = Some (isAuthenticated out.1) →
     @App.commit ReferenceEngine.engine out.1 = (out.1, Normal tt)).
Proof.
  apply (@email_result_goes_to_profile ReferenceEngine.engine true
           (Sample.signed_in_at Sample.email_connected)); reflexivity.
Defined.

(** ** The token exchange *)

Lemma present_true (s : string) : s ≠ "" → present (Some s) = true.
Proof. intros Hne. cbn. destruct (String.eqb_spec s ""); [contradiction|reflexivity]. Qed.

Lemma identity_of_id (profile : gmap string jsval) :
  prop (identity_of profile) "id" = default JUndefined (profile !! "id").
Proof.
  unfold identity_of, prop. cbn [own_props]. rewrite lookup_insert_eq. reflexivity.
Qed.

Section TokenExchange.
Context `{Engine}.

Lemma effect_start_exchange (w : World) (T U : string) :
  searchParams_get (search (location w)) "token" = Some T → T ≠ "" →
  searchParams_get (search (location w)) "user_id" = Some U → U ≠ "" →
  let started := (OAuthCallback.effect_start w).1 in
  localStorage started = <["auth_token" := T]> (localStorage w)
  ∧ outbox started =
      outbox w ++ [mkRequest GET (API_BASE_URL +:+ "/accounts/" +:+ U)
                     (<["Authorization" := "Bearer " +:+ T]> json_headers) None].
Proof.
  intros HT HTne HU HUne.
  unfold OAuthCallback.effect_start, gets, mbind, JS_bind.
  rewrite HT, HU, !present_true by assumption. cbn [andb default from_option id].
  unfold localStorage_setItem, setLocalStorage, modify. cbn [Api.send String_of].
  unfold Api.authenticatedFetch, Api.getToken, localStorage_getItem, gets, mbind, JS_bind.
  cbn [localStorage]. rewrite lookup_insert_eq, present_true by assumption.
  cbn [default from_option id fetch modify fst localStorage outbox]. split; reflexivity.
Qed.

Lemma effect_start_no_params (w : World) :
  carries_token_exchange (location w) = false →
  localStorage (OAuthCallback.effect_start w).1 = localStorage w
  ∧ outbox (OAuthCallback.effect_start w).1 = outbox w.
Proof.
  intros Hc. unfold OAuthCallback.effect_start, gets, mbind, JS_bind.
  unfold carries_token_exchange in Hc. rewrite Hc. split; reflexivity.
Qed.

Lemma handleLogin_object (o : gmap string jsval) (w : World) :
  let done := (App.handleLogin (JObj o) w).1 in
  (App.handleLogin (JObj o) w).2 = Normal tt
  ∧ user done = JObj o
  ∧ isAuthenticated done = true
  ∧ currentPage done = "dashboard"
  ∧ localStorage done = <["user" := JSON_stringify (JObj o)]> (localStorage w)
  ∧ location done = location w
  ∧ reloads done = reloads w.
Proof.
  unfold App.handleLogin, try_catch, member, lift, get_member.
  world_simpl.
  destruct (truthy (prop (JObj o) "id")).
  - unfold App.loadApplications_start, Api.send, Api.authenticatedFetch, Api.getToken.
    world_simpl. repeat split.
  - world_simpl. repeat split.
Qed.

Lemma effect_resume_success (r : Response) (profile : gmap string jsval) (w : World) :
  ok r = true → body r = Some (JObj profile) →
  let done := (OAuthCallback.effect_resume App.handleLogin (Responded r) w).1 in
  user done = identity_of profile
  ∧ isAuthenticated done = true
  ∧ currentPage done = "dashboard"
  ∧ localStorage done !! "user" = Some (JSON_stringify (identity_of profile))
  ∧ location done = mkLocation "/" []
  ∧ reloads done = reloads w.
Proof.
  intros Hok Hb.
  unfold OAuthCallback.effect_resume, try_catch, mbind, JS_bind. cbn [Api.receive].
  rewrite (proj1 (handleResponse_ok r (JObj profile) w Hok Hb)).
  unfold member, lift, get_member. cbn [prop own_props].
  unfold identity_of. world_simpl.
  match goal with |- context [App.handleLogin (JObj ?o) ?w1] =>
    destruct (handleLogin_object o w1) as (Hn & Hu & Ha & Hp & Hs & Hl & Hr);
    destruct (App.handleLogin (JObj o) w1) as [w2 c]
  end.
  cbn [fst snd] in *. subst c. world_simpl.
  rewrite Hs, lookup_insert_eq. repeat split; assumption.
Qed.

(** C6.  For an address that carries [token=T] and [user_id=U], both not
    empty: whatever the authentication state, the URL effect selects the
    callback page and the callback view is what is shown; the callback
    effect stores the token and requests the profile of [U] with it; when
    that request resolves with a profile, [login] receives the identity made
    of the profile's [id], [name] and [email] (so an identity with id [U]
    when it is the profile of [U] that came back), the session is
    authenticated and the address becomes [/] without a query string; and on
    an address without the two parameters, as that one, neither effect
    starts the exchange again. *)
Theorem token_exchange_resumes_login (seen : bool) (w : World) (T U : string) :
  searchParams_get (search (location w)) "token" = Some T → T ≠ "" →
  searchParams_get (search (location w)) "user_id" = Some U → U ≠ "" →
  (currentPage (App.urlEffect seen w).1 = "oauth-callback"
   ∧ App.render (App.urlEffect seen w).1 = App.InLayout App.OAuthCallbackView)
  ∧ (let started := (OAuthCallback.effect_start w).1 in
     localStorage started !! "auth_token" = Some T
     ∧ outbox started =
         outbox w ++ [mkRequest GET (API_BASE_URL +:+ "/accounts/" +:+ U)
                        (<["Authorization" := "Bearer " +:+ T]> json_headers) None])
  ∧ (∀ r profile w1, ok r = true → body r = Some (JObj profile) →
       let done := (OAuthCallback.effect_resume App.handleLogin (Responded r) w1).1 in
       user done = identity_of profile
       ∧ prop (user done) "id" = default JUndefined (profile !! "id")
       ∧ (String_of (default JUndefined (profile !! "id")) = U →
          String_of (prop (user done) "id") = U)
       ∧ isAuthenticated done = true
       ∧ currentPage done = "dashboard"
       ∧ localStorage done !! "user" = Some (JSON_stringify (identity_of profile))
       ∧ location done = mkLocation "/" []
       ∧ reloads done = reloads w1
       ∧ carries_token_exchange (location done) = false)
  ∧ (∀ seen' w2, carries_token_exchange (location w2) = false →
       (currentPage (App.urlEffect seen' w2).1 = "oauth-callback" →
        currentPage w2 = "oauth-callback")
       ∧ localStorage (OAuthCallback.effect_start w2).1 = localStorage w2
       ∧ outbox (OAuthCallback.effect_start w2).1 = outbox w2).
Proof.
  intros HT HTne HU HUne.
  pose proof (carries_token_exchange_params (location w) T U HT HTne HU HUne) as Hc.
  split; [|split; [|split]].
  - rewrite (urlEffect_token_exchange seen w Hc). cbn [setCurrentPage modify fst currentPage].
    split; [reflexivity|].
    unfold App.render. cbn [currentPage isAuthenticated].
    destruct (isAuthenticated w); reflexivity.
  - destruct (effect_start_exchange w T U HT HTne HU HUne) as [Hls Hout]. cbv zeta.
    rewrite Hls, lookup_insert_eq. split; [reflexivity | exact Hout].
  - intros r profile w1 Hok Hb.
    destruct (effect_resume_success r profile w1 Hok Hb) as (Hu & Ha & Hp & Hs & Hl & Hr).
    cbv zeta. rewrite Hu, identity_of_id, Hl.
    repeat split; auto.
  - intros seen' w2 Hc2. split; [|apply effect_start_no_params, Hc2].
    unfold App.urlEffect, gets, mbind, JS_bind.
    unfold carries_token_exchange in Hc2. rewrite Hc2.
    destruct (App.emailLinkResult (location w2)); [|auto].
    destruct seen'; [discriminate | auto].
Qed.

End TokenExchange.

Lemma token_exchange_resumes_login_witness :
  let w := useState_initial ∅ Sample.callback_address in
  let done := (@OAuthCallback.effect_resume ReferenceEngine.engine
                 (@App.handleLogin ReferenceEngine.engine)
                 (Responded Sample.answer_profile)
                 (OAuthCallback.effect_start w).1).1 in
  currentPage (App.urlEffect false w).1 = "oauth-callback"
  ∧ localStorage (OAuthCallback.effect_start w).1 !! "auth_token" = Some "t0k3n"
  ∧ String_of (prop (user done) "id") = "7"
  ∧ isAuthenticated done = true
  ∧ location done = mkLocation "/" [].
Proof.
  pose proof (@token_exchange_resumes_login ReferenceEngine.engine false
                (useState_initial ∅ Sample.callback_address) "t0k3n" "7"
                eq_refl ltac:(discriminate) eq_refl ltac:(discriminate))
    as ((Hpage & _) & (Htoken & _) & Hdone & _).
  destruct (Hdone Sample.answer_profile Sample.profile
              (OAuthCallback.effect_start
                 (useState_initial ∅ Sample.callback_address)).1 eq_refl eq_refl)
    as (_ & _ & Hid & Hauth & _ & _ & Hloc & _).
  cbv zeta. split; [exact Hpage|]. split; [exact Htoken|].
  split; [apply Hid; reflexivity|]. split; [exact Hauth | exact Hloc].
Defined.

(** * Further properties *)

(** ** Requests of the token-aware wrapper *)

Lemma authenticatedFetch_request (url : string) (m : method) (b : option jsval) (w : World) :
  Api.authenticatedFetch url m b w =
  (with_request
     (mkRequest m url
        (if present (localStorage w !! "auth_token")
         then <["Authorization" := "Bearer " +:+ default "" (localStorage w !! "auth_token")]>
                json_headers
         else json_headers) b) w, Normal tt).
Proof. reflexivity. Qed.

Lemma bearer_header (o : option string) :
  (if present o then <["Authorization" := "Bearer " +:+ default "" o]> json_headers
   else json_headers) !! "Authorization"
  = match o with
    | Some T => if String.eqb T "" then None else Some ("Bearer " +:+ T)
    | None => None
    end.
Proof.
  destruct o as [T|]; cbn [present]; [|reflexivity].
  destruct (String.eqb T ""); cbn [negb default from_option id].
  - reflexivity.
  - apply lookup_insert_eq.
Qed.

(** X1.  Every exported call of the token-aware wrapper hands exactly one
    request to [fetch] and changes nothing else.  The request carries
    [Authorization: Bearer T] exactly when the call goes through
    [authenticatedFetch] and a token [T] that is not empty is stored; the
    calls to [/auth/...] and [/health] never carry it. *)
Theorem send_attaches_stored_token (c : Api.call) (w : World) :
  ∃ rq, Api.send c w = (with_request rq w, Normal tt)
    ∧ (req_method rq, req_url rq, req_body rq) = request_line c
    ∧ req_headers rq !! "Authorization"
      = if uses_authenticatedFetch c
        then match localStorage w !! "auth_token" with
             | Some T => if String.eqb T "" then None else Some ("Bearer " +:+ T)
             | None => None
             end
        else None.
Proof.
  destruct c; cbn [Api.send uses_authenticatedFetch request_line];
    try (rewrite authenticatedFetch_request; eexists; split; [reflexivity|];
         split; [reflexivity|]; cbn [req_headers]; apply bearer_header).
  all: eexists; split; [reflexivity|]; split; reflexivity.
Qed.

(** ** Answers *)

(** X2.  [handleResponse] of the token-aware wrapper: an ok answer gives its
    JSON body and changes nothing (a body that is not JSON raises a
    SyntaxError); an answer that is not ok always raises; when its status is
    not 401 nothing is changed, and for a JSON object the error carries the
    text of the [error] member, or "Something went wrong" when that member is
    missing or falsy. *)
Theorem handleResponse_outcomes (r : Response) (w : World) :
  (ok r = true →
     Api.handleResponse r w
     = (w, match body r with Some v => Normal v | None => Abrupt SyntaxError end))
  ∧ (ok r = false → ∃ e, (Api.handleResponse r w).2 = Abrupt e)
  ∧ (ok r = false → status r ≠ 401 →
       (Api.handleResponse r w).1 = w
       ∧ ∀ o, body r = Some (JObj o) →
           (Api.handleResponse r w).2
           = Abrupt (Error (String_of (js_or (default JUndefined (o !! "error"))
                                             (JStr "Something went wrong"))))).
Proof.
  split; [|split].
  - intros Hok. unfold Api.handleResponse, response_json. rewrite Hok. cbn.
    destruct (body r); reflexivity.
  - intros Hok. apply Api_handleResponse_failed. auto.
  - intros Hok Hs. apply Z.eqb_neq in Hs.
    unfold Api.handleResponse, response_json. rewrite Hok, Hs. cbn.
    split.
    + destruct (body r) as [[]|]; reflexivity.
    + intros o ->. reflexivity.
Qed.

Lemma handleResponse_outcomes_witness :
  (Api.handleResponse (mkResponse 500 (Some (JObj ∅))) Sample.signed_in).2
  = Abrupt (Error "Something went wrong").
Proof.
  destruct (handleResponse_outcomes (mkResponse 500 (Some (JObj ∅))) Sample.signed_in)
    as (_ & _ & Hother).
  destruct (Hother eq_refl ltac:(discriminate)) as [_ Hmsg].
  exact (Hmsg ∅ eq_refl).
Defined.

(** X3.  Of all the calls only [connectGmail] and [connectMicrosoft] act on
    a good answer: they assign its [authorization_url] to the location when
    that member is truthy, and resolve to the answer; every other call
    resolves to the answer and leaves the world as it is. *)
Theorem only_connect_calls_navigate (c : Api.call) (r : Response) (data : gmap string jsval)
    (w : World) :
  ok r = true → body r = Some (JObj data) →
  let url := default JUndefined (data !! "authorization_url") in
  let out := Api.receive c (Responded r) w in
  out.2 = Normal (JObj data)
  ∧ (c ≠ Api.email_connectGmail → c ≠ Api.email_connectMicrosoft → out.1 = w)
  ∧ (truthy url = false → out.1 = w)
  ∧ (c = Api.email_connectGmail ∨ c = Api.email_connectMicrosoft → truthy url = true →
       location out.1 = mkLocation (String_of url) []
       ∧ reloads out.1 = S (reloads w)
       ∧ localStorage out.1 = localStorage w).
Proof.
  intros Hok Hb. cbv zeta.
  destruct (handleResponse_ok r (JObj data) w Hok Hb) as [Hr _].
  assert (Hconnect :
    (x ← Api.handleResponse r ; Api.follow_authorization_url x) w
    = if truthy (default JUndefined (data !! "authorization_url"))
      then ((location_assign (String_of (default JUndefined (data !! "authorization_url"))) w).1,
            Normal (JObj data))
      else (w, Normal (JObj data))).
  { unfold mbind at 1. unfold JS_bind. rewrite Hr.
    unfold Api.follow_authorization_url, member, lift, get_member, prop. cbn [own_props].
    unfold mbind, JS_bind, mret, JS_ret.
    destruct (truthy (default JUndefined (data !! "authorization_url"))); reflexivity. }
  destruct c; cbn [Api.receive]; rewrite ?Hr, ?Hconnect; cbn [fst snd].
  all: try (split; [reflexivity|]; split; [reflexivity|]; split; [reflexivity|];
            intros [Hc | Hc]; discriminate).
  all: destruct (truthy (default JUndefined (data !! "authorization_url"))); cbn [fst snd];
    (split; [reflexivity|]; split; [intros; congruence|]; split;
     [intros; (reflexivity || discriminate)|]; intros _ Ht;
     (discriminate || (repeat split))).
Qed.

Lemma only_connect_calls_navigate_witness :
  location
    (Api.receive Api.email_connectGmail
       (Responded (mkResponse 200
          (Some (JObj {["authorization_url" := JStr "https://accounts.example/o/oauth2"]}))))
       Sample.signed_in).1
  = mkLocation "https://accounts.example/o/oauth2" [].
Proof.
  destruct (only_connect_calls_navigate Api.email_connectGmail
              (mkResponse 200
                 (Some (JObj {["authorization_url" := JStr "https://accounts.example/o/oauth2"]})))
              {["authorization_url" := JStr "https://accounts.example/o/oauth2"]}
              Sample.signed_in eq_refl eq_refl)
    as (_ & _ & _ & Hnav).
  destruct (Hnav (or_introl eq_refl) eq_refl) as [Hloc _].
  exact Hloc.
Defined.

(** ** The older wrapper *)

(** X4.  The older wrapper never reads or writes the stored session: each
    call hands one request without an [Authorization] header to [fetch]
    and changes nothing else, and handling an answer, whatever it is, leaves
    the whole world as it was. *)
Theorem legacy_wrapper_leaves_world (c : LegacyApi.call) (f : fetched) (w : World) :
  (∃ rq, LegacyApi.send c w = (with_request rq w, Normal tt)
         ∧ req_headers rq !! "Authorization" = None)
  ∧ (LegacyApi.receive c f w).1 = w.
Proof.
  split.
  - destruct c; cbn [LegacyApi.send]; eexists; (split; [reflexivity|]); reflexivity.
  - destruct f as [|r]; cbn [LegacyApi.receive]; [reflexivity|].
    unfold LegacyApi.handleResponse, response_json.
    destruct (ok r); cbn; destruct (body r) as [[]|]; reflexivity.
Qed.

(** ** Login and the load of the root component *)

Lemma Api_handleResponse_console (r : Response) (w : World) :
  console (Api.handleResponse r w).1 = console w.
Proof.
  unfold Api.handleResponse, response_json.
  destruct (ok r); cbn; [destruct (body r); reflexivity|].
  destruct (status r =? 401); cbn; destruct (body r) as [[]|]; reflexivity.
Qed.

Section Login.
Context `{Engine}.

Lemma get_member_not_nullish (v : jsval) (k : string) :
  not_nullish v → get_member v k = Normal (prop v k).
Proof. intros [Hn Hu]. destruct v; try reflexivity; contradiction. Qed.

Lemma get_member_nullish (v : jsval) (k : string) :
  ¬ not_nullish v → get_member v k = Abrupt TypeError.
Proof.
  intros Hn. destruct v; try reflexivity; exfalso; apply Hn; split; discriminate.
Qed.

Lemma classic_nullish (v : jsval) : not_nullish v ∨ ¬ not_nullish v.
Proof.
  destruct v; try (left; split; discriminate); right; intros [Hn Hu]; contradiction.
Qed.

Ltac login_cases :=
  first [ reflexivity
        | apply lookup_insert_ne; discriminate
        | intros; contradiction
        | intros; discriminate
        | intros; repeat split; reflexivity
        | eexists; repeat split; reflexivity
        | intros; split; [reflexivity|]; eexists; repeat split; reflexivity ].

(** X5.  [handleLogin] never throws and never touches the stored token.  It
    puts the value it is given in the state as the user, marks the session
    authenticated, selects the dashboard and stores the serialised value
    under [user].  It then requests the applications of the user exactly when
    the value has a truthy [id]; a value that is [null] or [undefined] leaves
    the session authenticated all the same, with one line on the console. *)
Theorem login_sets_session (userData : jsval) (w : World) :
  let done := (App.handleLogin userData w).1 in
  (App.handleLogin userData w).2 = Normal tt
  ∧ user done = userData
  ∧ isAuthenticated done = true
  ∧ currentPage done = "dashboard"
  ∧ localStorage done = <["user" := JSON_stringify userData]> (localStorage w)
  ∧ localStorage done !! "auth_token" = localStorage w !! "auth_token"
  ∧ location done = location w
  ∧ applications done = applications w
  ∧ (not_nullish userData → truthy (prop userData "id") = true →
       isLoading done = true
       ∧ ∃ rq, outbox done = outbox w ++ [rq]
               ∧ req_method rq = GET
               ∧ req_url rq = API_BASE_URL +:+ "/applications?user_id="
                              +:+ String_of (prop userData "id"))
  ∧ (not_nullish userData → truthy (prop userData "id") = false →
       isLoading done = isLoading w ∧ outbox done = outbox w ∧ console done = console w)
  ∧ (¬ not_nullish userData →
       isLoading done = isLoading w ∧ outbox done = outbox w
       ∧ console done = console w ++ ["Login error:"]).
Proof.
  cbv zeta. unfold App.handleLogin, try_catch, member, lift.
  destruct (classic_nullish userData) as [Hv | Hv].
  - rewrite (get_member_not_nullish _ _ Hv). world_simpl.
    destruct (truthy (prop userData "id")) eqn:Hid.
    + unfold App.loadApplications_start, Api.send, Api.authenticatedFetch, Api.getToken.
      world_simpl. repeat split; login_cases.
    + world_simpl. repeat split; login_cases.
  - rewrite (get_member_nullish _ _ Hv). world_simpl. repeat split; login_cases.
Qed.

(** X6.  The load of the root component never throws and always ends with
    the loading flag down.  A good answer replaces the cache by its body,
    whatever the cache held and whatever the body is; a failed request
    leaves the cache as it was and writes one line on the console. *)
Theorem load_replaces_cache (f : fetched) (w : World) :
  let done := (App.loadApplications_resume f w).1 in
  (App.loadApplications_resume f w).2 = Normal tt
  ∧ isLoading done = false
  ∧ (∀ r v, f = Responded r → ok r = true → body r = Some v →
       applications done = v ∧ console done = console w)
  ∧ (remote_failed f →
       applications done = applications w
       ∧ console done = console w ++ ["Failed to load applications:"]).
Proof.
  cbv zeta. unfold App.loadApplications_resume, try_finally, try_catch.
  unfold mbind, JS_bind.
  destruct f as [|r].
  - cbn [Api.receive]. world_simpl.
    repeat split; try (intros; (discriminate || reflexivity)).
  - cbn [Api.receive].
    destruct (Api_handleResponse_frame r w) as (Happs & _).
    destruct (ok r) eqn:Hok.
    + destruct (body r) as [v|] eqn:Hb.
      * rewrite (proj1 (handleResponse_ok r v w Hok Hb)). world_simpl.
        split; [reflexivity|]. split; [reflexivity|]. split.
        -- intros r' v' [= <-] _ Hb'. rewrite Hb in Hb'. injection Hb' as <-. auto.
        -- intros [Hf | Hf]; congruence.
      * destruct (Api_handleResponse_failed r w (or_intror Hb)) as [e He].
        pose proof (Api_handleResponse_console r w) as Hcon.
        destruct (Api.handleResponse r w) as [w1 c]. cbn [fst snd] in *. subst c.
        world_simpl. split; [reflexivity|]. split; [reflexivity|]. split.
        -- intros r' v' [= <-] _ Hb'. congruence.
        -- intros _. rewrite Hcon. auto.
    + destruct (Api_handleResponse_failed r w (or_introl Hok)) as [e He].
      pose proof (Api_handleResponse_console r w) as Hcon.
      destruct (Api.handleResponse r w) as [w1 c]. cbn [fst snd] in *. subst c.
      world_simpl. split; [reflexivity|]. split; [reflexivity|]. split.
      * intros r' v' [= <-] Hok' _. congruence.
      * intros _. rewrite Hcon. auto.
Qed.

End Login.

Lemma login_sets_session_witness :
  let userData := JObj {["id" := JNum 7; "name" := JStr "Ann"]} in
  let done := (@App.handleLogin ReferenceEngine.engine userData
                 (useState_initial ∅ Sample.home)).1 in
  isLoading done = true
  ∧ ∃ rq, outbox done = outbox (useState_initial ∅ Sample.home) ++ [rq]
          ∧ req_method rq = GET
          ∧ req_url rq = API_BASE_URL +:+ "/applications?user_id="
                         +:+ String_of (prop userData "id").
Proof.
  apply (@login_sets_session ReferenceEngine.engine
           (JObj {["id" := JNum 7; "name" := JStr "Ann"]}) (useState_initial ∅ Sample.home)).
  - split; discriminate.
  - reflexivity.
Defined.

Lemma load_replaces_cache_witness :
  applications
    (App.loadApplications_resume
       (Responded (mkResponse 200 (Some (JArr [Sample.globex])))) Sample.signed_in).1
  = JArr [Sample.globex]
  ∧ applications (App.loadApplications_resume Rejected Sample.signed_in).1
    = applications Sample.signed_in.
Proof.
  split.
  - destruct (load_replaces_cache
                (Responded (mkResponse 200 (Some (JArr [Sample.globex])))) Sample.signed_in)
      as (_ & _ & Hgood & _).
    exact (proj1 (Hgood _ _ eq_refl eq_refl eq_refl)).
  - destruct (load_replaces_cache Rejected Sample.signed_in) as (_ & _ & _ & Hfail).
    exact (proj1 (Hfail I)).
Defined.

(** X7.  A load that was under way when the user logged out is not
    cancelled: when its good answer arrives after [handleLogout], the cache
    that logout had emptied holds the fetched records again, in a session
    that is unauthenticated and has no user. *)
Theorem load_after_logout_refills_cache (r : Response) (v : jsval) (w : World) :
  ok r = true → body r = Some v →
  let logged_out := (App.handleLogout w).1 in
  let done := (App.loadApplications_resume (Responded r) logged_out).1 in
  applications logged_out = JArr []
  ∧ applications done = v
  ∧ isAuthenticated done = false
  ∧ user done = JNull
  ∧ localStorage done !! "auth_token" = None.
Proof.
  intros Hok Hb. cbv zeta.
  rewrite handleLogout_unfold. cbn [fst].
  unfold App.loadApplications_resume, try_finally, try_catch, mbind, JS_bind.
  cbn [Api.receive].
  match goal with |- context [Api.handleResponse r ?w1] =>
    rewrite (proj1 (handleResponse_ok r v w1 Hok Hb)) end.
  world_simpl.
  destruct (session_cleared_lookup (localStorage w)) as [Htok _].
  repeat split. exact Htok.
Qed.

Lemma load_after_logout_refills_cache_witness :
  applications
    (App.loadApplications_resume
       (Responded (mkResponse 200 (Some (JArr [Sample.acme]))))
       (App.handleLogout Sample.signed_in).1).1
  = JArr [Sample.acme].
Proof.
  apply (load_after_logout_refills_cache (mkResponse 200 (Some (JArr [Sample.acme])))
           (JArr [Sample.acme]) Sample.signed_in); reflexivity.
Defined.

(** ** Removing and adding records *)

Lemma record_id_is_not_nullish (id app : jsval) :
  not_nullish app → record_id_is id app = strict_eq (prop app "id") id.
Proof.
  intros Hv. unfold record_id_is. rewrite (get_member_not_nullish _ _ Hv). reflexivity.
Qed.

Lemma deleteUpdater_records (id : jsval) (l : list jsval) :
  Forall not_nullish l →
  App.deleteUpdater id (JArr l)
  = Normal (JArr (List.filter (λ app, negb (record_id_is id app)) l)).
Proof.
  intros Hl. cbn [App.deleteUpdater].
  rewrite (array_filter_pure _ (λ app, negb (record_id_is id app))).
  - reflexivity.
  - intros app Hin. rewrite Forall_forall in Hl.
    rewrite (record_id_is_not_nullish id app (Hl app Hin)).
    rewrite (get_member_not_nullish _ _ (Hl app Hin)). reflexivity.
Qed.

Lemma filter_idem (q : jsval → bool) (l : list jsval) :
  List.filter q (List.filter q l) = List.filter q l.
Proof.
  induction l as [|x l IH]; [reflexivity|].
  cbn. destruct (q x) eqn:Hq; cbn; rewrite ?Hq, IH; reflexivity.
Qed.

Lemma filter_all (q : jsval → bool) (l : list jsval) :
  (∀ x, In x l → q x = true) → List.filter q l = l.
Proof.
  induction l as [|x l IH]; intros Hq; [reflexivity|].
  cbn. rewrite (Hq x (or_introl eq_refl)), IH; [reflexivity|].
  intros y Hy. apply Hq. right. exact Hy.
Qed.

Lemma Forall_filter_kept (P : jsval → Prop) (q : jsval → bool) (l : list jsval) :
  Forall P l → Forall P (List.filter q l).
Proof.
  intros Hl. rewrite Forall_forall in *. intros x Hx.
  apply Hl. apply list_elem_of_In. apply list_elem_of_In in Hx.
  apply filter_In in Hx. tauto.
Qed.

(** X8.  On a cache of records, [remove(id)] keeps exactly the records whose
    id is not [id], in their order: all records with the id go at once, the
    cache is unchanged when none has it, and a second removal of the same id
    changes nothing. *)
Theorem remove_drops_matching_records (w : World) (l : list jsval) (id : jsval) :
  applications w = JArr l → Forall not_nullish l →
  let kept := List.filter (λ app, negb (record_id_is id app)) l in
  let done := (App.handleDeleteApplication id w).1 in
  applications done = JArr kept
  ∧ (∀ app, In app kept ↔ In app l ∧ record_id_is id app = false)
  ∧ applications (App.handleDeleteApplication id done).1 = applications done
  ∧ ((∀ app, In app l → record_id_is id app = false) → applications done = JArr l).
Proof.
  intros Hw Hl. cbv zeta.
  assert (Hdone : applications (App.handleDeleteApplication id w).1
                  = JArr (List.filter (λ app, negb (record_id_is id app)) l)).
  { unfold App.handleDeleteApplication.
    rewrite setApplications_with_applications, Hw, deleteUpdater_records by exact Hl.
    reflexivity. }
  split; [exact Hdone|]. split; [|split].
  - intros app. rewrite filter_In, negb_true_iff. reflexivity.
  - unfold App.handleDeleteApplication at 1.
    rewrite setApplications_with_applications, Hdone.
    rewrite deleteUpdater_records by (apply Forall_filter_kept; exact Hl).
    rewrite filter_idem. reflexivity.
  - intros Hnone. rewrite Hdone. f_equal. apply filter_all.
    intros app Hin. rewrite (Hnone app Hin). reflexivity.
Qed.

Lemma remove_drops_matching_records_witness :
  applications (App.handleDeleteApplication (JNum 1) Sample.signed_in).1
  = JArr (List.filter (λ app, negb (record_id_is (JNum 1) app)) [Sample.acme; Sample.globex]).
Proof.
  apply (remove_drops_matching_records Sample.signed_in [Sample.acme; Sample.globex] (JNum 1)
           eq_refl).
  repeat constructor; discriminate.
Defined.

Lemma newApp_lookup (now : Z) (created updated : string) (appData : jsval) (k : string) :
  own_props (App.newApp now created updated appData) !! k =
  if decide (k = "updated_at") then Some (JStr updated)
  else if decide (k = "created_at") then Some (JStr created)
  else match own_props appData !! k with
       | Some v => Some v
       | None => if decide (k = "id") then Some (JNum now) else None
       end.
Proof.
  unfold App.newApp. cbn [own_props].
  rewrite !lookup_insert. repeat case_decide; try congruence.
  - rewrite lookup_union. subst k.
    destruct (own_props appData !! "id"); rewrite lookup_singleton_eq; reflexivity.
  - rewrite lookup_union, lookup_singleton_ne by congruence.
    destruct (own_props appData !! k); reflexivity.
Qed.

(** X9.  [add(appData)] puts one new record in front of a cache that is a
    list and leaves the records behind it as they are.  The new record has
    the members of [appData], except that [created_at] and [updated_at] are
    always the current time, and its [id] is the one of [appData] when there
    is one and [Date.now()] otherwise.  When the cache is not iterable the
    cache is left alone and the error is left for the next render. *)
Theorem add_prepends_stamped_record (now : Z) (created updated : string) (appData : jsval)
    (w : World) :
  let done := (App.handleAddApplication now created updated appData w).1 in
  (∀ l, applications w = JArr l →
     applications done = JArr (App.newApp now created updated appData :: l)
     ∧ renderError done = renderError w)
  ∧ (∀ k, own_props (App.newApp now created updated appData) !! k =
          if decide (k = "updated_at") then Some (JStr updated)
          else if decide (k = "created_at") then Some (JStr created)
          else match own_props appData !! k with
               | Some v => Some v
               | None => if decide (k = "id") then Some (JNum now) else None
               end)
  ∧ (∀ e, iterate (applications w) = Abrupt e →
       applications done = applications w ∧ renderError done = Some e).
Proof.
  cbv zeta. unfold App.handleAddApplication, setApplications_with, App.addUpdater.
  world_simpl. split; [|split].
  - intros l Hw. rewrite Hw. cbn. auto.
  - apply newApp_lookup.
  - intros e He. rewrite He. cbn. auto.
Qed.

Lemma add_prepends_stamped_record_witness :
  applications
    (App.handleAddApplication 1700000000000 Sample.later Sample.later Sample.form_data
       Sample.signed_in).1
  = JArr [App.newApp 1700000000000 Sample.later Sample.later Sample.form_data;
          Sample.acme; Sample.globex].
Proof.
  apply (add_prepends_stamped_record 1700000000000 Sample.later Sample.later Sample.form_data
           Sample.signed_in). reflexivity.
Defined.

(** ** The applications page: load, add, remove *)

Section PageFlows.
Variable api : ApplicationsAPI.
Hypothesis api_revision : api = Api.applicationsAPI ∨ api = LegacyApi.applicationsAPI.

Lemma page_receive_ok (r : Response) (v : jsval) (w : World) :
  ok r = true → body r = Some v →
  getAll_receive api (Responded r) w = (w, Normal v)
  ∧ add_receive api (Responded r) w = (w, Normal v)
  ∧ delete_receive api (Responded r) w = (w, Normal v).
Proof.
  intros Hok Hb. destruct (handleResponse_ok r v w Hok Hb) as [Ha Hl].
  destruct api_revision as [-> | ->]; repeat split; assumption.
Qed.

Lemma page_receive_failed (f : fetched) (w : World) :
  remote_failed f →
  (∃ e, (getAll_receive api f w).2 = Abrupt e)
  ∧ (∃ e, (add_receive api f w).2 = Abrupt e)
  ∧ (∃ e, (delete_receive api f w).2 = Abrupt e).
Proof.
  intros Hf. destruct api_revision as [-> | ->]; destruct f as [|r]; cbn;
    repeat split; eauto;
    first [apply Api_handleResponse_failed, Hf | apply Legacy_handleResponse_failed, Hf].
Qed.

Lemma page_receive_frame (f : fetched) (w : World) :
  same_components w (getAll_receive api f w).1
  ∧ same_components w (add_receive api f w).1
  ∧ same_components w (delete_receive api f w).1.
Proof.
  destruct api_revision as [-> | ->]; destruct f as [|r]; cbn;
    repeat split; try reflexivity;
    first [apply Api_handleResponse_frame | apply Legacy_handleResponse_frame].
Qed.

Lemma page_send_frame (w : World) :
  (∀ u, ∃ rq, getAll_send api u w = (with_request rq w, Normal tt)
              ∧ req_method rq = GET
              ∧ req_url rq = API_BASE_URL +:+ "/applications?user_id=" +:+ String_of u)
  ∧ (∀ d, ∃ rq, add_send api d w = (with_request rq w, Normal tt)
                ∧ req_method rq = POST ∧ req_body rq = Some d)
  ∧ (∀ i, ∃ rq, delete_send api i w = (with_request rq w, Normal tt)
                ∧ req_method rq = DELETE
                ∧ req_url rq = API_BASE_URL +:+ "/applications/" +:+ String_of i).
Proof.
  destruct api_revision as [-> | ->];
    cbn [getAll_send add_send delete_send Api.applicationsAPI LegacyApi.applicationsAPI
         Api.send LegacyApi.send];
    repeat split; intros; rewrite ?authenticatedFetch_request;
    eexists; repeat split; reflexivity.
Qed.

Lemma forEach_prepends (clock : ApplicationsPage.Clock) (records : list jsval) :
  ∀ (i : nat) (w : World) (l : list jsval),
    applications w = JArr l →
    let out := ApplicationsPage.forEach_onAddApplication clock i records w in
    out.2 = Normal tt
    ∧ applications out.1 = JArr (rev (stamped clock i records) ++ l)
    ∧ pageLoading out.1 = pageLoading w
    ∧ pageError out.1 = pageError w.
Proof.
  induction records as [|r records IH]; intros i w l Hw; cbv zeta.
  - cbn. auto.
  - cbn [ApplicationsPage.forEach_onAddApplication stamped].
    destruct (clock i) as [[now created] updated]. cbn [fst snd].
    unfold mbind, JS_bind.
    unfold App.handleAddApplication, setApplications_with, App.addUpdater.
    world_simpl. rewrite Hw. cbn [iterate mbind completion_bind mret completion_ret].
    world_simpl.
    match goal with |- context [ApplicationsPage.forEach_onAddApplication clock (S i) records ?w1] =>
      destruct (IH (S i) w1 (App.newApp now created updated r :: l) eq_refl)
        as (Hn & Ha & Hl & He)
    end.
    rewrite Hn, Ha, Hl, He. cbn [rev]. rewrite <- app_assoc. cbn. auto.
Qed.

(** X10.  The load of the applications page, with either wrapper.  Without
    a user id it does nothing.  Otherwise it raises the loading flag, clears
    the error and requests the applications of the user.  A good answer that
    is a list is put in front of the records already in the cache, each
    fetched record stamped as a new one, the record fetched last first; a
    failed request, or a good answer that is not a list, leaves the cache as
    it was and sets an error text.  The loading flag is down at the end. *)
Theorem page_load_prepends_fetched_records (clock : ApplicationsPage.Clock) (user : jsval)
    (w : World) :
  (truthy (member_opt user "id") = false →
     ApplicationsPage.loadApplications_start api user w = (w, Normal tt))
  ∧ (truthy (member_opt user "id") = true →
       let started := (ApplicationsPage.loadApplications_start api user w).1 in
       pageLoading started = true ∧ pageError started = Lit ""
       ∧ applications started = applications w
       ∧ ∃ rq, outbox started = outbox w ++ [rq] ∧ req_method rq = GET
               ∧ req_url rq = API_BASE_URL +:+ "/applications?user_id="
                              +:+ String_of (member_opt user "id"))
  ∧ (∀ r records l, ok r = true → body r = Some (JArr records) → applications w = JArr l →
       let done := (ApplicationsPage.loadApplications_resume api clock (Responded r) w).1 in
       applications done = JArr (rev (stamped clock 0 records) ++ l)
       ∧ pageLoading done = false ∧ pageError done = pageError w)
  ∧ (∀ r v, ok r = true → body r = Some v → (∀ records, v ≠ JArr records) →
       let done := (ApplicationsPage.loadApplications_resume api clock (Responded r) w).1 in
       applications done = applications w
       ∧ pageLoading done = false
       ∧ pageError done = Failed "Failed to load applications: " TypeError)
  ∧ (∀ f, remote_failed f →
       let done := (ApplicationsPage.loadApplications_resume api clock f w).1 in
       applications done = applications w
       ∧ pageLoading done = false
       ∧ ∃ e, pageError done = Failed "Failed to load applications: " e).
Proof.
  split; [|split; [|split; [|split]]].
  - intros Hid. unfold ApplicationsPage.loadApplications_start. rewrite Hid. reflexivity.
  - intros Hid. cbv zeta. unfold ApplicationsPage.loadApplications_start. rewrite Hid.
    cbn [negb]. world_simpl.
    match goal with |- context [getAll_send api ?u ?w1] =>
      destruct (proj1 (page_send_frame w1) u) as (rq & Hsend & Hm & Hu)
    end.
    rewrite Hsend. cbn [fst with_request pageLoading pageError applications outbox].
    repeat split. eauto.
  - intros r records l Hok Hb Hw. cbv zeta.
    unfold ApplicationsPage.loadApplications_resume, try_finally, try_catch, mbind, JS_bind.
    rewrite (proj1 (page_receive_ok r (JArr records) w Hok Hb)).
    destruct (forEach_prepends clock records 0%nat w l Hw) as (Hn & Ha & Hl & He).
    destruct (ApplicationsPage.forEach_onAddApplication clock 0 records w) as [w1 c].
    cbn [fst snd] in *. subst c. world_simpl. auto.
  - intros r v Hok Hb Hv. cbv zeta.
    unfold ApplicationsPage.loadApplications_resume, try_finally, try_catch, mbind, JS_bind.
    rewrite (proj1 (page_receive_ok r v w Hok Hb)).
    destruct v; try (world_simpl; auto; fail).
    exfalso. eapply Hv. reflexivity.
  - intros f Hf. cbv zeta.
    unfold ApplicationsPage.loadApplications_resume, try_finally, try_catch, mbind, JS_bind.
    destruct (proj1 (page_receive_failed f w Hf)) as [e He].
    destruct (proj1 (page_receive_frame f w)) as (Ha & _).
    destruct (getAll_receive api f w) as [w1 c]. cbn [fst snd] in *. subst c.
    world_simpl. eauto.
Qed.

(** X11.  Adding through the applications page, with either wrapper.
    Without a user id nothing is sent.  Otherwise the form data goes to the
    service with the [user_id] of the user, unless the form data has a
    [user_id] of its own.  When the request resolves to an object, its
    [application] member is added in front of the cache (a missing member
    adds a record that has only the time stamps and a fresh id); when the
    request fails, the cache is left as it was and an error text is set. *)
Theorem page_add_follows_remote_success (user appData : jsval) (now : Z)
    (created updated : string) (w : World) :
  (truthy (member_opt user "id") = false →
     ApplicationsPage.handleAddApplication_start api user appData w = (w, Normal tt))
  ∧ (truthy (member_opt user "id") = true →
       let started := (ApplicationsPage.handleAddApplication_start api user appData w).1 in
       pageLoading started = true ∧ applications started = applications w
       ∧ ∃ rq o, outbox started = outbox w ++ [rq] ∧ req_method rq = POST
                 ∧ req_body rq = Some (JObj o)
                 ∧ (∀ k, k ≠ "user_id" → o !! k = own_props appData !! k)
                 ∧ o !! "user_id" = Some (default (member_opt user "id")
                                            (own_props appData !! "user_id")))
  ∧ (∀ r o l, ok r = true → body r = Some (JObj o) → applications w = JArr l →
       let done := (ApplicationsPage.handleAddApplication_resume api now created updated
                      (Responded r) w).1 in
       applications done
       = JArr (App.newApp now created updated (default JUndefined (o !! "application")) :: l)
       ∧ pageLoading done = false ∧ pageError done = pageError w)
  ∧ (∀ f, remote_failed f →
       let done := (ApplicationsPage.handleAddApplication_resume api now created updated
                      f w).1 in
       applications done = applications w
       ∧ pageLoading done = false
       ∧ ∃ e, pageError done = Failed "Failed to add application: " e).
Proof.
  split; [|split; [|split]].
  - intros Hid. unfold ApplicationsPage.handleAddApplication_start. rewrite Hid. reflexivity.
  - intros Hid. cbv zeta. unfold ApplicationsPage.handleAddApplication_start. rewrite Hid.
    cbn [negb]. world_simpl.
    match goal with |- context [add_send api ?d ?w1] =>
      destruct (proj1 (proj2 (page_send_frame w1)) d) as (rq & Hsend & Hm & Hb)
    end.
    rewrite Hsend. cbn [fst with_request pageLoading applications outbox].
    split; [reflexivity|]. split; [reflexivity|].
    eexists rq, _. split; [reflexivity|]. split; [exact Hm|]. split; [exact Hb|]. split.
    + intros k Hk. rewrite lookup_union, lookup_singleton_ne by congruence.
      destruct (own_props appData !! k); reflexivity.
    + rewrite lookup_union, lookup_singleton_eq.
      destruct (own_props appData !! "user_id"); reflexivity.
  - intros r o l Hok Hb Hw. cbv zeta.
    unfold ApplicationsPage.handleAddApplication_resume, try_finally, try_catch, mbind, JS_bind.
    rewrite (proj1 (proj2 (page_receive_ok r (JObj o) w Hok Hb))).
    unfold member, lift, get_member, prop. cbn [own_props].
    unfold App.handleAddApplication, setApplications_with, App.addUpdater.
    world_simpl. rewrite Hw. cbn [iterate mbind completion_bind mret completion_ret].
    world_simpl. auto.
  - intros f Hf. cbv zeta.
    unfold ApplicationsPage.handleAddApplication_resume, try_finally, try_catch, mbind, JS_bind.
    destruct (proj1 (proj2 (page_receive_failed f w Hf))) as [e He].
    destruct (proj1 (proj2 (page_receive_frame f w))) as (Ha & _).
    destruct (add_receive api f w) as [w1 c]. cbn [fst snd] in *. subst c.
    world_simpl. eauto.
Qed.

(** X12.  Removing through the applications page, with either wrapper: the
    call only sends the DELETE request; the record leaves the cache when the
    request has resolved, and a failed request leaves the cache as it was
    and sets an error text. *)
Theorem page_remove_follows_remote_success (id : jsval) (w : World) :
  (let started := (ApplicationsPage.handleDeleteApplication_start api id w).1 in
   applications started = applications w ∧ pageLoading started = true
   ∧ ∃ rq, outbox started = outbox w ++ [rq] ∧ req_method rq = DELETE
           ∧ req_url rq = API_BASE_URL +:+ "/applications/" +:+ String_of id)
  ∧ (∀ r v, ok r = true → body r = Some v →
       let done := (ApplicationsPage.handleDeleteApplication_resume api id
                      (Responded r) w).1 in
       applications done = applications (App.handleDeleteApplication id w).1
       ∧ pageLoading done = false ∧ pageError done = pageError w)
  ∧ (∀ f, remote_failed f →
       let done := (ApplicationsPage.handleDeleteApplication_resume api id f w).1 in
       applications done = applications w
       ∧ pageLoading done = false
       ∧ ∃ e, pageError done = Failed "Failed to delete application: " e).
Proof.
  split; [|split].
  - cbv zeta. unfold ApplicationsPage.handleDeleteApplication_start. world_simpl.
    match goal with |- context [delete_send api id ?w1] =>
      destruct (proj2 (proj2 (page_send_frame w1)) id) as (rq & Hsend & Hm & Hu)
    end.
    rewrite Hsend. cbn [fst with_request pageLoading applications outbox].
    repeat split. eauto.
  - intros r v Hok Hb. cbv zeta.
    unfold ApplicationsPage.handleDeleteApplication_resume, try_finally, try_catch,
      mbind, JS_bind.
    rewrite (proj2 (proj2 (page_receive_ok r v w Hok Hb))).
    unfold App.handleDeleteApplication, setApplications_with. world_simpl.
    destruct (App.deleteUpdater id (applications w)); world_simpl; auto.
  - intros f Hf. cbv zeta.
    unfold ApplicationsPage.handleDeleteApplication_resume, try_finally, try_catch,
      mbind, JS_bind.
    destruct (proj2 (proj2 (page_receive_failed f w Hf))) as [e He].
    destruct (proj2 (proj2 (page_receive_frame f w))) as (Ha & _).
    destruct (delete_receive api f w) as [w1 c]. cbn [fst snd] in *. subst c.
    world_simpl. eauto.
Qed.

End PageFlows.

Lemma page_load_prepends_fetched_records_witness :
  applications
    (ApplicationsPage.loadApplications_resume LegacyApi.applicationsAPI Sample.clock
       (Responded (mkResponse 200 (Some (JArr [Sample.acme; Sample.globex]))))
       (useState_initial ∅ Sample.home)).1
  = JArr (rev (stamped Sample.clock 0 [Sample.acme; Sample.globex]) ++ []).
Proof.
  destruct (page_load_prepends_fetched_records LegacyApi.applicationsAPI (or_intror eq_refl)
              Sample.clock JNull (useState_initial ∅ Sample.home))
    as (_ & _ & Hgood & _).
  exact (proj1 (Hgood (mkResponse 200 (Some (JArr [Sample.acme; Sample.globex])))
                  [Sample.acme; Sample.globex] [] eq_refl eq_refl eq_refl)).
Defined.

Lemma page_add_follows_remote_success_witness :
  applications
    (ApplicationsPage.handleAddApplication_resume Api.applicationsAPI 1700000000000
       Sample.later Sample.later Rejected Sample.signed_in).1
  = applications Sample.signed_in.
Proof.
  destruct (page_add_follows_remote_success Api.applicationsAPI (or_introl eq_refl)
              JNull JNull 1700000000000 Sample.later Sample.later Sample.signed_in)
    as (_ & _ & _ & Hfail).
  exact (proj1 (Hfail Rejected I)).
Defined.

Lemma page_remove_follows_remote_success_witness :
  applications
    (ApplicationsPage.handleDeleteApplication_resume Api.applicationsAPI (JNum 1) Rejected
       Sample.signed_in).1
  = applications Sample.signed_in.
Proof.
  destruct (page_remove_follows_remote_success Api.applicationsAPI (or_introl eq_refl)
              (JNum 1) Sample.signed_in)
    as (_ & _ & Hfail).
  exact (proj1 (Hfail Rejected I)).
Defined.

(** ** The token exchange, when it does not succeed *)

Lemma Api_receive_failed (c : Api.call) (f : fetched) (w : World) :
  remote_failed f → ∃ e, (Api.receive c f w).2 = Abrupt e.
Proof.
  intros Hf. destruct f as [|r]; [cbn; eauto|].
  destruct (Api_handleResponse_failed r w Hf) as [e He].
  exists e. destruct c; cbn [Api.receive]; try exact He.
  all: unfold mbind, JS_bind; destruct (Api.handleResponse r w) as [w1 c];
    cbn [snd] in He; subst c; reflexivity.
Qed.

Lemma Api_receive_failed_world (c : Api.call) (f : fetched) (w : World) :
  remote_failed f →
  (Api.receive c f w).1 = match f with
                          | Rejected => w
                          | Responded r => (Api.handleResponse r w).1
                          end.
Proof.
  intros Hf. destruct f as [|r]; [reflexivity|].
  destruct (Api_handleResponse_failed r w Hf) as [e He].
  destruct c; cbn [Api.receive]; try reflexivity.
  all: unfold mbind, JS_bind; destruct (Api.handleResponse r w) as [w1 c0];
    cbn [snd] in He; subst c0; reflexivity.
Qed.

Lemma Api_handleResponse_state (r : Response) (w : World) :
  let w1 := (Api.handleResponse r w).1 in
  isAuthenticated w1 = isAuthenticated w ∧ user w1 = user w
  ∧ currentPage w1 = currentPage w ∧ callbackError w1 = callbackError w
  ∧ console w1 = console w
  ∧ (status r ≠ 401 → w1 = w).
Proof.
  cbv zeta. unfold Api.handleResponse, response_json.
  destruct (ok r); cbn; [destruct (body r); repeat split; reflexivity|].
  destruct (status r =? 401) eqn:Hs; cbn; destruct (body r) as [[]|]; cbn;
    repeat split; intros Hne; try reflexivity; apply Z.eqb_eq in Hs; contradiction.
Qed.

Section FailedExchange.
Context `{Engine}.

(** X13.  The token exchange, when it does not succeed.  On an address
    without both parameters the callback effect stores nothing, sends
    nothing and shows "Missing authentication token".  When the profile
    request fails, [onLogin] is not called whatever it is: the session, the
    user and the page stay as they were, the address keeps its query string
    unless the status was 401, the view shows "Failed to load user profile",
    and, unless the status was 401, the token stored at the start of the
    exchange stays in storage. *)
Theorem failed_exchange_reports_error (onLogin : jsval → JS unit) (w : World) :
  (carries_token_exchange (location w) = false →
     let started := (OAuthCallback.effect_start w).1 in
     callbackError started = "Missing authentication token"
     ∧ localStorage started = localStorage w ∧ outbox started = outbox w)
  ∧ (∀ f, remote_failed f →
       let done := (OAuthCallback.effect_resume onLogin f w).1 in
       (OAuthCallback.effect_resume onLogin f w).2 = Normal tt
       ∧ callbackError done = "Failed to load user profile"
       ∧ isAuthenticated done = isAuthenticated w
       ∧ user done = user w
       ∧ currentPage done = currentPage w
       ∧ console done = console w ++ [""]
       ∧ ((f = Rejected ∨ ∃ r, f = Responded r ∧ status r ≠ 401) →
          localStorage done = localStorage w ∧ location done = location w
          ∧ reloads done = reloads w)).
Proof.
  split.
  - intros Hc. cbv zeta. unfold OAuthCallback.effect_start.
    unfold carries_token_exchange in Hc. world_simpl. rewrite Hc. world_simpl. auto.
  - intros f Hf. cbv zeta.
    unfold OAuthCallback.effect_resume, try_catch, mbind, JS_bind.
    destruct (Api_receive_failed (Api.user_getProfile JUndefined) f w Hf) as [e He].
    pose proof (Api_receive_failed_world (Api.user_getProfile JUndefined) f w Hf) as Hw.
    destruct (Api.receive (Api.user_getProfile JUndefined) f w) as [w1 c].
    cbn [fst snd] in *. subst c. world_simpl.
    destruct f as [|r].
    + subst w1. do 6 (split; [reflexivity|]). auto.
    + subst w1. destruct (Api_handleResponse_state r w) as (Ha & Hu & Hp & Hc & Hcon & Hsame).
      rewrite Ha, Hu, Hp, Hcon.
      do 6 (split; [reflexivity|]).
      intros [Hr | (r' & [= <-] & Hs)]; [discriminate|].
      rewrite (Hsame Hs). auto.
Qed.

End FailedExchange.

Lemma failed_exchange_reports_error_witness :
  let started := (OAuthCallback.effect_start (useState_initial ∅ Sample.callback_address)).1 in
  let done := (@OAuthCallback.effect_resume ReferenceEngine.engine
                 (@App.handleLogin ReferenceEngine.engine)
                 (Responded (mkResponse 500 None)) started).1 in
  isAuthenticated done = false
  ∧ localStorage done !! "auth_token" = Some "t0k3n"
  ∧ callbackError done = "Failed to load user profile".
Proof.
  destruct (@failed_exchange_reports_error ReferenceEngine.engine
              (@App.handleLogin ReferenceEngine.engine)
              (OAuthCallback.effect_start (useState_initial ∅ Sample.callback_address)).1)
    as [_ Hfail].
  destruct (Hfail (Responded (mkResponse 500 None)) (or_introl eq_refl))
    as (_ & Herr & Hauth & _ & _ & _ & Hkeep).
  assert (Hcase : Responded (mkResponse 500 None) = Rejected
                  ∨ ∃ r, Responded (mkResponse 500 None) = Responded r ∧ status r ≠ 401)
    by (right; eexists; split; [reflexivity | discriminate]).
  destruct (Hkeep Hcase) as (Hls & _).
  cbv zeta. split; [exact Hauth|]. split; [|exact Herr].
  rewrite Hls. vm_compute. reflexivity.
Defined.

(** ** The registration form *)

Lemma Api_receive_ok_plain (c : Api.call) (r : Response) (v : jsval) (w : World) :
  ok r = true → body r = Some v →
  c ≠ Api.email_connectGmail → c ≠ Api.email_connectMicrosoft →
  Api.receive c (Responded r) w = (w, Normal v).
Proof.
  intros Hok Hb Hg Hm. destruct (handleResponse_ok r v w Hok Hb) as [Hr _].
  destruct c; cbn [Api.receive]; try exact Hr; contradiction.
Qed.

Section Registration.
Context `{Engine}.

Lemma handleLogin_requests (o : gmap string jsval) (w : World) :
  truthy (prop (JObj o) "id") = true →
  ∃ rq, outbox (App.handleLogin (JObj o) w).1 = outbox w ++ [rq]
        ∧ req_url rq = API_BASE_URL +:+ "/applications?user_id="
                       +:+ String_of (prop (JObj o) "id").
Proof.
  intros Hid. unfold App.handleLogin, try_catch, member, lift, get_member.
  world_simpl. rewrite Hid.
  unfold App.loadApplications_start, Api.send, Api.authenticatedFetch, Api.getToken.
  world_simpl. eexists. split; reflexivity.
Qed.

(** X14.  Submitting the registration form.  The request carries the name
    of the form as [username], with the email and the password.  When it
    resolves, the answer is not read: the session is logged in as the
    identity with the id 1 and the name and email of the form, and the
    applications of the user 1 are requested.  When it fails, nobody is
    logged in and the form shows the message of the error, or
    "Registration failed. Please try again." when that message is empty.
    The loading flag of the form is down at the end. *)
Theorem registration_logs_in_as_user_1 (st : Register.State) (w : World) :
  (∃ rq, (Register.handleSubmit_start st w).1 = with_request rq w
         ∧ req_method rq = POST
         ∧ req_url rq = API_BASE_URL +:+ "/auth/register"
         ∧ req_body rq = Some (JObj {["username" := prop (Register.formData st) "name";
                                      "email" := prop (Register.formData st) "email";
                                      "password" := prop (Register.formData st) "password"]})
         ∧ req_headers rq !! "Authorization" = None)
  ∧ (∀ r v, ok r = true → body r = Some v →
       let out := Register.handleSubmit_resume App.handleLogin st (Responded r) w in
       out.2 = Normal {| Register.formData := Register.formData st;
                         Register.error := Register.error st;
                         Register.isLoading := false;
                         Register.isOAuthLoading := Register.isOAuthLoading st |}
       ∧ isAuthenticated out.1 = true
       ∧ currentPage out.1 = "dashboard"
       ∧ user out.1 = JObj {["id" := JNum 1;
                             "name" := prop (Register.formData st) "name";
                             "email" := prop (Register.formData st) "email"]}
       ∧ ∃ rq, outbox out.1 = outbox w ++ [rq]
               ∧ req_url rq = API_BASE_URL +:+ "/applications?user_id=1")
  ∧ (∀ f, remote_failed f →
       let out := Register.handleSubmit_resume App.handleLogin st f w in
       isAuthenticated out.1 = isAuthenticated w
       ∧ user out.1 = user w
       ∧ outbox out.1 = outbox w
       ∧ ∃ e, out.2 = Normal {| Register.formData := Register.formData st;
                                Register.error :=
                                  message_or e "Registration failed. Please try again.";
                                Register.isLoading := false;
                                Register.isOAuthLoading := Register.isOAuthLoading st |}).
Proof.
  split; [|split].
  - unfold Register.handleSubmit_start. cbn [Api.send]. world_simpl.
    eexists. repeat split.
  - intros r v Hok Hb. cbv zeta.
    unfold Register.handleSubmit_resume, try_catch, mbind, JS_bind.
    rewrite (Api_receive_ok_plain _ r v w Hok Hb) by discriminate.
    match goal with |- context [App.handleLogin (JObj ?o) w] =>
      destruct (handleLogin_object o w) as (Hn & Hu & Ha & Hp & _);
      destruct (handleLogin_requests o w) as (rq & Hout & Hurl);
        [unfold prop; cbn [own_props]; rewrite lookup_insert_eq; reflexivity|];
      assert (Hone : String_of (prop (JObj o) "id") = "1")
        by (unfold prop; cbn [own_props]; rewrite lookup_insert_eq; reflexivity);
      rewrite Hone in Hurl;
      destruct (App.handleLogin (JObj o) w) as [w1 c]
    end.
    cbn [fst snd] in *. subst c. cbn [fst snd mret JS_ret Register.formData Register.error
                                      Register.isLoading Register.isOAuthLoading].
    split; [reflexivity|]. split; [exact Ha|]. split; [exact Hp|]. split; [exact Hu|].
    exists rq. split; [exact Hout | exact Hurl].
  - intros f Hf. cbv zeta.
    unfold Register.handleSubmit_resume, try_catch, mbind, JS_bind.
    destruct (Api_receive_failed (Api.auth_register JUndefined) f w Hf) as [e He].
    pose proof (Api_receive_failed_world (Api.auth_register JUndefined) f w Hf) as Hw.
    destruct (Api.receive (Api.auth_register JUndefined) f w) as [w1 c].
    cbn [fst snd] in *. subst c.
    cbn [fst snd mret JS_ret Register.formData Register.error
         Register.isLoading Register.isOAuthLoading].
    assert (Hsame : isAuthenticated w1 = isAuthenticated w ∧ user w1 = user w
                    ∧ outbox w1 = outbox w).
    { subst w1. destruct f as [|r]; [auto|].
      destruct (Api_handleResponse_state r w) as (Ha & Hu & _).
      destruct (Api_handleResponse_frame r w) as (_ & _ & _ & Hout). auto. }
    destruct Hsame as (Ha & Hu & Hout). repeat split; try assumption. eauto.
Qed.

End Registration.

Lemma registration_logs_in_as_user_1_witness :
  let st := Register.handleChange "name" "Ann" Register.initial in
  let out := Register.handleSubmit_resume (@App.handleLogin ReferenceEngine.engine) st
               (Responded (mkResponse 201 (Some (JObj {["id" := JNum 42]}))))
               (useState_initial ∅ Sample.home) in
  prop (user out.1) "id" = JNum 1
  ∧ prop (user out.1) "name" = JStr "Ann".
Proof.
  destruct (@registration_logs_in_as_user_1 ReferenceEngine.engine
              (Register.handleChange "name" "Ann" Register.initial)
              (useState_initial ∅ Sample.home))
    as (_ & Hgood & _).
  destruct (Hgood (mkResponse 201 (Some (JObj {["id" := JNum 42]})))
              (JObj {["id" := JNum 42]}) eq_refl eq_refl)
    as (_ & _ & _ & Huser & _).
  cbv zeta. rewrite Huser. vm_compute. split; reflexivity.
Defined.

(** X15.  Signing up through Google or Microsoft.  A good answer sends the
    browser to its [authorization_url] and leaves the form as it is, with the
    provider buttons still disabled; an answer without that member sends it
    to the address "undefined".  A failed request changes no address of its
    own, shows the message of the error (or the fallback text of the
    provider) and enables the buttons again. *)
Theorem provider_login_leaves_for_provider (c : Api.call) (fallback : string)
    (st : Register.State) (w : World) :
  (c = Api.auth_getGoogleAuthUrl ∧ fallback = "Failed to initiate Google login")
  ∨ (c = Api.auth_getMicrosoftAuthUrl ∧ fallback = "Failed to initiate Microsoft login") →
  ((Register.handleOAuthLogin_start c st w).2
   = Normal {| Register.formData := Register.formData st; Register.error := Lit "";
               Register.isLoading := Register.isLoading st;
               Register.isOAuthLoading := true |})
  ∧ (∀ r data, ok r = true → body r = Some (JObj data) →
       let out := Register.handleOAuthLogin_resume c fallback st (Responded r) w in
       out.2 = Normal st
       ∧ location out.1
         = mkLocation (String_of (default JUndefined (data !! "authorization_url"))) []
       ∧ reloads out.1 = S (reloads w)
       ∧ (data !! "authorization_url" = None → location out.1 = mkLocation "undefined" []))
  ∧ (∀ f, remote_failed f →
       let out := Register.handleOAuthLogin_resume c fallback st f w in
       (∃ e, out.2 = Normal {| Register.formData := Register.formData st;
                               Register.error := message_or e fallback;
                               Register.isLoading := Register.isLoading st;
                               Register.isOAuthLoading := false |})
       ∧ (f = Rejected → out.1 = w)).
Proof.
  intros Hc. split; [|split].
  - destruct Hc as [[-> _] | [-> _]]; reflexivity.
  - intros r data Hok Hb. cbv zeta.
    unfold Register.handleOAuthLogin_resume, try_catch, mbind, JS_bind.
    rewrite (Api_receive_ok_plain c r (JObj data) w Hok Hb)
      by (destruct Hc as [[-> _] | [-> _]]; discriminate).
    unfold member, lift, get_member, prop. cbn [own_props]. world_simpl.
    repeat split. intros ->. reflexivity.
  - intros f Hf. cbv zeta.
    unfold Register.handleOAuthLogin_resume, try_catch, mbind, JS_bind.
    destruct (Api_receive_failed c f w Hf) as [e He].
    pose proof (Api_receive_failed_world c f w Hf) as Hw.
    destruct (Api.receive c f w) as [w1 c0]. cbn [fst snd] in *. subst c0.
    cbn [fst snd mret JS_ret]. split; [eauto|]. intros ->. exact Hw.
Qed.

Lemma provider_login_leaves_for_provider_witness :
  location
    (Register.handleGoogleLogin_resume Register.initial
       (Responded (mkResponse 200
          (Some (JObj {["authorization_url" := JStr "https://accounts.example/o/oauth2"]}))))
       (useState_initial ∅ Sample.home)).1
  = mkLocation "https://accounts.example/o/oauth2" [].
Proof.
  destruct (provider_login_leaves_for_provider Api.auth_getGoogleAuthUrl
              "Failed to initiate Google login" Register.initial
              (useState_initial ∅ Sample.home) (or_introl (conj eq_refl eq_refl)))
    as (_ & Hgood & _).
  exact (proj1 (proj2 (Hgood
           (mkResponse 200
              (Some (JObj {["authorization_url" := JStr "https://accounts.example/o/oauth2"]})))
           {["authorization_url" := JStr "https://accounts.example/o/oauth2"]}
           eq_refl eq_refl))).
Defined.

(** ** The list of email accounts *)

Lemma strict_eq_true (a b : jsval) : strict_eq a b = true → a = b.
Proof.
  destruct a, b; cbn; try discriminate; try reflexivity.
  - intros Hb. f_equal. apply Bool.eqb_prop, Hb.
  - intros ->%Z.eqb_eq. reflexivity.
  - intros ->%String.eqb_eq. reflexivity.
Qed.

Lemma strict_eq_sym (a b : jsval) : strict_eq a b = strict_eq b a.
Proof.
  destruct a as [| |x|x|x|x|x], b as [| |y|y|y|y|y]; cbn; try reflexivity.
  - destruct x, y; reflexivity.
  - apply Z.eqb_sym.
  - apply String.eqb_sym.
Qed.

Lemma Set_has_delete_eq (s : list jsval) (x : jsval) :
  EmailAccountsList.Set_has (EmailAccountsList.Set_delete s x) x = false.
Proof.
  unfold EmailAccountsList.Set_has, EmailAccountsList.Set_delete.
  induction s as [|y s IH]; [reflexivity|].
  cbn. destruct (strict_eq y x) eqn:Hyx; cbn; [exact IH|].
  rewrite IH, orb_false_r, strict_eq_sym. exact Hyx.
Qed.

Lemma Set_has_delete_ne (s : list jsval) (x z : jsval) :
  strict_eq z x = false →
  EmailAccountsList.Set_has (EmailAccountsList.Set_delete s x) z
  = EmailAccountsList.Set_has s z.
Proof.
  intros Hzx. unfold EmailAccountsList.Set_has, EmailAccountsList.Set_delete.
  induction s as [|y s IH]; [reflexivity|].
  cbn. destruct (strict_eq y x) eqn:Hyx; cbn; rewrite IH; [|reflexivity].
  apply strict_eq_true in Hyx. subst y. rewrite Hzx. reflexivity.
Qed.

Lemma Set_has_add (s : list jsval) (x z : jsval) :
  EmailAccountsList.Set_has (EmailAccountsList.Set_add s x) z
  = EmailAccountsList.Set_has s z || strict_eq z x.
Proof.
  unfold EmailAccountsList.Set_add.
  destruct (EmailAccountsList.Set_has s x) eqn:Hx.
  - destruct (strict_eq z x) eqn:Hzx; [|rewrite orb_false_r; reflexivity].
    rewrite orb_true_r. apply strict_eq_true in Hzx. subst z. exact Hx.
  - unfold EmailAccountsList.Set_has. rewrite existsb_app. cbn. rewrite orb_false_r.
    reflexivity.
Qed.

Lemma authenticatedFetch_request_bind {A : Type} (url : string) (m : method)
    (b : option jsval) (a : A) (w : World) :
  (Api.authenticatedFetch url m b ;; mret a) w =
  (with_request
     (mkRequest m url
        (if present (localStorage w !! "auth_token")
         then <["Authorization" := "Bearer " +:+ default "" (localStorage w !! "auth_token")]>
                json_headers
         else json_headers) b) w, Normal a).
Proof. reflexivity. Qed.

(** X16.  Syncing an email account.  When the render the click belongs to
    shows the account as syncing, nothing is sent and nothing changes.
    Otherwise one POST request for the account leaves and the account is
    marked as syncing, which turns a click in the next render into the first
    case.  A failed request sets an error text and sets no timer; a good
    answer sets the timer of one second; the timer requests the accounts
    again.  After the failure and after the timer the account is no longer
    marked, and the marks of the other accounts are as before. *)
Theorem sync_is_guarded_per_account (seen : list jsval) (accountId : jsval)
    (st : EmailAccountsList.State) (w : World) :
  strict_eq accountId accountId = true →
  (EmailAccountsList.Set_has seen accountId = true →
     EmailAccountsList.handleSync_start seen accountId st w = (w, Normal st))
  ∧ (EmailAccountsList.Set_has seen accountId = false →
       ∃ rq st1,
         EmailAccountsList.handleSync_start seen accountId st w
         = (with_request rq w, Normal st1)
         ∧ req_method rq = POST
         ∧ req_url rq = API_BASE_URL +:+ "/gmail/sync/" +:+ String_of accountId
         ∧ EmailAccountsList.accounts st1 = EmailAccountsList.accounts st
         ∧ EmailAccountsList.Set_has (EmailAccountsList.syncingAccounts st1) accountId = true
         ∧ (∀ w', EmailAccountsList.handleSync_start (EmailAccountsList.syncingAccounts st1)
                    accountId st1 w' = (w', Normal st1)))
  ∧ (∀ r v, ok r = true → body r = Some v →
       EmailAccountsList.handleSync_resume accountId st (Responded r) w
       = (w, Normal (st, true)))
  ∧ (∀ f, remote_failed f →
       ∃ e st2,
         (EmailAccountsList.handleSync_resume accountId st f w).2 = Normal (st2, false)
         ∧ EmailAccountsList.error st2 = Failed "Failed to sync account: " e
         ∧ EmailAccountsList.accounts st2 = EmailAccountsList.accounts st
         ∧ EmailAccountsList.Set_has (EmailAccountsList.syncingAccounts st2) accountId = false
         ∧ ∀ z, strict_eq z accountId = false →
             EmailAccountsList.Set_has (EmailAccountsList.syncingAccounts st2) z
             = EmailAccountsList.Set_has (EmailAccountsList.syncingAccounts st) z)
  ∧ (∃ rq st3,
       EmailAccountsList.handleSync_timeout accountId st w = (with_request rq w, Normal st3)
       ∧ req_method rq = GET
       ∧ req_url rq = API_BASE_URL +:+ "/gmail/accounts"
       ∧ EmailAccountsList.isLoading st3 = true
       ∧ EmailAccountsList.Set_has (EmailAccountsList.syncingAccounts st3) accountId = false
       ∧ ∀ z, strict_eq z accountId = false →
           EmailAccountsList.Set_has (EmailAccountsList.syncingAccounts st3) z
           = EmailAccountsList.Set_has (EmailAccountsList.syncingAccounts st) z).
Proof.
  intros Hprim. split; [|split; [|split; [|split]]].
  - intros Hseen. unfold EmailAccountsList.handleSync_start. rewrite Hseen. reflexivity.
  - intros Hseen. unfold EmailAccountsList.handleSync_start. rewrite Hseen.
    cbn [Api.send]. rewrite authenticatedFetch_request_bind.
    eexists _, _. split; [reflexivity|].
    cbn [req_method req_url EmailAccountsList.accounts EmailAccountsList.syncingAccounts].
    split; [reflexivity|]. split; [reflexivity|]. split; [reflexivity|].
    assert (Hmarked : EmailAccountsList.Set_has
                        (EmailAccountsList.Set_add (EmailAccountsList.syncingAccounts st)
                           accountId) accountId = true)
      by (rewrite Set_has_add, Hprim; apply orb_true_r).
    split; [exact Hmarked|].
    intros w'. unfold EmailAccountsList.handleSync_start. rewrite Hmarked. reflexivity.
  - intros r v Hok Hb.
    unfold EmailAccountsList.handleSync_resume, try_catch, mbind, JS_bind.
    rewrite (Api_receive_ok_plain _ r v w Hok Hb) by discriminate. reflexivity.
  - intros f Hf.
    unfold EmailAccountsList.handleSync_resume, try_catch, mbind, JS_bind.
    destruct (Api_receive_failed (Api.email_syncAccount accountId) f w Hf) as [e He].
    destruct (Api.receive (Api.email_syncAccount accountId) f w) as [w1 c].
    cbn [snd] in He. subst c. cbn [snd mret JS_ret].
    eexists e, _. split; [reflexivity|].
    cbn [EmailAccountsList.error EmailAccountsList.accounts
         EmailAccountsList.syncingAccounts].
    split; [reflexivity|]. split; [reflexivity|].
    split; [apply Set_has_delete_eq|]. intros z Hz. apply Set_has_delete_ne, Hz.
  - unfold EmailAccountsList.handleSync_timeout, EmailAccountsList.loadAccounts_start.
    cbn [Api.send]. unfold mbind at 1. unfold JS_bind at 1.
    rewrite authenticatedFetch_request_bind.
    eexists _, _. split; [reflexivity|].
    cbn [req_method req_url EmailAccountsList.isLoading EmailAccountsList.syncingAccounts].
    split; [reflexivity|]. split; [reflexivity|]. split; [reflexivity|].
    split; [apply Set_has_delete_eq|]. intros z Hz. apply Set_has_delete_ne, Hz.
Qed.

Lemma sync_is_guarded_per_account_witness :
  strict_eq (JNum 7) (JNum 7) = true
  ∧ EmailAccountsList.handleSync_start [JNum 7] (JNum 7) EmailAccountsList.initial
      Sample.signed_in
    = (Sample.signed_in, Normal EmailAccountsList.initial).
Proof.
  split; [reflexivity|].
  destruct (sync_is_guarded_per_account [JNum 7] (JNum 7) EmailAccountsList.initial
              Sample.signed_in eq_refl) as (Hguard & _).
  exact (Hguard eq_refl).
Defined.

(** X17.  Disconnecting an email account.  Without the confirmation nothing
    is sent and nothing changes.  With it one DELETE request for the account
    leaves.  When the request succeeds the accounts with that id, and only
    they, are dropped from the list, in the order they had; when it fails
    the list is as it was and an error text is set. *)
Theorem disconnect_needs_confirmation_and_remote_success (accountId : jsval)
    (st : EmailAccountsList.State) (l : list jsval) (w : World) :
  EmailAccountsList.accounts st = JArr l →
  Forall not_nullish l →
  EmailAccountsList.handleDisconnect_start false st accountId w = (w, Normal st)
  ∧ (∃ rq st1,
       EmailAccountsList.handleDisconnect_start true st accountId w
       = (with_request rq w, Normal st1)
       ∧ req_method rq = DELETE
       ∧ req_url rq = API_BASE_URL +:+ "/gmail/accounts/" +:+ String_of accountId
       ∧ EmailAccountsList.accounts st1 = JArr l)
  ∧ (∀ r v, ok r = true → body r = Some v →
       ∃ st2,
         EmailAccountsList.handleDisconnect_resume accountId st (Responded r) w
         = (w, Normal st2)
         ∧ EmailAccountsList.accounts st2
           = JArr (List.filter (λ account, negb (record_id_is accountId account)) l)
         ∧ EmailAccountsList.error st2 = EmailAccountsList.error st
         ∧ EmailAccountsList.syncingAccounts st2 = EmailAccountsList.syncingAccounts st)
  ∧ (∀ f, remote_failed f →
       ∃ e st3,
         (EmailAccountsList.handleDisconnect_resume accountId st f w).2 = Normal st3
         ∧ EmailAccountsList.accounts st3 = JArr l
         ∧ EmailAccountsList.error st3 = Failed "Failed to disconnect account: " e).
Proof.
  intros Hl Hall. split; [reflexivity|]. split; [|split].
  - unfold EmailAccountsList.handleDisconnect_start. cbn [negb Api.send].
    rewrite authenticatedFetch_request_bind.
    eexists _, _. split; [reflexivity|].
    cbn [req_method req_url EmailAccountsList.accounts].
    split; [reflexivity|]. split; [reflexivity|]. exact Hl.
  - intros r v Hok Hb.
    unfold EmailAccountsList.handleDisconnect_resume, try_catch, mbind, JS_bind.
    rewrite (Api_receive_ok_plain _ r v w Hok Hb) by discriminate.
    rewrite Hl, (deleteUpdater_records accountId l Hall).
    eexists. split; [reflexivity|].
    cbn [EmailAccountsList.accounts EmailAccountsList.error
         EmailAccountsList.syncingAccounts].
    split; [reflexivity|]. split; reflexivity.
  - intros f Hf.
    unfold EmailAccountsList.handleDisconnect_resume, try_catch, mbind, JS_bind.
    destruct (Api_receive_failed (Api.email_disconnectAccount accountId) f w Hf) as [e He].
    destruct (Api.receive (Api.email_disconnectAccount accountId) f w) as [w1 c].
    cbn [snd] in He. subst c. cbn [snd mret JS_ret].
    eexists e, _. split; [reflexivity|].
    cbn [EmailAccountsList.accounts EmailAccountsList.error].
    split; [exact Hl|reflexivity].
Qed.

Lemma disconnect_needs_confirmation_and_remote_success_witness :
  EmailAccountsList.handleDisconnect_start false
    (EmailAccountsList.mkState (JArr [Sample.acme; Sample.globex]) false (Lit "") "" [])
    (JNum 1) Sample.signed_in
  = (Sample.signed_in,
     Normal (EmailAccountsList.mkState (JArr [Sample.acme; Sample.globex]) false (Lit "") "" [])).
Proof.
  assert (Hall : Forall not_nullish [Sample.acme; Sample.globex])
    by (repeat constructor; discriminate).
  exact (proj1 (disconnect_needs_confirmation_and_remote_success (JNum 1)
                  (EmailAccountsList.mkState (JArr [Sample.acme; Sample.globex]) false
                     (Lit "") "" [])
                  [Sample.acme; Sample.globex] Sample.signed_in eq_refl Hall)).
Defined.

(** X18.  Loading the email accounts.  One GET request leaves, the loading
    flag is raised and the error text is cleared.  A good answer that is an
    object sets the list to its [accounts] property, or to the empty list
    when that property is missing or falsy; a failed request leaves the list
    as it was and sets an error text.  In both cases the loading flag is
    lowered and the set of syncing accounts is as it was. *)
Theorem load_accounts_outcomes (st : EmailAccountsList.State) (w : World) :
  (∃ rq st1,
     EmailAccountsList.loadAccounts_start st w = (with_request rq w, Normal st1)
     ∧ req_method rq = GET
     ∧ req_url rq = API_BASE_URL +:+ "/gmail/accounts"
     ∧ EmailAccountsList.isLoading st1 = true
     ∧ EmailAccountsList.error st1 = Lit ""
     ∧ EmailAccountsList.accounts st1 = EmailAccountsList.accounts st)
  ∧ (∀ r v, ok r = true → body r = Some v → not_nullish v →
       ∃ st2,
         EmailAccountsList.loadAccounts_resume st (Responded r) w = (w, Normal st2)
         ∧ EmailAccountsList.accounts st2
           = (if truthy (prop v "accounts") then prop v "accounts" else JArr [])
         ∧ EmailAccountsList.isLoading st2 = false
         ∧ EmailAccountsList.error st2 = EmailAccountsList.error st
         ∧ EmailAccountsList.syncingAccounts st2 = EmailAccountsList.syncingAccounts st)
  ∧ (∀ f, remote_failed f →
       ∃ e st3,
         (EmailAccountsList.loadAccounts_resume st f w).2 = Normal st3
         ∧ EmailAccountsList.accounts st3 = EmailAccountsList.accounts st
         ∧ EmailAccountsList.isLoading st3 = false
         ∧ EmailAccountsList.error st3 = Failed "Failed to load email accounts: " e
         ∧ EmailAccountsList.syncingAccounts st3 = EmailAccountsList.syncingAccounts st).
Proof.
  split; [|split].
  - unfold EmailAccountsList.loadAccounts_start. cbn [Api.send].
    rewrite authenticatedFetch_request_bind.
    eexists _, _. split; [reflexivity|].
    cbn [req_method req_url EmailAccountsList.isLoading EmailAccountsList.error
         EmailAccountsList.accounts].
    repeat (split; [reflexivity|]). reflexivity.
  - intros r v Hok Hb Hv.
    unfold EmailAccountsList.loadAccounts_resume, try_catch, mbind, JS_bind.
    rewrite (Api_receive_ok_plain _ r v w Hok Hb) by discriminate.
    unfold member, lift. rewrite (get_member_not_nullish v "accounts" Hv).
    cbn [mret JS_ret]. eexists. split; [reflexivity|].
    cbn [EmailAccountsList.accounts EmailAccountsList.isLoading EmailAccountsList.error
         EmailAccountsList.syncingAccounts].
    repeat (split; [reflexivity|]). reflexivity.
  - intros f Hf.
    unfold EmailAccountsList.loadAccounts_resume, try_catch, mbind, JS_bind.
    destruct (Api_receive_failed Api.email_getAll f w Hf) as [e He].
    destruct (Api.receive Api.email_getAll f w) as [w1 c].
    cbn [snd] in He. subst c. cbn [snd mret JS_ret].
    eexists e, _. split; [reflexivity|].
    cbn [EmailAccountsList.accounts EmailAccountsList.isLoading EmailAccountsList.error
         EmailAccountsList.syncingAccounts].
    repeat (split; [reflexivity|]). reflexivity.
Qed.

Lemma load_accounts_outcomes_witness :
  not_nullish (JObj ∅)
  ∧ EmailAccountsList.accounts
      match (EmailAccountsList.loadAccounts_resume EmailAccountsList.initial
               (Responded (mkResponse 200 (Some (JObj ∅)))) Sample.signed_in).2 with
      | Normal st => st
      | Abrupt _ => EmailAccountsList.initial
      end
    = JArr [].
Proof.
  assert (Hv : not_nullish (JObj ∅)) by (split; discriminate).
  split; [exact Hv|].
  destruct (load_accounts_outcomes EmailAccountsList.initial Sample.signed_in)
    as (_ & Hgood & _).
  destruct (Hgood (mkResponse 200 (Some (JObj ∅))) (JObj ∅) eq_refl eq_refl Hv)
    as (st2 & Hrun & Hacc & _).
  rewrite Hrun. exact Hacc.
Defined.

Lemma status_count_records (l : list jsval) (value : string) :
  Forall not_nullish l →
  ApplicationsPage.status_count (JArr l) value
  = Normal (length (List.filter (has_status value) l)).
Proof.
  intros Hl. cbn [ApplicationsPage.status_count].
  rewrite (array_filter_pure _ (has_status value)); [reflexivity|].
  intros app Hin. rewrite Forall_forall in Hl.
  rewrite (get_member_not_nullish _ _ (Hl app Hin)). reflexivity.
Qed.

Lemma application_record_not_nullish (app : jsval) :
  application_record app → not_nullish app.
Proof. intros (o & c & r & -> & _). split; discriminate. Qed.

Lemma has_status_exclusive (s t : string) (app : jsval) :
  s ≠ t → has_status s app = true → has_status t app = false.
Proof.
  unfold has_status. intros Hst Hs. apply strict_eq_JStr in Hs. rewrite Hs.
  cbn. apply String.eqb_neq. exact Hst.
Qed.

Lemma four_way_count (p1 p2 p3 p4 : jsval → bool) (l : list jsval) :
  (∀ x, In x l →
     (Nat.b2n (p1 x) + Nat.b2n (p2 x) + Nat.b2n (p3 x) + Nat.b2n (p4 x) = 1)%nat) →
  (length (List.filter p1 l) + length (List.filter p2 l)
   + length (List.filter p3 l) + length (List.filter p4 l) = length l)%nat.
Proof.
  induction l as [|x l IH]; intros Hone; [reflexivity|].
  specialize (IH (λ y Hy, Hone y (or_intror Hy))).
  specialize (Hone x (or_introl eq_refl)).
  cbn [List.filter].
  destruct (p1 x), (p2 x), (p3 x), (p4 x); cbn [Nat.b2n] in Hone; cbn [length]; lia.
Qed.

Lemma four_way_bound (p1 p2 p3 p4 : jsval → bool) (l : list jsval) :
  (∀ x, In x l →
     (Nat.b2n (p1 x) + Nat.b2n (p2 x) + Nat.b2n (p3 x) + Nat.b2n (p4 x) ≤ 1)%nat) →
  (length (List.filter p1 l) + length (List.filter p2 l)
   + length (List.filter p3 l) + length (List.filter p4 l) ≤ length l)%nat.
Proof.
  induction l as [|x l IH]; intros Hone; [reflexivity|].
  specialize (IH (λ y Hy, Hone y (or_intror Hy))).
  specialize (Hone x (or_introl eq_refl)).
  cbn [List.filter].
  destruct (p1 x), (p2 x), (p3 x), (p4 x); cbn [Nat.b2n] in Hone; cbn [length]; lia.
Qed.

Lemma statuses_at_most_one (app : jsval) :
  (Nat.b2n (has_status "Applied" app) + Nat.b2n (has_status "Interview" app)
   + Nat.b2n (has_status "Offer" app) + Nat.b2n (has_status "Rejected" app) ≤ 1)%nat.
Proof.
  unfold has_status. destruct (prop app "status") as [| |b|n|s|l|o]; cbn; try lia.
  destruct (String.eqb s "Applied") eqn:Ha.
  { apply String.eqb_eq in Ha. subst s. cbn. lia. }
  destruct (String.eqb s "Interview") eqn:Hi.
  { apply String.eqb_eq in Hi. subst s. cbn. lia. }
  destruct (String.eqb s "Offer") eqn:Ho.
  { apply String.eqb_eq in Ho. subst s. cbn. lia. }
  destruct (String.eqb s "Rejected"); cbn; lia.
Qed.

Lemma statuses_exactly_one (app : jsval) :
  known_status (prop app "status") →
  (Nat.b2n (has_status "Applied" app) + Nat.b2n (has_status "Interview" app)
   + Nat.b2n (has_status "Offer" app) + Nat.b2n (has_status "Rejected" app) = 1)%nat.
Proof.
  unfold has_status. intros [H|[H|[H|H]]]; rewrite H; reflexivity.
Qed.

(** X19.  The count shown on a status option, and the statistic of the
    dashboard computed by the same expression, is the number of records whose
    status is that value; it is the number of rows the page lists when that
    option is chosen and the search box is empty.  The four counts never add
    up to more than the number of records, and add up to it when every
    record has one of the four statuses. *)
Theorem status_counts_match_listed_rows (l : list jsval) (value : string) :
  (∀ app, In app l → application_record app) →
  value ≠ "all" →
  ApplicationsPage.status_count (JArr l) value
  = Normal (length (List.filter (has_status value) l))
  ∧ (∃ rows,
       ApplicationsPage.filteredApplications (JArr l) value "" = Normal rows
       ∧ ApplicationsPage.status_count (JArr l) value = Normal (length rows))
  ∧ (∃ a i o r,
       ApplicationsPage.status_count (JArr l) "Applied" = Normal a
       ∧ ApplicationsPage.status_count (JArr l) "Interview" = Normal i
       ∧ ApplicationsPage.status_count (JArr l) "Offer" = Normal o
       ∧ ApplicationsPage.status_count (JArr l) "Rejected" = Normal r
       ∧ (a + i + o + r ≤ length l)%nat
       ∧ ((∀ app, In app l → known_status (prop app "status")) →
          (a + i + o + r = length l)%nat)).
Proof.
  intros Hrec Hvalue.
  assert (Hl : Forall not_nullish l).
  { apply Forall_forall. intros app Hin. apply application_record_not_nullish, Hrec.
    apply list_elem_of_In. exact Hin. }
  split; [apply status_count_records, Hl|]. split.
  - eexists. split.
    + apply filteredApplications_records. intros app Hin. apply Hrec, list_elem_of_In, Hin.
    + rewrite (status_count_records l value Hl). do 2 f_equal.
      apply filter_ext_records. intros app Hin.
      rewrite (found_empty app) by (apply Hrec, list_elem_of_In, Hin).
      apply String.eqb_neq in Hvalue. rewrite Hvalue, andb_true_r. reflexivity.
  - eexists _, _, _, _.
    do 4 (split; [apply status_count_records, Hl|]). split.
    + apply four_way_bound. intros app _. apply statuses_at_most_one.
    + intros Hknown. apply four_way_count. intros app Hin.
      apply statuses_exactly_one, Hknown, Hin.
Qed.

Lemma status_counts_match_listed_rows_witness :
  ApplicationsPage.status_count (JArr [Sample.acme; Sample.globex]) "Applied"
  = Normal (length (List.filter (has_status "Applied") [Sample.acme; Sample.globex])).
Proof.
  assert (Hrec : ∀ app, In app [Sample.acme; Sample.globex] → application_record app).
  { intros app [<-|[<-|[]]]; eexists _, _, _; (split; [reflexivity|]);
      split; vm_compute; reflexivity. }
  assert (Hvalue : "Applied" ≠ "all") by discriminate.
  exact (proj1 (status_counts_match_listed_rows [Sample.acme; Sample.globex] "Applied"
                  Hrec Hvalue)).
Defined.

Lemma getStatusColor_lower (s t : string) :
  toLowerCase s = toLowerCase t →
  ApplicationsPage.getStatusColor (JStr s) = ApplicationsPage.getStatusColor (JStr t).
Proof.
  intros Hst. unfold ApplicationsPage.getStatusColor.
  cbn [ApplicationsPage.toLowerCase_of]. rewrite Hst. reflexivity.
Qed.

(** X20.  The colour class of a status badge.  For a status that is a string
    the class is one of the four classes, it depends on the status up to
    letter case only, and for the four statuses of the form it is
    [status-] followed by the status in lower case.  For a record whose
    status is not a string, computing the class throws, although the record
    is listed under [all] and the status counts are computed. *)
Theorem status_colour_of_record (app : jsval) (status : string) :
  application_record app →
  (prop app "status" = JStr status →
     ∃ c,
       ApplicationsPage.getStatusColor (prop app "status") = Normal c
       ∧ In c ["status-applied"; "status-interview"; "status-offer"; "status-rejected"]
       ∧ (known_status (JStr status) → c = "status-" +:+ toLowerCase status)
       ∧ (∀ t, toLowerCase t = toLowerCase status →
            ApplicationsPage.getStatusColor (JStr t) = Normal c))
  ∧ ((∀ s, prop app "status" ≠ JStr s) →
       ApplicationsPage.getStatusColor (prop app "status") = Abrupt TypeError
       ∧ ApplicationsPage.filteredApplications (JArr [app]) "all" "" = Normal [app]
       ∧ ApplicationsPage.status_count (JArr [app]) status = Normal 0%nat).
Proof.
  intros Hrec. split.
  - intros Hs. rewrite Hs.
    assert (Hc : ∃ c, ApplicationsPage.getStatusColor (JStr status) = Normal c
                      ∧ In c ["status-applied"; "status-interview"; "status-offer";
                              "status-rejected"]).
    { unfold ApplicationsPage.getStatusColor. cbn [ApplicationsPage.toLowerCase_of].
      unfold mbind, mret. cbn.
      destruct (String.eqb (toLowerCase status) "applied"); [eexists; split; [reflexivity|cbn; tauto]|].
      destruct (String.eqb (toLowerCase status) "interview"); [eexists; split; [reflexivity|cbn; tauto]|].
      destruct (String.eqb (toLowerCase status) "offer"); [eexists; split; [reflexivity|cbn; tauto]|].
      destruct (String.eqb (toLowerCase status) "rejected"); eexists; (split; [reflexivity|cbn; tauto]). }
    destruct Hc as (c & Hc & Hin). exists c. split; [exact Hc|]. split; [exact Hin|]. split.
    + intros [H|[H|[H|H]]]; injection H as ->; vm_compute in Hc; injection Hc as <-;
        reflexivity.
    + intros t Ht. rewrite (getStatusColor_lower t status Ht). exact Hc.
  - intros Hnot. split; [|split].
    + destruct (prop app "status"); try reflexivity. exfalso. exact (Hnot _ eq_refl).
    + rewrite filteredApplications_records
        by (intros x Hx; apply list_elem_of_singleton in Hx; subst x; exact Hrec).
      cbn [List.filter String.eqb Ascii.eqb Bool.eqb orb andb].
      rewrite (found_empty app Hrec). reflexivity.
    + rewrite status_count_records
        by (constructor; [apply application_record_not_nullish, Hrec|constructor]).
      cbn [List.filter]. unfold has_status.
      destruct (strict_eq (prop app "status") (JStr status)) eqn:Heq; [|reflexivity].
      apply strict_eq_JStr in Heq. exfalso. exact (Hnot _ Heq).
Qed.

Lemma status_colour_of_record_witness :
  application_record Sample.globex
  ∧ ApplicationsPage.getStatusColor (JStr "INTERVIEW") = Normal "status-interview".
Proof.
  assert (Hrec : application_record Sample.globex)
    by (eexists _, _, _; (split; [reflexivity|]); split; vm_compute; reflexivity).
  split; [exact Hrec|].
  destruct (status_colour_of_record Sample.globex "Interview" Hrec) as (Hstring & _).
  destruct (Hstring eq_refl) as (c & Hc & _ & Hknown & Hcase).
  rewrite (Hcase "INTERVIEW" eq_refl).
  rewrite (Hknown (or_intror (or_introl eq_refl))). reflexivity.
Defined.
